(** * Mineflare file server: backup keys, chunked restore, managed paths, jobs

    A shallow embedding of [docker_src/file-server.ts].  Strings are
    [String.string] (sequences of 8-bit code units), integers are [Z],
    byte buffers are [list Byte.byte], JavaScript [Map]s are [gmap]s, and
    everything the server obtains from the outside world (the clock, the
    object store, sub-processes, the environment) is an explicit input. *)

From Stdlib Require Import ZArith Lia List String Ascii Bool.
From Stdlib.Strings Require Import Byte.
From stdpp Require Import base option list gmap strings.

Open Scope Z_scope.

#[local] Arguments String.append : simpl nomatch.

(* ===================================================================== *)
(** ** JavaScript string and number primitives used by the server         *)
(* ===================================================================== *)

(** [s.startsWith(p)] *)
Fixpoint startsWith (s p : string) {struct p} : bool :=
  match p with
  | EmptyString => true
  | String c p' =>
      match s with
      | EmptyString => false
      | String d s' => Ascii.eqb d c && startsWith s' p'
      end
  end.

(** [s.includes(p)] *)
Fixpoint includes (s p : string) : bool :=
  startsWith s p ||
  match s with
  | EmptyString => false
  | String _ s' => includes s' p
  end.

(** [strRepeat c n] is the one-character string [c] repeated [n] times. *)
Fixpoint strRepeat (c : ascii) (n : nat) : string :=
  match n with
  | O => EmptyString
  | S n' => String c (strRepeat c n')
  end.

(** [s.padStart(w, c)] for a one-character pad string. *)
Definition padStart (w : nat) (c : ascii) (s : string) : string :=
  strRepeat c (w - String.length s) +:+ s.

Definition digitChar (d : Z) : ascii := ascii_of_nat (48 + Z.to_nat d).

(** Decimal digits of a non-negative integer, most significant first. *)
Fixpoint decDigits (fuel : nat) (n : Z) : string :=
  match fuel with
  | O => EmptyString
  | S fuel' =>
      if n <? 10 then String (digitChar n) EmptyString
      else decDigits fuel' (n / 10) +:+ String (digitChar (n mod 10)) EmptyString
  end.

(** [String(n)] for an integer [n]. *)
Definition numberToString (n : Z) : string :=
  if n <? 0 then "-" +:+ decDigits (S (Z.to_nat (Z.log2 (- n)))) (- n)
  else decDigits (S (Z.to_nat (Z.log2 n))) n.

(** JavaScript [a > b] on strings: code-unit lexicographic order. *)
Definition strGt (a b : string) : bool :=
  match String.compare a b with Gt => true | _ => false end.

(* ===================================================================== *)
(** ** Dates                                                              *)
(* ===================================================================== *)

(** A [Date] is its time value: milliseconds since the Unix epoch. *)
Definition Date := Z.

Definition msPerSecond : Z := 1000.
Definition msPerHour : Z := 3600000.
Definition msPerDay : Z := 86400000.

(** Proleptic Gregorian calendar: day number (days since 1970-01-01) to
    (year, month, day), and back.  These stand for the runtime's
    [getUTCFullYear], [getUTCMonth() + 1], [getUTCDate] and for parsing an
    ISO date at midnight UTC. *)
Definition civilFromDays (days : Z) : Z * Z * Z :=
  let z := days + 719468 in
  let era := z / 146097 in
  let doe := z - era * 146097 in
  let yoe := (doe - doe / 1460 + doe / 36524 - doe / 146096) / 365 in
  let y := yoe + era * 400 in
  let doy := doe - (365 * yoe + yoe / 4 - yoe / 100) in
  let mp := (5 * doy + 2) / 153 in
  let d := doy - (153 * mp + 2) / 5 + 1 in
  let m := if mp <? 10 then mp + 3 else mp - 9 in
  (if m <=? 2 then y + 1 else y, m, d).

Definition daysFromCivil (y m d : Z) : Z :=
  let y' := if m <=? 2 then y - 1 else y in
  let era := y' / 400 in
  let yoe := y' - era * 400 in
  let mp := if m <=? 2 then m + 9 else m - 3 in
  let doy := (153 * mp + 2) / 5 + d - 1 in
  let doe := yoe * 365 + yoe / 4 - yoe / 100 + doy in
  era * 146097 + doe - 719468.

Definition getUTCFullYear (d : Date) : Z := fst (fst (civilFromDays (d / msPerDay))).
Definition getUTCMonth (d : Date) : Z := snd (fst (civilFromDays (d / msPerDay))) - 1.
Definition getUTCDate (d : Date) : Z := snd (civilFromDays (d / msPerDay)).
Definition getUTCHours (d : Date) : Z := (d mod msPerDay) / msPerHour.

(* ===================================================================== *)
(** ** Key scheme                                                         *)
(* ===================================================================== *)

(** [Math.floor(new Date('2125-01-01T00:00:00Z').getTime() / 1000)] *)
Definition MAX_EPOCH_SECONDS : Z := (daysFromCivil 2125 1 1 * msPerDay) / 1000.

Definition REV_SECONDS_WIDTH : nat := String.length (numberToString MAX_EPOCH_SECONDS).

Definition formatUTCDateYYYYMMDDHH (d : Date) : string :=
  let yyyy := numberToString (getUTCFullYear d) in
  let MM := padStart 2 "0"%char (numberToString (getUTCMonth d + 1)) in
  let dd := padStart 2 "0"%char (numberToString (getUTCDate d)) in
  let HH := padStart 2 "0"%char (numberToString (getUTCHours d)) in
  yyyy +:+ MM +:+ dd +:+ HH.

Definition generateBackupKey (dirName : string) (at_ : Date) : string :=
  let nowSeconds := at_ / 1000 in
  let reverseEpochSeconds := MAX_EPOCH_SECONDS - nowSeconds in
  let reversePart := padStart REV_SECONDS_WIDTH "0"%char (numberToString reverseEpochSeconds) in
  let datePart := formatUTCDateYYYYMMDDHH at_ in
  "backups/" +:+ reversePart +:+ "_" +:+ datePart +:+ "_" +:+ dirName +:+ ".tar.gz".


(** Proof device: the [w] low decimal digits of [n], most significant
    first.  [padStart w "0" (String n)] coincides with it when [n] fits. *)
Fixpoint fixedDigits (w : nat) (n : Z) : string :=
  match w with
  | O => EmptyString
  | S w' => fixedDigits w' (n / 10) +:+ String (digitChar (n mod 10)) EmptyString
  end.

(* ===================================================================== *)
(** ** Results, the outside world, and the local file system              *)
(* ===================================================================== *)

(** The outcome of a computation that may [throw new Error(message)]. *)
Inductive Result (A : Type) : Type :=
| Ok (value : A)
| Throw (message : string).
Arguments Ok {A} value.
Arguments Throw {A} message.

Definition isOk {A} (r : Result A) : bool :=
  match r with Ok _ => true | Throw _ => false end.

(** What reading a response body yields: the bytes, or a failure while
    the body streams in. *)
Inductive BodyOutcome : Type :=
| BodyBytes (data : list byte)
| BodyError (message : string).

(** What [await fetch(url, ...)] yields: a rejection (network error) or a
    response with a status line and a body. *)
Inductive FetchOutcome : Type :=
| FetchRejected (message : string)
| FetchResponse (status : Z) (statusText : string) (body : BodyOutcome).

(** [response.ok] *)
Definition responseOk (status : Z) : bool := (200 <=? status) && (status <=? 299).

(** The network as seen by one download: the outcome of the [attempt]-th
    ranged GET for bytes [start..end_] of the object. *)
Definition RangeNetwork := Z -> Z -> Z -> FetchOutcome.

(** Observable effects of the transfer engine. *)
Inductive Event : Type :=
| EvRangeRequest (partNumber start end_ attempt : Z)
| EvSizeMismatch (partNumber expected got : Z)
| EvAttemptFailed (partNumber attempt : Z) (message : string)
| EvSleep (ms : Z)
| EvExhausted (partNumber : Z).

(** Local files: path to node. *)
Inductive FsNode : Type :=
| FsFile (data : list byte)
| FsDir.

Abbreviation FileSystem := (gmap string FsNode).

(** [Bun.write(path, data)] *)
Definition fsWrite (path : string) (data : list byte) (fs : FileSystem) : FileSystem :=
  <[path := FsFile data]> fs.

(** [Bun.file(path).arrayBuffer()] *)
Definition fsRead (path : string) (fs : FileSystem) : Result (list byte) :=
  match fs !! path with
  | Some (FsFile data) => Ok data
  | _ => Throw ("ENOENT: no such file or directory, open '" +:+ path +:+ "'")
  end.

(** [unlink(path)], that is [rm -f path]: removes a file, and succeeds
    when there is none. *)
Definition unlink (path : string) (fs : FileSystem) : FileSystem :=
  match fs !! path with
  | Some (FsFile _) => delete path fs
  | _ => fs
  end.

(** [Bun.file(path).stat()?.size || 0] *)
Definition fsSize (path : string) (fs : FileSystem) : Z :=
  match fs !! path with
  | Some (FsFile data) => Z.of_nat (length data)
  | _ => 0
  end.

(* ===================================================================== *)
(** ** Chunked transfer engine                                            *)
(* ===================================================================== *)

Definition MAX_RETRIES : Z := 3.
Definition RETRY_DELAY_MS : Z := 1000.

Definition LARGE_FILE_THRESHOLD : Z := 100 * 1024 * 1024.
Definition DOWNLOAD_CHUNK_SIZE : Z := 50 * 1024 * 1024.
Definition MAX_CONCURRENT_DOWNLOADS : Z := 5.

(** [Math.ceil(a / b)] for integers [a] and [b > 0]. *)
Definition ceilDiv (a b : Z) : Z := - ((- a) / b).

(** One attempt of the [try] block of [downloadRangeWithRetry]. *)
Definition rangeAttempt (net : RangeNetwork) (start end_ partNumber attempt : Z)
  : list Event * Result (list byte) :=
  let rangeSize := end_ - start + 1 in
  let request := EvRangeRequest partNumber start end_ attempt in
  match net start end_ attempt with
  | FetchRejected message => ([request], Throw message)
  | FetchResponse status statusText body =>
      if negb (responseOk status) then
        let errorBody :=
          match body with
          | BodyBytes data => string_of_list_byte data
          | BodyError _ => "(unable to read body)"
          end in
        ([request],
         Throw ("HTTP " +:+ numberToString status +:+ ": " +:+ statusText
                +:+ " - " +:+ errorBody))
      else
        match body with
        | BodyError message => ([request], Throw message)
        | BodyBytes data =>
            let byteLength := Z.of_nat (length data) in
            (request ::
               (if byteLength =? rangeSize then []
                else [EvSizeMismatch partNumber rangeSize byteLength]),
             Ok data)
        end
  end.

(** The [for (let attempt = 1; attempt <= MAX_RETRIES; attempt++)] loop;
    [remaining] counts the iterations left, [Z.to_nat MAX_RETRIES] at
    entry. *)
Fixpoint retryLoop (net : RangeNetwork) (start end_ partNumber totalParts : Z)
    (remaining : nat) (attempt : Z) (lastError : option string)
  : list Event * Result (list byte) :=
  match remaining with
  | O =>
      ([EvExhausted partNumber],
       Throw ("Failed to download part " +:+ numberToString partNumber +:+ "/"
              +:+ numberToString totalParts +:+ " after " +:+ numberToString MAX_RETRIES
              +:+ " attempts: " +:+ default "undefined" lastError))
  | S remaining' =>
      match rangeAttempt net start end_ partNumber attempt with
      | (evs, Ok data) => (evs, Ok data)
      | (evs, Throw message) =>
          let backoff :=
            if attempt <? MAX_RETRIES
            then [EvSleep (RETRY_DELAY_MS * 2 ^ (attempt - 1))] else [] in
          let '(evs', r) :=
            retryLoop net start end_ partNumber totalParts remaining'
                      (attempt + 1) (Some message) in
          (evs ++ EvAttemptFailed partNumber attempt message :: backoff ++ evs', r)
      end
  end.

Definition downloadRangeWithRetry (net : RangeNetwork)
    (start end_ partNumber totalParts : Z) : list Event * Result (list byte) :=
  retryLoop net start end_ partNumber totalParts (Z.to_nat MAX_RETRIES) 1 None.

Record DownloadTask : Type := mkTask {
  partNumber : Z;
  start : Z;
  end_ : Z;
  tempFile : string
}.

Section ChunkedDownload.

(** The chunk size is [DOWNLOAD_CHUNK_SIZE] in the server; the engine is
    written once for any chunk size so that it can also be run on small
    objects. *)
Variable chunkSize : Z.

Definition numPartsOf (fileSize : Z) : Z := ceilDiv fileSize chunkSize.

Definition partFile (tempFile : string) (i : Z) : string :=
  tempFile +:+ ".part" +:+ numberToString i.

(** The body of the task-building loop for index [i]. *)
Definition taskAt (tempFile : string) (fileSize : Z) (i : Z) : DownloadTask :=
  let start := i * chunkSize in
  let end_ := Z.min (start + chunkSize - 1) (fileSize - 1) in
  mkTask (i + 1) start end_ (partFile tempFile i).

Definition downloadTasksOf (tempFile : string) (fileSize : Z) : list DownloadTask :=
  taskAt tempFile fileSize <$> seqZ 0 (numPartsOf fileSize).

(** [downloadPart]: fetch the range with retries, write it to the part
    file. *)
Definition downloadPart (net : RangeNetwork) (numParts : Z) (task : DownloadTask)
    (fs : FileSystem) : list Event * FileSystem * Result unit :=
  match downloadRangeWithRetry net (start task) (end_ task) (partNumber task) numParts with
  | (evs, Ok data) => (evs, fsWrite (tempFile task) data fs, Ok tt)
  | (evs, Throw message) => (evs, fs, Throw message)
  end.

(** [await Promise.all(batch.map(downloadPart))]: every part of the batch
    runs; the batch fails with the error of a failed part (here the first
    in task order) and succeeds when none fails. *)
Fixpoint downloadBatch (net : RangeNetwork) (numParts : Z) (batch : list DownloadTask)
    (fs : FileSystem) : list Event * FileSystem * Result unit :=
  match batch with
  | [] => ([], fs, Ok tt)
  | task :: batch' =>
      let '(evs1, fs1, r1) := downloadPart net numParts task fs in
      let '(evs2, fs2, r2) := downloadBatch net numParts batch' fs1 in
      (evs1 ++ evs2, fs2, match r1 with Ok _ => r2 | Throw m => Throw m end)
  end.

(** [for (let i = 0; i < downloadTasks.length; i += MAX_CONCURRENT_DOWNLOADS)] *)
Fixpoint batchLoop (net : RangeNetwork) (numParts : Z) (tasks : list DownloadTask)
    (fuel : nat) (i : Z) (fs : FileSystem) : list Event * FileSystem * Result unit :=
  match fuel with
  | O => ([], fs, Ok tt)
  | S fuel' =>
      if i <? Z.of_nat (length tasks) then
        let batch := take (Z.to_nat MAX_CONCURRENT_DOWNLOADS) (drop (Z.to_nat i) tasks) in
        match downloadBatch net numParts batch fs with
        | (evs, fs1, Ok _) =>
            let '(evs', fs2, r) :=
              batchLoop net numParts tasks fuel' (i + MAX_CONCURRENT_DOWNLOADS) fs1 in
            (evs ++ evs', fs2, r)
        | (evs, fs1, Throw message) => (evs, fs1, Throw message)
        end
      else ([], fs, Ok tt)
  end.

(** The reconstitution loop: append part [i], [i+1], ... to the writer's
    buffer [written], removing each part file once read. *)
Fixpoint reconstitute (tempFile : string) (parts : list Z) (written : list byte)
    (fs : FileSystem) : FileSystem * Result (list byte) :=
  match parts with
  | [] => (fs, Ok written)
  | i :: parts' =>
      match fsRead (partFile tempFile i) fs with
      | Throw message => (fs, Throw message)
      | Ok partData =>
          reconstitute tempFile parts' (written ++ partData)
                       (unlink (partFile tempFile i) fs)
      end
  end.

Definition downloadLargeFileWith (net : RangeNetwork) (tempFile : string)
    (fileSize : Z) (fs : FileSystem) : list Event * FileSystem * Result unit :=
  let numParts := numPartsOf fileSize in
  let downloadTasks := downloadTasksOf tempFile fileSize in
  match batchLoop net numParts downloadTasks (length downloadTasks) 0 fs with
  | (evs, fs1, Throw message) => (evs, fs1, Throw message)
  | (evs, fs1, Ok _) =>
      match reconstitute tempFile (seqZ 0 numParts) [] fs1 with
      | (fs2, Throw message) => (evs, fs2, Throw message)
      | (fs2, Ok written) => (evs, fsWrite tempFile written fs2, Ok tt)
      end
  end.

End ChunkedDownload.

Definition numParts := numPartsOf DOWNLOAD_CHUNK_SIZE.
Definition downloadTasks := downloadTasksOf DOWNLOAD_CHUNK_SIZE.
Definition downloadLargeFile := downloadLargeFileWith DOWNLOAD_CHUNK_SIZE.

(** The object store answering a ranged GET for bytes [start..end_] of an
    object: the bytes at those positions (fewer when the object ends
    earlier). *)
Definition objectRange (object : list byte) (start end_ : Z) : list byte :=
  take (Z.to_nat (end_ - start + 1)) (drop (Z.to_nat start) object).

(** A network on which every ranged GET is answered at once with
    [206 Partial Content] and the requested bytes. *)
Definition reliableStore (object : list byte) : RangeNetwork :=
  fun start end_ _ => FetchResponse 206 "Partial Content" (BodyBytes (objectRange object start end_)).

(** Readings of an event trace: the attempt numbers of the ranged GETs
    issued, the back-off delays awaited, and the size-mismatch warnings. *)
Definition attemptsOf (evs : list Event) : list Z :=
  omap (fun ev => match ev with EvRangeRequest _ _ _ k => Some k | _ => None end) evs.

Definition sleepsOf (evs : list Event) : list Z :=
  omap (fun ev => match ev with EvSleep ms => Some ms | _ => None end) evs.

Definition mismatchesOf (evs : list Event) : list (Z * Z) :=
  omap (fun ev => match ev with EvSizeMismatch _ expected got => Some (expected, got)
                           | _ => None end) evs.

(** A transport-level failure: the request was rejected, the status is
    not 2xx, or the body could not be read. *)
Definition transportFailure (o : FetchOutcome) : bool :=
  match o with
  | FetchRejected _ => true
  | FetchResponse status _ (BodyError _) => true
  | FetchResponse status _ (BodyBytes _) => negb (responseOk status)
  end.

(** The exponential back-off awaited after failed attempt [k]. *)
Definition backoffDelay (k : Z) : Z := RETRY_DELAY_MS * 2 ^ (k - 1).

(** The message of the error thrown once every attempt has failed. *)
Definition exhaustedMessage (partNumber totalParts : Z) (cause : string) : string :=
  "Failed to download part " +:+ numberToString partNumber +:+ "/"
  +:+ numberToString totalParts +:+ " after 3 attempts: " +:+ cause.

(** Fixtures for running the engine. *)
Definition tenBytes : list byte := [x00; x01; x02; x03; x04; x05; x06; x07; x08; x09].

(** A network that fails twice and then serves the range. *)
Definition flakyStore (object : list byte) : RangeNetwork :=
  fun start end_ attempt =>
    if attempt <? 3 then
      (if attempt =? 1 then FetchRejected "ECONNRESET"
       else FetchResponse 503 "Service Unavailable" (BodyBytes []))
    else reliableStore object start end_ attempt.

(** The outcome of downloading one part, retries included. *)
Definition partResult (net : RangeNetwork) (numParts : Z) (task : DownloadTask)
  : Result (list byte) :=
  snd (downloadRangeWithRetry net (start task) (end_ task) (partNumber task) numParts).

(** Proof device: the file system once every part of [tasks] that
    downloads successfully has been written to its part file. *)
Fixpoint partsWritten (net : RangeNetwork) (numParts : Z) (tasks : list DownloadTask)
    (fs : FileSystem) : FileSystem :=
  match tasks with
  | [] => fs
  | task :: tasks' =>
      match partResult net numParts task with
      | Ok data => partsWritten net numParts tasks' (fsWrite (tempFile task) data fs)
      | Throw _ => partsWritten net numParts tasks' fs
      end
  end.

(** The network serves [object]: every readable 2xx answer to a ranged
    GET carries the requested bytes of [object]. *)
Definition servesObject (object : list byte) (net : RangeNetwork) : Prop :=
  forall s e k status statusText data,
    net s e k = FetchResponse status statusText (BodyBytes data) ->
    responseOk status = true ->
    data = objectRange object s e.

(** Every part of [tasks] has an attempt among the first [MAX_RETRIES]
    that is not a transport failure. *)
Definition withinRetryBudget (net : RangeNetwork) (tasks : list DownloadTask) : Prop :=
  forall task, task ∈ tasks ->
    exists k, 1 <= k <= MAX_RETRIES
              /\ transportFailure (net (start task) (end_ task) k) = false.

(* ===================================================================== *)
(** ** POSIX paths ([node:path]'s [path.posix])                           *)
(* ===================================================================== *)

Definition slash : ascii := "/"%char.

(** [s.split(sep)] for a one-character separator. *)
Fixpoint splitOn (sep : ascii) (s : string) : list string :=
  match s with
  | EmptyString => [EmptyString]
  | String c s' =>
      if Ascii.eqb c sep then EmptyString :: splitOn sep s'
      else match splitOn sep s' with
           | piece :: pieces => String c piece :: pieces
           | [] => [String c EmptyString]
           end
  end.

(** [pieces.join(sep)] *)
Fixpoint joinWith (sep : string) (pieces : list string) : string :=
  match pieces with
  | [] => EmptyString
  | [piece] => piece
  | piece :: pieces' => piece +:+ sep +:+ joinWith sep pieces'
  end.

(** [s.endsWith("/")] *)
Fixpoint endsWithSlash (s : string) : bool :=
  match s with
  | EmptyString => false
  | String c EmptyString => Ascii.eqb c slash
  | String _ s' => endsWithSlash s'
  end.

(** One step of [normalizeString]: the segments kept so far are on
    [stack], innermost first. *)
Definition normalizeStep (allowAboveRoot : bool) (stack : list string) (segment : string)
  : list string :=
  if String.eqb segment "" || String.eqb segment "." then stack
  else if String.eqb segment ".." then
    match stack with
    | last :: rest =>
        if String.eqb last ".." then (if allowAboveRoot then ".." :: stack else stack)
        else rest
    | [] => if allowAboveRoot then [".."] else []
    end
  else segment :: stack.

(** The segments of a path once ["."], empty segments and [".."] are
    resolved. *)
Definition normalizeSegments (allowAboveRoot : bool) (segments : list string) : list string :=
  rev (foldl (normalizeStep allowAboveRoot) [] segments).

Definition normalizeString (path : string) (allowAboveRoot : bool) : string :=
  joinWith "/" (normalizeSegments allowAboveRoot (splitOn slash path)).

(** [path.posix.normalize(path)] *)
Definition posixNormalize (path : string) : string :=
  if String.eqb path "" then "."
  else
    let isAbsolute := startsWith path "/" in
    let trailingSeparator := endsWithSlash path in
    let p := normalizeString path (negb isAbsolute) in
    if String.eqb p "" then
      (if isAbsolute then "/" else if trailingSeparator then "./" else ".")
    else
      let p' := if trailingSeparator then p +:+ "/" else p in
      if isAbsolute then "/" +:+ p' else p'.

(** [path.posix.resolve('/', path)] *)
Definition posixResolveRoot (path : string) : string :=
  let resolvedPath :=
    if String.eqb path "" then "//"
    else if startsWith path "/" then path +:+ "/"
    else "/" +:+ "/" +:+ path +:+ "/" in
  "/" +:+ normalizeString resolvedPath false.

(** [path.posix.dirname(path)] on an absolute path in normal form (which
    is what [posixResolveRoot] returns). *)
Definition posixDirname (path : string) : string :=
  "/" +:+ joinWith "/" (removelast (normalizeSegments false (splitOn slash path))).

(** [path.posix.join(a, b)] *)
Definition posixJoin (a b : string) : string :=
  if String.eqb a "" then posixNormalize b
  else if String.eqb b "" then posixNormalize a
  else posixNormalize (a +:+ "/" +:+ b).

(** White space per [String.prototype.trim], within the 8-bit range. *)
Definition isWhiteSpace (c : ascii) : bool :=
  let n := N_of_ascii c in
  ((9 <=? n) && (n <=? 13) || (n =? 32) || (n =? 160))%N.

Fixpoint trimStart (s : string) : string :=
  match s with
  | EmptyString => EmptyString
  | String c s' => if isWhiteSpace c then trimStart s' else s
  end.

Fixpoint trimEnd (s : string) : string :=
  match s with
  | EmptyString => EmptyString
  | String c s' =>
      let r := trimEnd s' in
      if isWhiteSpace c && String.eqb r "" then EmptyString else String c r
  end.

(** [s.trim()] *)
Definition trim (s : string) : string := trimEnd (trimStart s).

(** [s.toLowerCase()] on ASCII letters. *)
Definition lowerChar (c : ascii) : ascii :=
  let n := N_of_ascii c in
  if ((65 <=? n) && (n <=? 90))%N then ascii_of_N (n + 32) else c.

Fixpoint toLowerCase (s : string) : string :=
  match s with
  | EmptyString => EmptyString
  | String c s' => String (lowerChar c) (toLowerCase s')
  end.

(* ===================================================================== *)
(** ** Managed roots                                                      *)
(* ===================================================================== *)

Record ResolvedPath : Type := mkResolved {
  absolute : string;
  root : string;
  parent : option string
}.

Definition computeParent (root absolute : string) : option string :=
  if String.eqb absolute root then None
  else
    let candidate := posixDirname absolute in
    if (String.length candidate <? String.length root)%nat then Some root
    else if negb (startsWith candidate root) then Some root
    else Some candidate.

(** The test of the [for (const root of this.managedRoots)] loop. *)
Definition underRoot (root absolutePath : string) : bool :=
  String.eqb root "/" || String.eqb absolutePath root
  || startsWith absolutePath (root +:+ "/").

(** [rawPath && rawPath.trim().length ? rawPath.trim()
     : (allowFallback ? this.managedRoots[0] : null)], with the falsy
    results ([null], [undefined], [""]) as [None]. *)
Definition pathCandidate (managedRoots : list string) (rawPath : option string)
    (allowRootFallback : bool) : option string :=
  let fallback :=
    if allowRootFallback then
      match managedRoots with
      | first :: _ => if String.eqb first "" then None else Some first
      | [] => None
      end
    else None in
  match rawPath with
  | Some raw => if String.eqb (trim raw) "" then fallback else Some (trim raw)
  | None => fallback
  end.

Definition absolutePathOf (candidate : string) : string :=
  let normalizedInput := if startsWith candidate "/" then candidate else "/" +:+ candidate in
  posixResolveRoot (posixNormalize normalizedInput).

Definition resolveManagedPath (managedRoots : list string) (rawPath : option string)
    (allowRootFallback : bool) : Result ResolvedPath :=
  match pathCandidate managedRoots rawPath allowRootFallback with
  | None => Throw "Path is required"
  | Some candidate =>
      let absolutePath := absolutePathOf candidate in
      match List.find (fun root => underRoot root absolutePath) managedRoots with
      | Some root => Ok (mkResolved absolutePath root (computeParent root absolutePath))
      | None => Throw "Path is outside managed roots"
      end
  end.

(** The HTTP status the file-system gateway gives a caught error: the
    read handlers ([handleListFiles], [handleReadFile]) and the write
    handlers ([handleWriteFile], [handleDeletePath],
    [handleCreateDirectory]). *)
Definition readErrorStatus (message : string) : Z :=
  if includes message "outside" then 403
  else if includes message "required" then 400 else 500.

Definition writeErrorStatus (message : string) : Z :=
  if includes message "maintenance" then 400
  else if includes message "outside" then 403 else 500.

(** Vocabulary for stating what [resolveManagedPath] accepts. *)

(** A proper path segment: not empty, not ["."], not [".."], no slash. *)
Fixpoint hasSlash (s : string) : bool :=
  match s with
  | EmptyString => false
  | String c s' => Ascii.eqb c slash || hasSlash s'
  end.

Definition properSegment (s : string) : Prop :=
  s <> "" /\ s <> "." /\ s <> ".." /\ hasSlash s = false.

(** The absolute path with the given segments: ["/"] for none. *)
Definition renderPath (segments : list string) : string :=
  "/" +:+ joinWith "/" segments.

(** The segments a path resolves to from the root directory. *)
Definition pathSegments (path : string) : list string :=
  normalizeSegments false (splitOn slash path).

(** Proof device: the segments written one after another, each after a
    slash.  For at least one segment this is [renderPath]. *)
Fixpoint flatPath (segments : list string) : string :=
  match segments with
  | [] => EmptyString
  | s :: rest => String slash (s +:+ flatPath rest)
  end.

(** Empty, or starting with a slash. *)
Definition slashy (u : string) : Prop := u = "" \/ exists x, u = String slash x.

(* ===================================================================== *)
(** ** Jobs                                                               *)
(* ===================================================================== *)

Module BackupJob.

Inductive Status : Type := pending | running | success | failed.

Record Outcome : Type := mkOutcome {
  backup_path : string;
  size : Z;
  note : string
}.

Record t : Type := mk {
  id : string;
  directory : string;
  status : Status;
  startedAt : Z;
  completedAt : option Z;
  result : option Outcome;
  error : option string
}.

Definition isTerminal (s : Status) : bool :=
  match s with success | failed => true | pending | running => false end.

Definition withStatus (v : Status) (j : t) : t :=
  mk (id j) (directory j) v (startedAt j) (completedAt j) (result j) (error j).

Definition withCompletedAt (v : Z) (j : t) : t :=
  mk (id j) (directory j) (status j) (startedAt j) (Some v) (result j) (error j).

Definition withResult (v : Outcome) (j : t) : t :=
  mk (id j) (directory j) (status j) (startedAt j) (completedAt j) (Some v) (error j).

Definition withError (v : string) (j : t) : t :=
  mk (id j) (directory j) (status j) (startedAt j) (completedAt j) (result j) (Some v).

(** The transitions of the backup state machine. *)
Inductive forward : Status -> Status -> Prop :=
| start_work : forward pending running
| finish : forward running success
| fail : forward running failed.

End BackupJob.

Module ModpackJob.

Inductive Source : Type := modrinth | curseforge.

Inductive Status : Type := pending | downloading | installing | completed | failed.

Inductive Loader : Type := PAPER | FORGE | FABRIC | NEOFORGE.

Record Progress : Type := mkProgress {
  phase : string;
  currentFile : option string;
  currentIndex : option Z;
  totalFiles : option Z;
  note : option string
}.

Record Outcome : Type := mkOutcome {
  loader : option Loader;
  minecraftVersion : option string;
  profileSuggestion : option string;
  packName : option string;
  filesInstalled : Z;
  overridesApplied : bool
}.

Record t : Type := mk {
  id : string;
  source : Source;
  status : Status;
  startedAt : Z;
  updatedAt : Z;
  progress : option Progress;
  error : option string;
  result : option Outcome
}.

Definition phaseOnly (p : string) : Progress := mkProgress p None None None None.

Definition phaseNote (p n : string) : Progress := mkProgress p None None None (Some n).

Definition isTerminal (s : Status) : bool :=
  match s with completed | failed => true | _ => false end.

Definition withStatus (v : Status) (j : t) : t :=
  mk (id j) (source j) v (startedAt j) (updatedAt j) (progress j) (error j) (result j).

Definition withUpdatedAt (v : Z) (j : t) : t :=
  mk (id j) (source j) (status j) (startedAt j) v (progress j) (error j) (result j).

Definition withProgress (v : Progress) (j : t) : t :=
  mk (id j) (source j) (status j) (startedAt j) (updatedAt j) (Some v) (error j) (result j).

Definition withError (v : string) (j : t) : t :=
  mk (id j) (source j) (status j) (startedAt j) (updatedAt j) (progress j) (Some v) (result j).

Definition withResult (v : Outcome) (j : t) : t :=
  mk (id j) (source j) (status j) (startedAt j) (updatedAt j) (progress j) (error j) (Some v).

(** The transitions of the package-install state machine. *)
Inductive forward : Status -> Status -> Prop :=
| begin_fetch : forward pending downloading
| begin_files : forward downloading installing
| all_files : forward installing completed
| fail_pending : forward pending failed
| fail_downloading : forward downloading failed
| fail_installing : forward installing failed.

Definition sourceName (s : Source) : string :=
  match s with modrinth => "modrinth" | curseforge => "curseforge" end.

End ModpackJob.

(** Work started and not awaited, with what it needs to go on: a backup
    waiting for its [tar] process, an install pipeline waiting for the
    [mkdir] of its temporary directory.  Jobs are named by their object
    ([nat], a place in the heap of job objects). *)
Inductive Detached : Type :=
| BackupTask (job : nat) (backupFilename tempFile : string) (argv : list string)
| ModrinthTask (job : nat) (url : string) (packVersion : option string)
| CurseforgeTask (job : nat) (projectId fileId : Z).

(* ===================================================================== *)
(** ** The server and the world around it                                 *)
(* ===================================================================== *)

(** Observable effects of the server: what the transfer engine does,
    requests sent to the object store and to other hosts, sub-processes
    started, the warning logged when a restored file has another size
    than announced, and every assignment to a job's status. *)
Inductive Effect : Type :=
| EngineEvent (ev : Event)
| HeadRequest (key : string)
| ObjectGet (key : string)
| ObjectPut (key : string)
| HttpGet (url : string)
| Spawn (argv : list string)
| DownloadedSizeMismatch (downloaded expected : Z)
| BackupStatusSet (job : nat) (status : BackupJob.Status)
| ModpackStatusSet (job : nat) (status : ModpackJob.Status).

(** The [FileServer] instance with what it owns: the job maps, the
    counters, the managed roots; the process environment and the local
    file system it reads and writes; the detached work it has started; the
    trace of its effects.  Job objects live in [backupHeap] and
    [modpackHeap]; [backupJobs] and [modpackJobs] map a job id to its
    object, as the background work mutates the object it was handed. *)
Record Server : Type := mkServer {
  env : gmap string string;
  managedRoots : list string;
  files : FileSystem;
  backupJobs : gmap string nat;
  backupHeap : list BackupJob.t;
  modpackJobs : gmap string nat;
  modpackHeap : list ModpackJob.t;
  requestCount : Z;
  backupCount : Z;
  restoreCount : Z;
  activeRestores : Z;
  detached : list Detached;
  trace : list Effect
}.

Definition setFiles (v : FileSystem) (s : Server) : Server :=
  mkServer (env s) (managedRoots s) v (backupJobs s) (backupHeap s) (modpackJobs s)
    (modpackHeap s) (requestCount s) (backupCount s) (restoreCount s) (activeRestores s)
    (detached s) (trace s).

Definition setBackupJobs (v : gmap string nat) (s : Server) : Server :=
  mkServer (env s) (managedRoots s) (files s) v (backupHeap s) (modpackJobs s)
    (modpackHeap s) (requestCount s) (backupCount s) (restoreCount s) (activeRestores s)
    (detached s) (trace s).

Definition setBackupHeap (v : list BackupJob.t) (s : Server) : Server :=
  mkServer (env s) (managedRoots s) (files s) (backupJobs s) v (modpackJobs s)
    (modpackHeap s) (requestCount s) (backupCount s) (restoreCount s) (activeRestores s)
    (detached s) (trace s).

Definition setModpackJobs (v : gmap string nat) (s : Server) : Server :=
  mkServer (env s) (managedRoots s) (files s) (backupJobs s) (backupHeap s) v
    (modpackHeap s) (requestCount s) (backupCount s) (restoreCount s) (activeRestores s)
    (detached s) (trace s).

Definition setModpackHeap (v : list ModpackJob.t) (s : Server) : Server :=
  mkServer (env s) (managedRoots s) (files s) (backupJobs s) (backupHeap s)
    (modpackJobs s) v (requestCount s) (backupCount s) (restoreCount s)
    (activeRestores s) (detached s) (trace s).

Definition setRequestCount (v : Z) (s : Server) : Server :=
  mkServer (env s) (managedRoots s) (files s) (backupJobs s) (backupHeap s)
    (modpackJobs s) (modpackHeap s) v (backupCount s) (restoreCount s)
    (activeRestores s) (detached s) (trace s).

Definition setBackupCount (v : Z) (s : Server) : Server :=
  mkServer (env s) (managedRoots s) (files s) (backupJobs s) (backupHeap s)
    (modpackJobs s) (modpackHeap s) (requestCount s) v (restoreCount s)
    (activeRestores s) (detached s) (trace s).

Definition setRestoreCount (v : Z) (s : Server) : Server :=
  mkServer (env s) (managedRoots s) (files s) (backupJobs s) (backupHeap s)
    (modpackJobs s) (modpackHeap s) (requestCount s) (backupCount s) v
    (activeRestores s) (detached s) (trace s).

Definition setActiveRestores (v : Z) (s : Server) : Server :=
  mkServer (env s) (managedRoots s) (files s) (backupJobs s) (backupHeap s)
    (modpackJobs s) (modpackHeap s) (requestCount s) (backupCount s) (restoreCount s) v
    (detached s) (trace s).

Definition setDetached (v : list Detached) (s : Server) : Server :=
  mkServer (env s) (managedRoots s) (files s) (backupJobs s) (backupHeap s)
    (modpackJobs s) (modpackHeap s) (requestCount s) (backupCount s) (restoreCount s)
    (activeRestores s) v (trace s).

Definition setTrace (v : list Effect) (s : Server) : Server :=
  mkServer (env s) (managedRoots s) (files s) (backupJobs s) (backupHeap s)
    (modpackJobs s) (modpackHeap s) (requestCount s) (backupCount s) (restoreCount s)
    (activeRestores s) (detached s) v.

(** Computations of the server: they read and change the server, and
    return a value or throw. *)
Definition M (A : Type) : Type := Server -> Server * Result A.

#[export] Instance M_ret : MRet M := fun A (a : A) s => (s, Ok a).

#[export] Instance M_bind : MBind M := fun A B (f : A -> M B) (m : M A) s =>
  match m s with
  | (s', Ok a) => f a s'
  | (s', Throw message) => (s', Throw message)
  end.

Definition throw {A} (message : string) : M A := fun s => (s, Throw message).

(** [try { m } catch (error) { handler error.message }] *)
Definition tryCatch {A} (m : M A) (handler : string -> M A) : M A := fun s =>
  match m s with
  | (s', Ok a) => (s', Ok a)
  | (s', Throw message) => handler message s'
  end.

(** [try { m } finally { cleanup }], for a [cleanup] that does not throw. *)
Definition tryFinally {A} (m : M A) (cleanup : Server -> Server) : M A := fun s =>
  let '(s', r) := m s in (cleanup s', r).

Definition get : M Server := fun s => (s, Ok s).
Definition modify (f : Server -> Server) : M unit := fun s => (f s, Ok tt).
Definition emit (ev : Effect) : M unit := modify (fun s => setTrace (trace s ++ [ev]) s).
Definition liftResult {A} (r : Result A) : M A := fun s => (s, r).

(** What the server cannot decide: the clock, randomness, the object
    store, other hosts, the processes it starts, and the digests of the
    runtime's [crypto.subtle]. *)
Record World : Type := mkWorld {
  now : Date;
  random : string;
  headObject : string -> FetchOutcome;
  contentLength : string -> option Z;
  rangeNet : string -> RangeNetwork;
  getObject : string -> Result (list byte);
  putObject : string -> list byte -> Result unit;
  httpGet : string -> FetchOutcome;
  procExit : list string -> Z;
  procStderr : list string -> string;
  procStdout : list string -> string;
  procEffect : list string -> FileSystem -> FileSystem;
  digest : string -> list byte -> list byte
}.

(** [process.env.NAME], with [undefined] and [""] both falsy. *)
Definition envTruthy (name : string) (s : Server) : bool :=
  match env s !! name with
  | Some v => negb (String.eqb v "")
  | None => false
  end.

(** [const proc = spawn(argv); await proc.exited]: the exit code.
    Starting the process is taken to succeed. *)
Definition spawn (w : World) (argv : list string) : M Z :=
  _ ← emit (Spawn argv);
  _ ← modify (fun s => setFiles (procEffect w argv (files s)) s);
  mret (procExit w argv).

(** The helper [ensureDirectory(path)]. *)
Definition ensureDirectory (w : World) (path : string) : M unit :=
  exitCode ← spawn w ["mkdir"; "-p"; path];
  if negb (exitCode =? 0) then
    throw ("Failed to create directory " +:+ path +:+ ": "
           +:+ procStderr w ["mkdir"; "-p"; path])
  else mret tt.

(** The helper [removePath(targetPath)]; its exit code is not looked at. *)
Definition removePath (w : World) (targetPath : string) : M unit :=
  if String.eqb targetPath "" || String.eqb targetPath "/" || String.eqb targetPath "/data"
  then mret tt
  else _ ← spawn w ["rm"; "-rf"; targetPath]; mret tt.

(** The helper [pathExists(targetPath)]. *)
Definition dquote : string := String (ascii_of_nat 34) EmptyString.

Definition pathExists (w : World) (targetPath : string) : M bool :=
  exitCode ← spawn w ["sh"; "-c"; "[ -e " +:+ dquote +:+ targetPath +:+ dquote +:+ " ]"];
  mret (exitCode =? 0).

(** [createS3Client('data')]: the credentials must all be set. *)
Definition createS3Client : M unit := fun s =>
  if envTruthy "AWS_ACCESS_KEY_ID" s && envTruthy "AWS_SECRET_ACCESS_KEY" s
     && envTruthy "AWS_ENDPOINT_URL" s && envTruthy "DATA_BUCKET_NAME" s
  then (s, Ok tt)
  else (s, Throw "Missing AWS credentials in environment").

(** Responses: the status code and the payload, which is JSON but for the
    last two, a plain text and the bytes of a file. *)
Inductive Payload : Type :=
| ErrorPayload (error : string)
| PathPayload (path : string)
| RestorePayload (restored_from restored_to : string) (size : Z) (note : string)
| BackupStartedPayload (id directory : string) (status : BackupJob.Status) (startedAt : Z)
| BackupExistingPayload (id directory : string) (status : BackupJob.Status)
    (startedAt : Z) (completedAt : option Z)
| InstallStartedPayload (id : string) (status : ModpackJob.Status)
| BackupPayload (backup_path : string) (size : Z) (note : string)
| NotFoundPayload (id : string)
| BackupStatusPayload (job : BackupJob.t)
| ModpackJobPayload (job : ModpackJob.t)
| TextPayload (text : string)
| BytesPayload (data : list byte).

Record Response : Type := mkResponse {
  statusCode : Z;
  payload : Payload
}.

Definition jsonResponse (p : Payload) (status : Z) : Response := mkResponse status p.

(** [error?.message || fallback] *)
Definition messageOr (message fallback : string) : string :=
  if String.eqb message "" then fallback else message.

(* ===================================================================== *)
(** ** Maintenance mode and the file-system gateway                       *)
(* ===================================================================== *)

Definition isMaintenanceModeEnabled (s : Server) : bool :=
  String.eqb (toLowerCase (default "" (env s !! "MAINTENANCE_MODE"))) "true".

Definition maintenanceMessage : string :=
  "Maintenance mode must be enabled before installing a modpack. Stop the server and enter maintenance mode from the Mineflare dashboard.".

Definition ensureMaintenanceModeEnabled : M unit := fun s =>
  if negb (isMaintenanceModeEnabled s) then (s, Throw maintenanceMessage)
  else (s, Ok tt).

(** [mkdir(path, { recursive: true })]: the directory and its missing
    ancestors are created; it fails when one of them is a file. *)
Definition ancestorsAndSelf (path : string) : list string :=
  let segs := pathSegments path in
  (fun k => renderPath (take k segs)) <$> seq 1 (length segs).

Definition fsMkdirRecursive (path : string) (fs : FileSystem) : Result FileSystem :=
  if existsb (fun d => match fs !! d with Some (FsFile _) => true | _ => false end)
             (ancestorsAndSelf path)
  then Throw ("EEXIST: file already exists, mkdir '" +:+ path +:+ "'")
  else Ok (foldr (fun d acc => <[d := FsDir]> acc) fs (ancestorsAndSelf path)).

(** [Bun.write(path, data)] through the gateway: it fails on a directory. *)
Definition fsWriteFile (path : string) (data : list byte) (fs : FileSystem)
  : Result FileSystem :=
  match fs !! path with
  | Some FsDir => Throw ("EISDIR: illegal operation on a directory, open '" +:+ path +:+ "'")
  | _ => Ok (fsWrite path data fs)
  end.

(** [rm(path, { recursive: true, force: true })]: the entry and all
    below it go; nothing to remove is not an error. *)
Definition inSubtree (path entry : string) : bool :=
  String.eqb entry path || startsWith entry (path +:+ "/").

Definition fsRmRecursive (path : string) (fs : FileSystem) : FileSystem :=
  filter (fun kv : string * FsNode => inSubtree path kv.1 = false) fs.

(** Apply a file-system operation to the server's files. *)
Definition fsOp (op : FileSystem -> Result FileSystem) : M unit := fun s =>
  match op (files s) with
  | Ok fs' => (setFiles fs' s, Ok tt)
  | Throw message => (s, Throw message)
  end.

Definition handleWriteFile (rawPath : option string) (buffer : list byte) : M Response :=
  tryCatch
    (_ ← ensureMaintenanceModeEnabled;
     s ← get;
     target ← liftResult (resolveManagedPath (managedRoots s) rawPath false);
     _ ← fsOp (fsMkdirRecursive (posixDirname (absolute target)));
     _ ← fsOp (fsWriteFile (absolute target) buffer);
     mret (jsonResponse (PathPayload (absolute target)) 200))
    (fun error =>
       let message := messageOr error "Failed to write file" in
       mret (jsonResponse (ErrorPayload message) (writeErrorStatus message))).

Definition handleDeletePath (rawPath : option string) : M Response :=
  tryCatch
    (_ ← ensureMaintenanceModeEnabled;
     s ← get;
     target ← liftResult (resolveManagedPath (managedRoots s) rawPath false);
     _ ← modify (fun s => setFiles (fsRmRecursive (absolute target) (files s)) s);
     mret (jsonResponse (PathPayload (absolute target)) 200))
    (fun error =>
       let message := messageOr error "Failed to delete path" in
       mret (jsonResponse (ErrorPayload message) (writeErrorStatus message))).

(** [bodyPath] is [body?.path]: [None] when the body is not JSON or has
    no path. *)
Definition handleCreateDirectory (bodyPath : option string) : M Response :=
  tryCatch
    (_ ← ensureMaintenanceModeEnabled;
     match bodyPath with
     | Some rawPath =>
         if String.eqb rawPath "" || String.eqb (trim rawPath) "" then
           mret (jsonResponse (ErrorPayload "Directory path is required") 400)
         else
           s ← get;
           target ← liftResult (resolveManagedPath (managedRoots s) (Some rawPath) false);
           _ ← fsOp (fsMkdirRecursive (absolute target));
           mret (jsonResponse (PathPayload (absolute target)) 200)
     | None => mret (jsonResponse (ErrorPayload "Directory path is required") 400)
     end)
    (fun error =>
       let message := messageOr error "Failed to create directory" in
       mret (jsonResponse (ErrorPayload message) (writeErrorStatus message))).

(* ===================================================================== *)
(** ** Starting a package install                                         *)
(* ===================================================================== *)

Definition digitChar36 (d : Z) : ascii :=
  if d <? 10 then ascii_of_nat (48 + Z.to_nat d) else ascii_of_nat (87 + Z.to_nat d).

Fixpoint digits36 (fuel : nat) (n : Z) : string :=
  match fuel with
  | O => EmptyString
  | S fuel' =>
      if n <? 36 then String (digitChar36 n) EmptyString
      else digits36 fuel' (n / 36) +:+ String (digitChar36 (n mod 36)) EmptyString
  end.

(** [n.toString(36)] for a non-negative integer. *)
Definition toString36 (n : Z) : string := digits36 (S (Z.to_nat (Z.log2 n))) n.

Definition generateJobId (w : World) (source : ModpackJob.Source) : string :=
  ModpackJob.sourceName source +:+ "-" +:+ toString36 (now w) +:+ "-" +:+ random w.

(** The JSON body of an install request, field by field: [None] for a
    field that is missing or of the wrong type. *)
Record ModrinthInstallPayload : Type := mkModrinthPayload {
  url : option string;
  packVersion : option string
}.

Record CurseforgeInstallPayload : Type := mkCurseforgePayload {
  projectId : option Z;
  fileId : option Z
}.

(** The new job object, entered in the registry under its id. *)
Definition registerModpackJob (job : ModpackJob.t) : M nat := fun s =>
  let ref := length (modpackHeap s) in
  (setModpackJobs (<[ModpackJob.id job := ref]> (modpackJobs s))
     (setModpackHeap (modpackHeap s ++ [job]) s),
   Ok ref).

Definition detach (task : Detached) : M unit :=
  modify (fun s => setDetached (detached s ++ [task]) s).

(** The temporary directory of an install pipeline. *)
Definition installTempDir (source : ModpackJob.Source) (jobId : string) : string :=
  match source with
  | ModpackJob.modrinth => "/tmp/modpack-" +:+ jobId
  | ModpackJob.curseforge => "/tmp/curseforge-" +:+ jobId
  end.

(** Calling the pipeline runs it up to its first [await]: the [mkdir] of
    its temporary directory is started, and the rest is detached. *)
Definition startPipeline (job : ModpackJob.t) (task : Detached) : M unit :=
  _ ← emit (Spawn ["mkdir"; "-p";
                   installTempDir (ModpackJob.source job) (ModpackJob.id job)]);
  detach task.

Definition newModpackJob (w : World) (source : ModpackJob.Source) : ModpackJob.t :=
  ModpackJob.mk (generateJobId w source) source ModpackJob.pending (now w) (now w)
                (Some (ModpackJob.phaseOnly "queued")) None None.

(** [body] is [None] when the request body is not JSON. *)
Definition handleModrinthInstall (w : World) (body : option ModrinthInstallPayload)
  : M Response :=
  match body with
  | None => mret (jsonResponse (ErrorPayload "Invalid JSON body") 400)
  | Some payload =>
      let url := trim (default "" (url payload)) in
      let packVersion := trim <$> packVersion payload in
      if String.eqb url "" then
        mret (jsonResponse (ErrorPayload "Missing Modrinth pack URL") 400)
      else
        tryCatch
          (_ ← ensureMaintenanceModeEnabled;
           let job := newModpackJob w ModpackJob.modrinth in
           ref ← registerModpackJob job;
           _ ← startPipeline job (ModrinthTask ref url packVersion);
           mret (jsonResponse
                   (InstallStartedPayload (ModpackJob.id job) (ModpackJob.status job)) 200))
          (fun error =>
             mret (jsonResponse
                     (ErrorPayload (messageOr error "Maintenance mode is required")) 400))
  end.

Definition handleCurseforgeInstall (w : World) (body : option CurseforgeInstallPayload)
  : M Response :=
  match body with
  | None => mret (jsonResponse (ErrorPayload "Invalid JSON body") 400)
  | Some payload =>
      match projectId payload, fileId payload with
      | Some projectId, Some fileId =>
          tryCatch
            (_ ← ensureMaintenanceModeEnabled;
             s ← get;
             if negb (envTruthy "CURSEFORGE_API_KEY" s) then
               mret (jsonResponse
                       (ErrorPayload "CURSEFORGE_API_KEY is not configured on the container")
                       400)
             else
               let job := newModpackJob w ModpackJob.curseforge in
               ref ← registerModpackJob job;
               _ ← startPipeline job (CurseforgeTask ref projectId fileId);
               mret (jsonResponse
                       (InstallStartedPayload (ModpackJob.id job) (ModpackJob.status job))
                       200))
            (fun error =>
               mret (jsonResponse
                       (ErrorPayload (messageOr error "Maintenance mode is required")) 400))
      | _, _ =>
          mret (jsonResponse
                  (ErrorPayload "projectId and fileId are required numeric values") 400)
      end
  end.

(** The mutating operations of the gateway and the install triggers, as
    one request type. *)
Inductive MutatingRequest : Type :=
| WriteFile (rawPath : option string) (buffer : list byte)
| DeletePath (rawPath : option string)
| CreateDirectory (bodyPath : option string)
| InstallModrinth (body : option ModrinthInstallPayload)
| InstallCurseforge (body : option CurseforgeInstallPayload).

Definition handleMutating (w : World) (req : MutatingRequest) : M Response :=
  match req with
  | WriteFile rawPath buffer => handleWriteFile rawPath buffer
  | DeletePath rawPath => handleDeletePath rawPath
  | CreateDirectory bodyPath => handleCreateDirectory bodyPath
  | InstallModrinth body => handleModrinthInstall w body
  | InstallCurseforge body => handleCurseforgeInstall w body
  end.

(** An install request whose body passes the handler's validation. *)
Definition wellFormed (req : MutatingRequest) : bool :=
  match req with
  | InstallModrinth (Some payload) => negb (String.eqb (trim (default "" (url payload))) "")
  | InstallModrinth None => false
  | InstallCurseforge (Some payload) =>
      match projectId payload, fileId payload with
      | Some _, Some _ => true
      | _, _ => false
      end
  | InstallCurseforge None => false
  | _ => true
  end.

(** The server once a new install job is registered and its pipeline
    detached. *)
Definition withInstallJob (job : ModpackJob.t) (task : nat -> Detached) (s : Server) : Server :=
  let ref := length (modpackHeap s) in
  setDetached (detached s ++ [task ref])
    (setTrace (trace s ++ [Spawn ["mkdir"; "-p";
                                  installTempDir (ModpackJob.source job) (ModpackJob.id job)]])
       (setModpackJobs (<[ModpackJob.id job := ref]> (modpackJobs s))
          (setModpackHeap (modpackHeap s ++ [job]) s))).

(* ===================================================================== *)
(** ** Restore                                                            *)
(* ===================================================================== *)

Definition getUTCMinutes (d : Date) : Z := (d mod msPerHour) / 60000.
Definition getUTCSeconds (d : Date) : Z := (d mod 60000) / 1000.

(** [new Date().toISOString().replace(/[-:]/g, "").replace(/\..+/, "")
      .replace("T", "_")]: [YYYYMMDD_HHMMSS]. *)
Definition compactTimestamp (d : Date) : string :=
  padStart 4 "0"%char (numberToString (getUTCFullYear d))
  +:+ padStart 2 "0"%char (numberToString (getUTCMonth d + 1))
  +:+ padStart 2 "0"%char (numberToString (getUTCDate d))
  +:+ "_"
  +:+ padStart 2 "0"%char (numberToString (getUTCHours d))
  +:+ padStart 2 "0"%char (numberToString (getUTCMinutes d))
  +:+ padStart 2 "0"%char (numberToString (getUTCSeconds d)).

(** [pathname.startsWith("/") ? pathname : "/" + pathname] *)
Definition normalizeDirectory (pathname : string) : string :=
  if startsWith pathname "/" then pathname else "/" +:+ pathname.

(** [directory.substring(0, directory.lastIndexOf("/")) || "/"] *)
Definition parentDirectory (directory : string) : string :=
  let before := joinWith "/" (removelast (splitOn slash directory)) in
  if String.eqb before "" then "/" else before.

(** [directory.split("/").filter(Boolean).pop() || "backup"] *)
Definition directoryName (directory : string) : string :=
  let name := List.last (List.filter (fun p => negb (String.eqb p ""))
                           (splitOn slash directory)) "" in
  if String.eqb name "" then "backup" else name.

(** Run the transfer engine on the server's files, recording its
    effects. *)
Definition engine {A} (f : FileSystem -> list Event * FileSystem * Result A) : M A :=
  fun s =>
    let '(evs, fs', r) := f (files s) in
    (setTrace (trace s ++ (EngineEvent <$> evs)) (setFiles fs' s), r).

Definition credentialsSet (s : Server) : bool :=
  envTruthy "AWS_ACCESS_KEY_ID" s && envTruthy "AWS_SECRET_ACCESS_KEY" s
  && envTruthy "AWS_ENDPOINT_URL" s && envTruthy "DATA_BUCKET_NAME" s.

(** The validation of the backup file name. *)
Definition invalidBackupFilename (backupFilename : string) : bool :=
  includes backupFilename ".." || negb (startsWith backupFilename "backups/").

(** The download step of [handleRestore]: multipart for a large object,
    one fetch otherwise. *)
Definition downloadBackup (w : World) (backupFilename tempFile : string) (fileSize : Z)
  : M unit :=
  if LARGE_FILE_THRESHOLD <=? fileSize then
    engine (downloadLargeFile (rangeNet w backupFilename) tempFile fileSize)
  else
    _ ← emit (ObjectGet backupFilename);
    fileData ← liftResult (getObject w backupFilename);
    modify (fun s => setFiles (fsWrite tempFile fileData (files s)) s).

Definition extractArgv (tempFile parentDir : string) : list string :=
  ["tar"; "-xzf"; tempFile; "-C"; parentDir; "--overwrite";
   "--no-same-permissions"; "--no-same-owner"; "--touch"].

(** What follows the download: the size check, the extraction, the
    clean-up and the result. *)
Definition extractBackup (w : World) (backupFilename directory tempFile : string)
    (fileSize : Z) : M Response :=
  s ← get;
  let downloadedSize := fsSize tempFile (files s) in
  _ ← (if negb (downloadedSize =? fileSize)
       then emit (DownloadedSizeMismatch downloadedSize fileSize)
       else mret tt);
  let parentDir := parentDirectory directory in
  _ ← ensureDirectory w parentDir;
  tarExit ← spawn w (extractArgv tempFile parentDir);
  if negb (tarExit =? 0) then
    throw ("tar extraction failed with exit code " +:+ numberToString tarExit +:+ ": "
           +:+ procStderr w (extractArgv tempFile parentDir))
  else
    _ ← modify (fun s => setFiles (unlink tempFile (files s)) s);
    mret (jsonResponse
            (RestorePayload backupFilename directory downloadedSize "complete restore")
            200).

Definition handleRestore (w : World) (pathname backupFilename : string) : M Response :=
  _ ← modify (fun s => setActiveRestores (activeRestores s + 1)
                         (setRestoreCount (restoreCount s + 1) s));
  tryFinally
    (tryCatch
       (let directory := normalizeDirectory pathname in
        _ ← createS3Client;
        if invalidBackupFilename backupFilename then
          mret (jsonResponse (ErrorPayload "Invalid backup filename") 400)
        else
          _ ← emit (HeadRequest backupFilename);
          match headObject w backupFilename with
          | FetchRejected message => throw message
          | FetchResponse status _ _ =>
              if negb (responseOk status) then
                mret (jsonResponse
                        (ErrorPayload ("Backup not found: " +:+ backupFilename)) 404)
              else
                let fileSize := default 0 (contentLength w backupFilename) in
                let tempFile := "/tmp/restore_" +:+ compactTimestamp (now w) +:+ ".tar.gz" in
                _ ← downloadBackup w backupFilename tempFile fileSize;
                extractBackup w backupFilename directory tempFile fileSize
          end)
       (fun error =>
          mret (jsonResponse (ErrorPayload ("Restore failed: " +:+ error)) 500)))
    (fun s => setActiveRestores (activeRestores s - 1) s).

(** The server as [handleRestore] finds it after counting the request. *)
Definition restoreEntered (s : Server) : Server :=
  setActiveRestores (activeRestores s + 1) (setRestoreCount (restoreCount s + 1) s).

(* ===================================================================== *)
(** ** Backups                                                            *)
(* ===================================================================== *)

Definition archiveArgv (tempFile directory : string) : list string :=
  ["tar"; "-czf"; tempFile; "--exclude=./logs"; "--exclude=./cache"; "-C";
   parentDirectory directory; directoryName directory].

(** [stderr || stdout || 'no error output'] *)
Definition tarFailureMessage (w : World) (argv : list string) : string :=
  "tar command failed with exit code " +:+ numberToString (procExit w argv) +:+ ": "
  +:+ messageOr (procStderr w argv) (messageOr (procStdout w argv) "no error output").

(** The archive [tar] has left at [path], if it is there: [stat] and the
    upload need the file. *)
Definition archiveOf (path : string) (fs : FileSystem) : option (list byte) :=
  match fs !! path with
  | Some (FsFile data) => Some data
  | _ => None
  end.

(** [await Bun.file(path).stat()] on what is not a file there. *)
Definition statFailure (path : string) : string :=
  "ENOENT: no such file or directory, stat '" +:+ path +:+ "'".

(** [try { await Bun.write(tempFile, ""); await unlink(tempFile) } catch {}] *)
Definition discardTempFile (tempFile : string) : M unit :=
  modify (fun s => setFiles (unlink tempFile (fsWrite tempFile [] (files s))) s).

(** Assignments to the fields of the job object [ref]. *)
Definition updateBackupJob (ref : nat) (f : BackupJob.t -> BackupJob.t) : M unit :=
  modify (fun s => setBackupHeap (alter f ref (backupHeap s)) s).

Definition setBackupStatus (ref : nat) (status : BackupJob.Status) : M unit :=
  _ ← updateBackupJob ref (BackupJob.withStatus status);
  emit (BackupStatusSet ref status).

(** [this.backupJobs.set(id, job)] *)
Definition storeBackupJob (id : string) (ref : nat) : M unit :=
  modify (fun s => setBackupJobs (<[id := ref]> (backupJobs s)) s).

(** The [catch] block of [executeBackupJob]. *)
Definition failBackupJob (w : World) (ref : nat) (id error : string) : M unit :=
  _ ← setBackupStatus ref BackupJob.failed;
  _ ← updateBackupJob ref (BackupJob.withCompletedAt (now w));
  _ ← updateBackupJob ref (BackupJob.withError ("Backup failed: " +:+ messageOr error "Error"));
  storeBackupJob id ref.

(** [executeBackupJob(job)] up to its first [await]: this much runs
    inside the call, before the caller goes on.  The job is marked
    running, the client is made, the key and the temporary file are named
    and [tar] is started; the rest waits for [tar].  Without credentials
    the [catch] block runs at once and nothing is left waiting. *)
Definition executeBackupJobStart (w : World) (ref : nat) (id directory : string) : M unit :=
  tryCatch
    (_ ← setBackupStatus ref BackupJob.running;
     _ ← storeBackupJob id ref;
     _ ← createS3Client;
     let backupFilename := generateBackupKey (directoryName directory) (now w) in
     let tempFile :=
       "/tmp/backup_" +:+ formatUTCDateYYYYMMDDHH (now w) +:+ "_" +:+ id +:+ ".tar.gz" in
     let argv := archiveArgv tempFile directory in
     _ ← emit (Spawn argv);
     detach (BackupTask ref backupFilename tempFile argv))
    (fun error => failBackupJob w ref id error).

(** [executeBackupJob(job)] from the moment [tar] has exited. *)
Definition executeBackupJobResume (w : World) (ref : nat) (id : string)
    (backupFilename tempFile : string) (argv : list string) : M unit :=
  tryCatch
    (_ ← modify (fun s => setFiles (procEffect w argv (files s)) s);
     if negb (procExit w argv =? 0) then throw (tarFailureMessage w argv)
     else
       s ← get;
       match archiveOf tempFile (files s) with
       | None => throw (statFailure tempFile)
       | Some archive =>
           let fileSize := Z.of_nat (length archive) in
           _ ← emit (ObjectPut backupFilename);
           _ ← liftResult (putObject w backupFilename archive);
           _ ← discardTempFile tempFile;
           _ ← setBackupStatus ref BackupJob.success;
           _ ← updateBackupJob ref (BackupJob.withCompletedAt (now w));
           _ ← updateBackupJob ref
                 (BackupJob.withResult
                    (BackupJob.mkOutcome backupFilename fileSize "complete backup"));
           storeBackupJob id ref
       end)
    (fun error => failBackupJob w ref id error).

(** Run a detached backup to its end; [id] is read off the job object. *)
Definition resumeBackup (w : World) (ref : nat) (backupFilename tempFile : string)
    (argv : list string) : M unit :=
  s ← get;
  match backupHeap s !! ref with
  | Some job =>
      executeBackupJobResume w ref (BackupJob.id job) backupFilename tempFile argv
  | None => mret tt
  end.

(** The job object behind an id. *)
Definition lookupBackupJob (id : string) (s : Server) : option BackupJob.t :=
  ref ← backupJobs s !! id; backupHeap s !! ref.

Definition registerBackupJob (job : BackupJob.t) : M nat := fun s =>
  let ref := length (backupHeap s) in
  (setBackupJobs (<[BackupJob.id job := ref]> (backupJobs s))
     (setBackupHeap (backupHeap s ++ [job]) s),
   Ok ref).

Definition handleBackgroundBackupStart (w : World) (pathname id : string) : M Response :=
  let directory := normalizeDirectory pathname in
  s ← get;
  match lookupBackupJob id s with
  | Some existing =>
      mret (jsonResponse
              (BackupExistingPayload (BackupJob.id existing) (BackupJob.directory existing)
                 (BackupJob.status existing) (BackupJob.startedAt existing)
                 (BackupJob.completedAt existing))
              200)
  | None =>
      let job := BackupJob.mk id directory BackupJob.pending (now w) None None None in
      ref ← registerBackupJob job;
      _ ← modify (fun s => setBackupCount (backupCount s + 1) s);
      _ ← executeBackupJobStart w ref id directory;
      s' ← get;
      let job' := default job (backupHeap s' !! ref) in
      mret (jsonResponse
              (BackupStartedPayload id directory (BackupJob.status job')
                 (BackupJob.startedAt job'))
              200)
  end.

(** The [/backup-status] branch of [handleRequest]. *)
Definition handleBackupStatus (idParam : option string) : M Response :=
  match idParam with
  | Some id =>
      if String.eqb id "" then mret (jsonResponse (ErrorPayload "Missing id") 400)
      else
        s ← get;
        match lookupBackupJob id s with
        | None => mret (jsonResponse (NotFoundPayload id) 200)
        | Some job => mret (jsonResponse (BackupStatusPayload job) 200)
        end
  | None => mret (jsonResponse (ErrorPayload "Missing id") 400)
  end.

(** [handleBackup]: the backup made while the request waits. *)
Definition handleBackup (w : World) (pathname : string) : M Response :=
  _ ← modify (fun s => setBackupCount (backupCount s + 1) s);
  tryCatch
    (let directory := normalizeDirectory pathname in
     _ ← createS3Client;
     let backupFilename := generateBackupKey (directoryName directory) (now w) in
     let tempFile := "/tmp/backup_" +:+ formatUTCDateYYYYMMDDHH (now w) +:+ ".tar.gz" in
     let argv := archiveArgv tempFile directory in
     tarExit ← spawn w argv;
     if negb (tarExit =? 0) then throw (tarFailureMessage w argv)
     else
       s ← get;
       match archiveOf tempFile (files s) with
       | None => throw (statFailure tempFile)
       | Some archive =>
           let fileSize := Z.of_nat (length archive) in
           _ ← emit (ObjectPut backupFilename);
           _ ← liftResult (putObject w backupFilename archive);
           _ ← discardTempFile tempFile;
           mret (jsonResponse (BackupPayload backupFilename fileSize "complete backup") 200)
       end)
    (fun error =>
       mret (jsonResponse (ErrorPayload ("Backup failed: " +:+ error)) 500)).

(** [handleModpackStatus] *)
Definition handleModpackStatus (id : string) : M Response :=
  s ← get;
  match ref ← modpackJobs s !! id; modpackHeap s !! ref with
  | None => mret (jsonResponse (NotFoundPayload id) 404)
  | Some job => mret (jsonResponse (ModpackJobPayload job) 200)
  end.

(** The statuses assigned to the backup job object [ref], in order. *)
Definition backupStatusesOf (ref : nat) (effects : list Effect) : list BackupJob.Status :=
  omap (fun e => match e with
                 | BackupStatusSet r status => if Nat.eqb r ref then Some status else None
                 | _ => None
                 end) effects.

(** [follows R a l]: starting from [a], each element of [l] is reached
    from the one before by a step of [R]. *)
Inductive follows {A : Type} (R : A -> A -> Prop) : A -> list A -> Prop :=
| follows_nil (a : A) : follows R a []
| follows_cons (a b : A) (l : list A) : R a b -> follows R b l -> follows R a (b :: l).

(** Run detached backup work to its end, one task after the other. *)
Fixpoint runBackupTasks (w : World) (tasks : list Detached) : M unit :=
  match tasks with
  | [] => mret tt
  | BackupTask ref backupFilename tempFile argv :: tasks' =>
      _ ← resumeBackup w ref backupFilename tempFile argv;
      runBackupTasks w tasks'
  | _ :: tasks' => runBackupTasks w tasks'
  end.

(** The server once a fresh backup job has been registered, counted and
    marked running. *)
Definition backupAccepted (w : World) (directory id : string) (s : Server) : Server :=
  setTrace (trace s ++ [BackupStatusSet (length (backupHeap s)) BackupJob.running])
    (setBackupCount (backupCount s + 1)
       (setBackupJobs (<[id := length (backupHeap s)]> (backupJobs s))
          (setBackupHeap
             (backupHeap s
              ++ [BackupJob.mk id directory BackupJob.running (now w) None None None])
             s))).

(** [s.endsWith(suffix)] *)
Fixpoint endsWith (s suffix : string) : bool :=
  String.eqb s suffix ||
  match s with
  | EmptyString => false
  | String _ s' => endsWith s' suffix
  end.

(** The test of the loop of [handleListBackups]: an object is listed for
    a directory when its key ends with [_<dirName>.tar.gz]. *)
Definition listedFor (dirName key : string) : bool :=
  endsWith key ("_" +:+ dirName +:+ ".tar.gz").

(** Proof device: a string with a full stop in it. *)
Fixpoint hasDot (s : string) : bool :=
  match s with
  | EmptyString => false
  | String c s' => Ascii.eqb c "."%char || hasDot s'
  end.

(* ===================================================================== *)
(** ** Installing a package                                               *)
(* ===================================================================== *)

Definition hexDigit (d : N) : ascii :=
  if (d <? 10)%N then ascii_of_N (48 + d) else ascii_of_N (87 + d).

(** [byte.toString(16)] *)
Definition byteToString16 (b : byte) : string :=
  let n := Byte.to_N b in
  if (n <? 16)%N then String (hexDigit n) EmptyString
  else String (hexDigit (n / 16)) (String (hexDigit (n mod 16)) EmptyString).

Definition bufferToHex (buffer : list byte) : string :=
  joinWith "" ((fun b => padStart 2 "0"%char (byteToString16 b)) <$> buffer).

(** One of the two blocks of [verifyHash]: the hash under [key], when
    there is one and it is not empty, must be the digest in hex. *)
Definition checkHash (w : World) (buffer : list byte) (hashes : gmap string string)
    (key algorithm label : string) : Result unit :=
  match hashes !! key with
  | Some expected =>
      if String.eqb expected "" then Ok tt
      else if String.eqb (bufferToHex (digest w algorithm buffer)) (toLowerCase expected)
           then Ok tt
           else Throw (algorithm +:+ " mismatch for " +:+ label)
  | None => Ok tt
  end.

Definition verifyHash (w : World) (buffer : list byte) (hashes : option (gmap string string))
    (label : string) : Result unit :=
  match hashes with
  | None => Ok tt
  | Some hashes =>
      match checkHash w buffer hashes "sha1" "SHA-1" label with
      | Ok _ => checkHash w buffer hashes "sha512" "SHA-512" label
      | Throw message => Throw message
      end
  end.

(** [s.replace(/^\/+/g, '')] *)
Fixpoint stripLeadingSlashes (s : string) : string :=
  match s with
  | EmptyString => EmptyString
  | String c s' => if Ascii.eqb c slash then stripLeadingSlashes s' else s
  end.

Definition sanitizeRelativePath (relPath : string) : Result string :=
  let normalized := stripLeadingSlashes (posixNormalize relPath) in
  if String.eqb normalized "" || startsWith normalized ".." then
    Throw ("Unsafe path in manifest: " +:+ relPath)
  else Ok normalized.

(** [s.replace(/\\/g, '/')] *)
Fixpoint replaceBackslashes (s : string) : string :=
  match s with
  | EmptyString => EmptyString
  | String c s' =>
      String (if Ascii.eqb c (ascii_of_nat 92) then slash else c) (replaceBackslashes s')
  end.

(** [value || fallback] for an optional string. *)
Definition stringOr (value : option string) (fallback : string) : string :=
  match value with
  | Some v => if String.eqb v "" then fallback else v
  | None => fallback
  end.

(** A string that is there and not empty. *)
Definition truthy (value : option string) : bool :=
  match value with
  | Some v => negb (String.eqb v "")
  | None => false
  end.

Module Modrinth.

(** An entry of [manifest.files]: [serverEnv] is [env?.server]. *)
Record FileEntry : Type := mkFile {
  path : option string;
  downloads : list string;
  hashes : option (gmap string string);
  serverEnv : option string
}.

Record Manifest : Type := mkManifest {
  name : option string;
  dependencies : option (gmap string string);
  files : list FileEntry;
  overrides : option string
}.

(** What [resolveModrinthDownload] returns. *)
Record Resolution : Type := mkResolution {
  downloadUrl : string;
  packName : string;
  projectId : option string;
  versionId : option string
}.

End Modrinth.

Module Curseforge.

Record ModLoader : Type := mkModLoader {
  id : string;
  primary : bool
}.

(** An entry of [manifest.files]; [required] is [Some false] when the
    field is the boolean [false]. *)
Record FileRef : Type := mkFileRef {
  projectID : Z;
  fileID : Z;
  required : option bool
}.

(** [modLoaders] is [manifest.minecraft?.modLoaders || []] and
    [minecraftVersion] is [manifest.minecraft?.version]. *)
Record Manifest : Type := mkManifest {
  overrides : option string;
  minecraftVersion : option string;
  modLoaders : list ModLoader;
  files : list FileRef
}.

(** The [data] of the API's answer about a file. *)
Record FileData : Type := mkFileData {
  downloadUrl : option string;
  displayName : option string;
  fileName : option string
}.

Record PackInfo : Type := mkPackInfo {
  packName : option string;
  packFileName : option string;
  packFileId : Z;
  packDownloadUrl : string
}.

End Curseforge.

(** The package hosts and the parsing of what they send: the answers of
    the Modrinth API to [resolveModrinthDownload], the [data] of the
    CurseForge API's answer about a file ([Throw] for an answer that is
    not 2xx or not JSON), and [JSON.parse] on the two manifests. *)
Record Upstream : Type := mkUpstream {
  resolveModrinthDownload : string -> option string -> Result Modrinth.Resolution;
  parseModrinthManifest : list byte -> Result Modrinth.Manifest;
  curseforgeFile : Z -> Z -> Result (option Curseforge.FileData);
  parseCurseforgeManifest : list byte -> Result Curseforge.Manifest
}.

Definition PROFILE_HINTS : list (string * ModpackJob.Loader * string) :=
  [("paper-1-21-10", ModpackJob.PAPER, "1.21.10");
   ("paper-1-21-8", ModpackJob.PAPER, "1.21.8");
   ("paper-1-21-7", ModpackJob.PAPER, "1.21.7");
   ("paper-1-20-6", ModpackJob.PAPER, "1.20.6");
   ("paper-1-19-4", ModpackJob.PAPER, "1.19.4");
   ("forge-1-20-1", ModpackJob.FORGE, "1.20.1");
   ("forge-1-19-2", ModpackJob.FORGE, "1.19.2");
   ("forge-1-18-2", ModpackJob.FORGE, "1.18.2");
   ("forge-1-16-5", ModpackJob.FORGE, "1.16.5");
   ("neoforge-1-21-1", ModpackJob.NEOFORGE, "1.21.1");
   ("neoforge-1-20-4", ModpackJob.NEOFORGE, "1.20.4");
   ("neoforge-1-20-1", ModpackJob.NEOFORGE, "1.20.1");
   ("fabric-1-21-1", ModpackJob.FABRIC, "1.21.1");
   ("fabric-1-20-1", ModpackJob.FABRIC, "1.20.1");
   ("fabric-1-19-2", ModpackJob.FABRIC, "1.19.2");
   ("fabric-1-18-2", ModpackJob.FABRIC, "1.18.2")].

Definition loaderEqb (a b : ModpackJob.Loader) : bool :=
  match a, b with
  | ModpackJob.PAPER, ModpackJob.PAPER
  | ModpackJob.FORGE, ModpackJob.FORGE
  | ModpackJob.FABRIC, ModpackJob.FABRIC
  | ModpackJob.NEOFORGE, ModpackJob.NEOFORGE => true
  | _, _ => false
  end.

Definition recommendProfile (loader : option ModpackJob.Loader)
    (minecraftVersion : option string) : option string :=
  match loader, minecraftVersion with
  | Some loader, Some version =>
      if String.eqb version "" then None
      else
        (fun profile : string * ModpackJob.Loader * string => profile.1.1)
          <$> List.find (fun profile : string * ModpackJob.Loader * string =>
                           loaderEqb profile.1.2 loader && String.eqb profile.2 version)
                        PROFILE_HINTS
  | _, _ => None
  end.

(** What the two install loops return. *)
Record InstallInfo : Type := mkInstallInfo {
  installedCount : Z;
  infoLoader : option ModpackJob.Loader;
  infoMinecraftVersion : option string
}.

Definition extractLoaderInfo (dependencies : option (gmap string string))
  : option ModpackJob.Loader * option string :=
  match dependencies with
  | None => (None, None)
  | Some dependencies =>
      if truthy (dependencies !! "neoforge") then
        (Some ModpackJob.NEOFORGE, dependencies !! "minecraft")
      else if truthy (dependencies !! "forge") then
        (Some ModpackJob.FORGE, dependencies !! "minecraft")
      else if truthy (dependencies !! "fabric-loader")
              || truthy (dependencies !! "quilt-loader") then
        (Some ModpackJob.FABRIC, dependencies !! "minecraft")
      else (None, dependencies !! "minecraft")
  end.

Definition determineLoaderFromModLoaders (modLoaders : list Curseforge.ModLoader)
  : option ModpackJob.Loader :=
  match modLoaders with
  | [] => None
  | first :: _ =>
      let loaderEntry := default first (List.find Curseforge.primary modLoaders) in
      let id := toLowerCase (Curseforge.id loaderEntry) in
      if includes id "neoforge" then Some ModpackJob.NEOFORGE
      else if includes id "forge" then Some ModpackJob.FORGE
      else if includes id "fabric" then Some ModpackJob.FABRIC
      else None
  end.

(** Assignments to the fields of the install job object [ref]. *)
Definition updateModpackJob (ref : nat) (f : ModpackJob.t -> ModpackJob.t) : M unit :=
  modify (fun s => setModpackHeap (alter f ref (modpackHeap s)) s).

Definition setModpackStatus (ref : nat) (status : ModpackJob.Status) : M unit :=
  _ ← updateModpackJob ref (ModpackJob.withStatus status);
  emit (ModpackStatusSet ref status).

(** [job.progress = progress; job.updatedAt = Date.now()] *)
Definition setProgress (w : World) (ref : nat) (progress : ModpackJob.Progress) : M unit :=
  _ ← updateModpackJob ref (ModpackJob.withProgress progress);
  updateModpackJob ref (ModpackJob.withUpdatedAt (now w)).

Definition downloadFileToPath (w : World) (address destination : string) (job : option nat)
  : M (list byte) :=
  _ ← emit (HttpGet address);
  match httpGet w address with
  | FetchRejected message => throw message
  | FetchResponse status statusText body =>
      if negb (responseOk status) then
        throw ("Failed to download " +:+ address +:+ " (" +:+ numberToString status
               +:+ " " +:+ statusText +:+ ")")
      else
        match body with
        | BodyError message => throw message
        | BodyBytes buffer =>
            _ ← ensureDirectory w (posixDirname destination);
            _ ← fsOp (fsWriteFile destination buffer);
            _ ← match job with
                | Some ref => updateModpackJob ref (ModpackJob.withUpdatedAt (now w))
                | None => mret tt
                end;
            mret buffer
        end
  end.

Definition extractArchive (w : World) (archivePath destination : string) : M unit :=
  let argv := ["unzip"; "-o"; archivePath; "-d"; destination] in
  exitCode ← spawn w argv;
  if negb (exitCode =? 0) then throw ("Failed to extract archive: " +:+ procStderr w argv)
  else mret tt.

Definition loadModrinthManifest (up : Upstream) (manifestPath : string)
  : M Modrinth.Manifest := fun s =>
  match files s !! manifestPath with
  | Some (FsFile contents) => (s, parseModrinthManifest up contents)
  | _ => (s, Throw "modrinth.index.json not found in archive")
  end.

Definition loadCurseforgeManifest (up : Upstream) (filePath : string)
  : M Curseforge.Manifest := fun s =>
  match files s !! filePath with
  | Some (FsFile contents) => (s, parseCurseforgeManifest up contents)
  | _ => (s, Throw "manifest.json not found in CurseForge archive")
  end.

(** The exit code of [rm -rf /data/mods/*] is not looked at. *)
Definition resetModsDirectory (w : World) : M unit :=
  let modsDir := "/data/mods" in
  _ ← ensureDirectory w modsDir;
  _ ← spawn w ["sh"; "-c"; "rm -rf " +:+ modsDir +:+ "/*"];
  ensureDirectory w modsDir.

Definition applyOverrides (w : World) (overridesPath : string) : M bool :=
  found ← pathExists w overridesPath;
  if negb found then mret false
  else
    let argv := ["cp"; "-a"; overridesPath +:+ "/."; "/data/"] in
    exitCode ← spawn w argv;
    if negb (exitCode =? 0) then throw ("Failed to copy overrides: " +:+ procStderr w argv)
    else mret true.

(** The [for] loop of [installModrinthFiles], from [index] on, with
    [installed] files so far. *)
Fixpoint installModrinthLoop (w : World) (ref : nat) (total index installed : Z)
    (entries : list Modrinth.FileEntry) : M Z :=
  match entries with
  | [] => mret installed
  | fileEntry :: rest =>
      if match Modrinth.serverEnv fileEntry with
         | Some v => String.eqb v "unsupported"
         | None => false
         end
      then installModrinthLoop w ref total (index + 1) installed rest
      else
        let normalizedInput :=
          replaceBackslashes
            (stringOr (Modrinth.path fileEntry)
                      ("mods/file-" +:+ numberToString index +:+ ".jar")) in
        relPath ← liftResult (sanitizeRelativePath normalizedInput);
        let destination := posixJoin "/data" relPath in
        let address := head (Modrinth.downloads fileEntry) in
        if negb (truthy address) then throw ("Missing download URL for " +:+ relPath)
        else
          _ ← setProgress w ref
                (ModpackJob.mkProgress "Installing mods" (Some relPath) (Some (index + 1))
                   (Some total) None);
          buffer ← downloadFileToPath w (default "" address) destination (Some ref);
          _ ← liftResult (verifyHash w buffer (Modrinth.hashes fileEntry) relPath);
          installModrinthLoop w ref total (index + 1) (installed + 1) rest
  end.

Definition installModrinthFiles (w : World) (ref : nat) (manifest : Modrinth.Manifest)
  : M InstallInfo :=
  let entries := Modrinth.files manifest in
  let total := Z.of_nat (length entries) in
  let loaderInfo := extractLoaderInfo (Modrinth.dependencies manifest) in
  installed ← installModrinthLoop w ref total 0 0 entries;
  mret (mkInstallInfo installed loaderInfo.1 loaderInfo.2).

(** [curseforgeRequest('/mods/<projectId>/files/<fileId>')] and the
    [data] of its answer. *)
Definition curseforgeFileRequest (up : Upstream) (projectId fileId : Z)
  : M (option Curseforge.FileData) :=
  s ← get;
  if negb (envTruthy "CURSEFORGE_API_KEY" s) then
    throw "CURSEFORGE_API_KEY is not configured"
  else
    _ ← emit (HttpGet ("https://api.curseforge.com/v1/mods/" +:+ numberToString projectId
                       +:+ "/files/" +:+ numberToString fileId));
    liftResult (curseforgeFile up projectId fileId).

Definition fetchCurseforgePack (up : Upstream) (projectId fileId : Z)
  : M Curseforge.PackInfo :=
  fileData ← curseforgeFileRequest up projectId fileId;
  match fileData with
  | Some data =>
      if truthy (Curseforge.downloadUrl data) then
        mret (Curseforge.mkPackInfo
                (if truthy (Curseforge.displayName data) then Curseforge.displayName data
                 else Curseforge.fileName data)
                (Curseforge.fileName data) fileId
                (default "" (Curseforge.downloadUrl data)))
      else throw "CurseForge file metadata is missing a download URL"
  | None => throw "CurseForge file metadata is missing a download URL"
  end.

Definition fetchCurseforgeFile (up : Upstream) (projectId fileId : Z)
  : M (option Curseforge.FileData) :=
  curseforgeFileRequest up projectId fileId.

(** The [for] loop of [installCurseforgeFiles]. *)
Fixpoint installCurseforgeLoop (w : World) (up : Upstream) (ref : nat)
    (total index installed : Z) (entries : list Curseforge.FileRef) : M Z :=
  match entries with
  | [] => mret installed
  | entry :: rest =>
      if match Curseforge.required entry with Some false => true | _ => false end
      then installCurseforgeLoop w up ref total (index + 1) installed rest
      else
        let project := Curseforge.projectID entry in
        let file := Curseforge.fileID entry in
        _ ← setProgress w ref
              (ModpackJob.mkProgress "Installing mods"
                 (Some ("Project " +:+ numberToString project)) (Some (index + 1))
                 (Some total) None);
        fileData ← fetchCurseforgeFile up project file;
        match fileData with
        | Some data =>
            if truthy (Curseforge.downloadUrl data) then
              let targetName :=
                stringOr (Curseforge.fileName data)
                         (numberToString project +:+ "-" +:+ numberToString file +:+ ".jar") in
              let destination := posixJoin "/data/mods" targetName in
              _ ← downloadFileToPath w (default "" (Curseforge.downloadUrl data)) destination
                    (Some ref);
              installCurseforgeLoop w up ref total (index + 1) (installed + 1) rest
            else
              throw ("CurseForge file " +:+ numberToString project +:+ "/"
                     +:+ numberToString file +:+ " is missing a download URL")
        | None =>
            throw ("CurseForge file " +:+ numberToString project +:+ "/"
                   +:+ numberToString file +:+ " is missing a download URL")
        end
  end.

Definition installCurseforgeFiles (w : World) (up : Upstream) (ref : nat)
    (manifest : Curseforge.Manifest) : M InstallInfo :=
  let entries := Curseforge.files manifest in
  let total := Z.of_nat (length entries) in
  let loader := determineLoaderFromModLoaders (Curseforge.modLoaders manifest) in
  installed ← installCurseforgeLoop w up ref total 0 0 entries;
  mret (mkInstallInfo installed loader (Curseforge.minecraftVersion manifest)).

(** [await proc.exited] for a process started earlier. *)
Definition awaitExit (w : World) (argv : list string) : M Z :=
  _ ← modify (fun s => setFiles (procEffect w argv (files s)) s);
  mret (procExit w argv).

(** The [try] block of [processModrinthJob]. *)
Definition installModrinthPack (w : World) (up : Upstream) (ref : nat)
    (tempDir address : string) (version : option string) : M unit :=
  _ ← setModpackStatus ref ModpackJob.downloading;
  _ ← setProgress w ref (ModpackJob.phaseOnly "Resolving Modrinth metadata");
  resolution ← liftResult (resolveModrinthDownload up address version);
  let archivePath := posixJoin tempDir "pack.mrpack" in
  _ ← setProgress w ref
        (ModpackJob.phaseNote "Downloading pack archive" (Modrinth.packName resolution));
  _ ← downloadFileToPath w (Modrinth.downloadUrl resolution) archivePath (Some ref);
  _ ← setProgress w ref (ModpackJob.phaseOnly "Extracting pack archive");
  _ ← extractArchive w archivePath tempDir;
  let manifestPath := posixJoin tempDir "modrinth.index.json" in
  manifest ← loadModrinthManifest up manifestPath;
  _ ← setProgress w ref (ModpackJob.phaseOnly "Preparing filesystem for install");
  _ ← resetModsDirectory w;
  let overridesDirName := stringOr (Modrinth.overrides manifest) "overrides" in
  let overridesPath := posixJoin tempDir overridesDirName in
  overridesApplied ← applyOverrides w overridesPath;
  _ ← setModpackStatus ref ModpackJob.installing;
  _ ← updateModpackJob ref (ModpackJob.withUpdatedAt (now w));
  installInfo ← installModrinthFiles w ref manifest;
  _ ← setModpackStatus ref ModpackJob.completed;
  _ ← updateModpackJob ref
        (ModpackJob.withProgress
           (ModpackJob.phaseNote "completed" "Modpack installation finished"));
  _ ← updateModpackJob ref
        (ModpackJob.withResult
           (ModpackJob.mkOutcome (infoLoader installInfo) (infoMinecraftVersion installInfo)
              (recommendProfile (infoLoader installInfo) (infoMinecraftVersion installInfo))
              (Some (stringOr (Modrinth.name manifest) (Modrinth.packName resolution)))
              (installedCount installInfo) overridesApplied));
  updateModpackJob ref (ModpackJob.withUpdatedAt (now w)).

(** [processModrinthJob(job, payload)] from the moment the [mkdir] of its
    temporary directory has exited.  A failed [mkdir] throws before the
    [try]: nothing is cleaned up then. *)
Definition processModrinthJob (w : World) (up : Upstream) (ref : nat)
    (jobId address : string) (version : option string) : M unit :=
  let tempDir := installTempDir ModpackJob.modrinth jobId in
  exitCode ← awaitExit w ["mkdir"; "-p"; tempDir];
  if negb (exitCode =? 0) then
    throw ("Failed to create directory " +:+ tempDir +:+ ": "
           +:+ procStderr w ["mkdir"; "-p"; tempDir])
  else
    tryFinally (installModrinthPack w up ref tempDir address version)
               (fun s => (removePath w tempDir s).1).

(** The [try] block of [processCurseforgeJob].  [path.join] throws a
    [TypeError] on a file name that is not a string. *)
Definition installCurseforgePack (w : World) (up : Upstream) (ref : nat)
    (tempDir : string) (project file : Z) : M unit :=
  _ ← setModpackStatus ref ModpackJob.downloading;
  _ ← setProgress w ref (ModpackJob.phaseOnly "Resolving CurseForge metadata");
  packInfo ← fetchCurseforgePack up project file;
  match Curseforge.packFileName packInfo with
  | None => throw "The paths[1] argument must be of type string. Received undefined"
  | Some fileName =>
      let archivePath := posixJoin tempDir fileName in
      _ ← setProgress w ref
            (ModpackJob.mkProgress "Downloading pack archive" None None None
               (Curseforge.packName packInfo));
      _ ← downloadFileToPath w (Curseforge.packDownloadUrl packInfo) archivePath (Some ref);
      _ ← setProgress w ref (ModpackJob.phaseOnly "Extracting pack archive");
      _ ← extractArchive w archivePath tempDir;
      let manifestPath := posixJoin tempDir "manifest.json" in
      manifest ← loadCurseforgeManifest up manifestPath;
      _ ← setProgress w ref (ModpackJob.phaseOnly "Preparing filesystem for install");
      _ ← resetModsDirectory w;
      let overridesDir :=
        posixJoin tempDir (stringOr (Curseforge.overrides manifest) "overrides") in
      overridesApplied ← applyOverrides w overridesDir;
      _ ← setModpackStatus ref ModpackJob.installing;
      _ ← updateModpackJob ref (ModpackJob.withUpdatedAt (now w));
      installInfo ← installCurseforgeFiles w up ref manifest;
      _ ← setModpackStatus ref ModpackJob.completed;
      _ ← updateModpackJob ref
            (ModpackJob.withProgress
               (ModpackJob.phaseNote "completed" "Modpack installation finished"));
      _ ← updateModpackJob ref
            (ModpackJob.withResult
               (ModpackJob.mkOutcome (infoLoader installInfo)
                  (infoMinecraftVersion installInfo)
                  (recommendProfile (infoLoader installInfo)
                     (infoMinecraftVersion installInfo))
                  (Curseforge.packName packInfo)
                  (installedCount installInfo) overridesApplied));
      updateModpackJob ref (ModpackJob.withUpdatedAt (now w))
  end.

Definition processCurseforgeJob (w : World) (up : Upstream) (ref : nat)
    (jobId : string) (project file : Z) : M unit :=
  let tempDir := installTempDir ModpackJob.curseforge jobId in
  exitCode ← awaitExit w ["mkdir"; "-p"; tempDir];
  if negb (exitCode =? 0) then
    throw ("Failed to create directory " +:+ tempDir +:+ ": "
           +:+ procStderr w ["mkdir"; "-p"; tempDir])
  else
    tryFinally (installCurseforgePack w up ref tempDir project file)
               (fun s => (removePath w tempDir s).1).

(** The [.catch] the install handlers put on the pipeline. *)
Definition failModpackJob (w : World) (ref : nat) (error : string) : M unit :=
  _ ← setModpackStatus ref ModpackJob.failed;
  _ ← updateModpackJob ref (ModpackJob.withError error);
  _ ← updateModpackJob ref (ModpackJob.withProgress (ModpackJob.phaseNote "failed" error));
  updateModpackJob ref (ModpackJob.withUpdatedAt (now w)).

(** Run a detached install pipeline to its end, with its [.catch]. *)
Definition resumeInstall (w : World) (up : Upstream) (task : Detached) : M unit :=
  match task with
  | ModrinthTask ref address version =>
      s ← get;
      match modpackHeap s !! ref with
      | Some job =>
          tryCatch (processModrinthJob w up ref (ModpackJob.id job) address version)
                   (failModpackJob w ref)
      | None => mret tt
      end
  | CurseforgeTask ref project file =>
      s ← get;
      match modpackHeap s !! ref with
      | Some job =>
          tryCatch (processCurseforgeJob w up ref (ModpackJob.id job) project file)
                   (failModpackJob w ref)
      | None => mret tt
      end
  | BackupTask _ _ _ _ => mret tt
  end.

(** The statuses assigned to the install job object [ref], in order. *)
Definition modpackStatusesOf (ref : nat) (effects : list Effect) : list ModpackJob.Status :=
  omap (fun e => match e with
                 | ModpackStatusSet r status => if Nat.eqb r ref then Some status else None
                 | _ => None
                 end) effects.

(** Proof device: the byte two hex digits stand for. *)
Definition hexValue (c : ascii) : N :=
  let n := N_of_ascii c in
  if (n <? 58)%N then (n - 48)%N else (n - 87)%N.

Fixpoint hexToBuffer (s : string) : list byte :=
  match s with
  | String hi (String lo rest) =>
      default x00 (Byte.of_N (16 * hexValue hi + hexValue lo)) :: hexToBuffer rest
  | _ => []
  end.

(** The hashes [verifyHash] looks at. *)
Definition checkedAlgorithms : list (string * string) :=
  [("sha1", "SHA-1"); ("sha512", "SHA-512")].

(** The entries of a Modrinth manifest the install loop does not skip,
    and the path it gives the entry at [index]. *)
Definition unsupportedOnServer (fileEntry : Modrinth.FileEntry) : bool :=
  match Modrinth.serverEnv fileEntry with
  | Some v => String.eqb v "unsupported"
  | None => false
  end.

Definition entryPath (index : Z) (fileEntry : Modrinth.FileEntry) : string :=
  replaceBackslashes
    (stringOr (Modrinth.path fileEntry) ("mods/file-" +:+ numberToString index +:+ ".jar")).

(** Proof device: the shape of the stack of [normalizeString] when it may
    go above the root: proper segments on top of [".."] segments. *)
Definition aboveRootStack (stack : list string) : Prop :=
  exists (props : list string) (k : nat),
    stack = props ++ replicate k ".." /\ Forall properSegment props.

(** The install job a detached pipeline works on. *)
Definition installJobOf (task : Detached) : option nat :=
  match task with
  | ModrinthTask ref _ _ | CurseforgeTask ref _ _ => Some ref
  | BackupTask _ _ _ _ => None
  end.

(** The status of the install job object [ref]. *)
Definition modpackStatus (ref : nat) (s : Server) : option ModpackJob.Status :=
  ModpackJob.status <$> modpackHeap s !! ref.

(** Proof devices for following a job through a computation.
    [advances ref s s' chain]: from [s] to [s'] the trace has grown, the
    statuses assigned to the job object [ref] on the way are [chain], in
    order, and the status of the object is the last of them (the one it
    had, when there is none).  [yields ref m post]: [m] advances the
    server by a chain that, with the result, satisfies [post].
    [quiet ref m]: [m] assigns no status to [ref]. *)
Definition advances (ref : nat) (s s' : Server) (chain : list ModpackJob.Status) : Prop :=
  exists added,
    trace s' = trace s ++ added
    /\ modpackStatusesOf ref added = chain
    /\ modpackStatus ref s'
       = (fun before => default before (last chain)) <$> modpackStatus ref s.

Definition yields {A} (ref : nat) (m : M A)
    (post : Result A -> list ModpackJob.Status -> Prop) : Prop :=
  forall s, exists chain, advances ref s (m s).1 chain /\ post (m s).2 chain.

Definition quiet {A} (ref : nat) (m : M A) : Prop :=
  yields ref m (fun _ chain => chain = []).

(** The field updates that leave the status alone. *)
Definition keepsStatus (f : ModpackJob.t -> ModpackJob.t) : Prop :=
  forall j, ModpackJob.status (f j) = ModpackJob.status j.

(** How a pipeline's [try] block can end, and how the pipeline can. *)
Definition packInstalled (r : Result unit) (chain : list ModpackJob.Status) : Prop :=
  (r = Ok tt
   /\ chain = [ModpackJob.downloading; ModpackJob.installing; ModpackJob.completed])
  \/ ((exists message, r = Throw message)
      /\ (chain = [ModpackJob.downloading]
          \/ chain = [ModpackJob.downloading; ModpackJob.installing])).

(** The chains of statuses an install job can go through. *)
Definition installChains : list (list ModpackJob.Status) :=
  [[ModpackJob.downloading; ModpackJob.installing; ModpackJob.completed];
   [ModpackJob.downloading; ModpackJob.installing; ModpackJob.failed];
   [ModpackJob.downloading; ModpackJob.failed];
   [ModpackJob.failed]].

(** How a pipeline can end before its [.catch]: as its [try] block does,
    or with the failure to make the temporary directory. *)
Definition pipelineEnded (r : Result unit) (chain : list ModpackJob.Status) : Prop :=
  packInstalled r chain \/ ((exists message, r = Throw message) /\ chain = []).

(** The source a detached pipeline installs from. *)
Definition taskSource (task : Detached) : ModpackJob.Source :=
  match task with
  | CurseforgeTask _ _ _ => ModpackJob.curseforge
  | _ => ModpackJob.modrinth
  end.

(* ===================================================================== *)
(** ** Fixtures                                                           *)
(* ===================================================================== *)

(** A quiet world: everything is found and nothing fails. *)
Definition quietWorld : World :=
  mkWorld 1761998400123 "k3x9qa"
          (fun _ => FetchResponse 200 "OK" (BodyBytes []))
          (fun _ => Some 10)
          (fun _ => reliableStore tenBytes)
          (fun _ => Ok tenBytes)
          (fun _ _ => Ok tt)
          (fun _ => FetchResponse 200 "OK" (BodyBytes tenBytes))
          (fun _ => 0) (fun _ => "") (fun _ => "")
          (fun _ fs => fs)
          (fun _ data => data).

Definition credentials : gmap string string :=
  {[ "AWS_ACCESS_KEY_ID" := "key"; "AWS_SECRET_ACCESS_KEY" := "secret";
     "AWS_ENDPOINT_URL" := "https://store.example"; "DATA_BUCKET_NAME" := "data" ]}.

(** A fresh server managing [/data], with the given environment. *)
Definition freshServer (environment : gmap string string) : Server :=
  mkServer environment ["/data"] ∅ ∅ [] ∅ [] 0 0 0 0 [] [].

Definition serverInMaintenance : Server :=
  freshServer (<["MAINTENANCE_MODE" := "TRUE"]> credentials).

Definition serverRunning : Server := freshServer credentials.

(** A store whose HEAD probe announces ten bytes while the object fetched
    has only three, and another that answers the probe with 503. *)
Definition truncatingWorld : World :=
  mkWorld 1761998400123 "k3x9qa"
          (fun _ => FetchResponse 200 "OK" (BodyBytes []))
          (fun _ => Some 10)
          (fun _ => reliableStore tenBytes)
          (fun _ => Ok [x00; x01; x02])
          (fun _ _ => Ok tt)
          (fun _ => FetchResponse 200 "OK" (BodyBytes tenBytes))
          (fun _ => 0) (fun _ => "") (fun _ => "")
          (fun _ fs => fs)
          (fun _ data => data).

Definition unavailableWorld : World :=
  mkWorld 1761998400123 "k3x9qa"
          (fun _ => FetchResponse 503 "Service Unavailable" (BodyBytes []))
          (fun _ => None)
          (fun _ => reliableStore tenBytes)
          (fun _ => Ok tenBytes)
          (fun _ _ => Ok tt)
          (fun _ => FetchResponse 200 "OK" (BodyBytes tenBytes))
          (fun _ => 0) (fun _ => "") (fun _ => "")
          (fun _ fs => fs)
          (fun _ data => data).

Definition someKey : string := "backups/3129364800_2025110112_world.tar.gz".

(** A world in which [tar] writes a three-byte archive wherever it is
    told to, and one in which the upload is refused. *)
Definition archivingWorld : World :=
  mkWorld 1761998400123 "k3x9qa"
          (fun _ => FetchResponse 200 "OK" (BodyBytes []))
          (fun _ => Some 10)
          (fun _ => reliableStore tenBytes)
          (fun _ => Ok tenBytes)
          (fun _ _ => Ok tt)
          (fun _ => FetchResponse 200 "OK" (BodyBytes tenBytes))
          (fun _ => 0) (fun _ => "") (fun _ => "")
          (fun argv fs =>
             match argv with
             | "tar" :: "-czf" :: tempFile :: _ => fsWrite tempFile [x1f; x8b; x08] fs
             | _ => fs
             end)
          (fun _ data => data).

Definition refusingWorld : World :=
  mkWorld 1761998400123 "k3x9qa"
          (fun _ => FetchResponse 200 "OK" (BodyBytes []))
          (fun _ => Some 10)
          (fun _ => reliableStore tenBytes)
          (fun _ => Ok tenBytes)
          (fun _ _ => Throw "AccessDenied")
          (fun _ => FetchResponse 200 "OK" (BodyBytes tenBytes))
          (fun _ => 0) (fun _ => "") (fun _ => "")
          (fun argv fs =>
             match argv with
             | "tar" :: "-czf" :: tempFile :: _ => fsWrite tempFile [x1f; x8b; x08] fs
             | _ => fs
             end)
          (fun _ data => data).

Definition worldTemp : string := "/tmp/backup_2025110112_b1.tar.gz".

(** A pack with one mod, hosts that serve it, and a world in which
    [unzip] leaves the pack's manifest in the directory it unpacks to. *)
Definition packManifest : Modrinth.Manifest :=
  Modrinth.mkManifest (Some "Pack")
    (Some {[ "fabric-loader" := "0.16.0"; "minecraft" := "1.21.1" ]})
    [Modrinth.mkFile (Some "mods\a.jar") ["https://cdn.example/a.jar"]
       (Some {[ "sha1" := "00010203040506070809"; "md5" := "ffff" ]}) None;
     Modrinth.mkFile (Some "mods/client.jar") [] None (Some "unsupported")]
    None.

Definition someUpstream : Upstream :=
  mkUpstream (fun address _ => Ok (Modrinth.mkResolution address "Pack" None None))
             (fun _ => Ok packManifest)
             (fun _ _ => Ok None)
             (fun _ => Throw "Unexpected end of JSON input").

Definition unpackingWorld : World :=
  mkWorld 1761998400123 "k3x9qa"
          (fun _ => FetchResponse 200 "OK" (BodyBytes []))
          (fun _ => Some 10)
          (fun _ => reliableStore tenBytes)
          (fun _ => Ok tenBytes)
          (fun _ _ => Ok tt)
          (fun _ => FetchResponse 200 "OK" (BodyBytes tenBytes))
          (fun _ => 0) (fun _ => "") (fun _ => "")
          (fun argv fs =>
             match argv with
             | ["unzip"; "-o"; _; "-d"; destination] =>
                 fsWrite (destination +:+ "/modrinth.index.json") [x7b; x7d] fs
             | _ => fs
             end)
          (fun _ data => data).

Definition packUrl : string := "https://cdn.modrinth.com/data/pack/versions/1/pack.mrpack".

(** The server once the install of [packUrl] has been asked for. *)
Definition serverInstalling : Server :=
  (handleModrinthInstall unpackingWorld (Some (mkModrinthPayload (Some packUrl) None))
     serverInMaintenance).1.



(* ===================================================================== *)
(** ** Reading through the gateway                                        *)
(* ===================================================================== *)

(** [handleReadFile]: [stat] finds nothing at the path (404), or the
    file is read; reading a directory throws. *)
Definition handleReadFile (rawPath : option string) : M Response :=
  tryCatch
    (s ← get;
     target ← liftResult (resolveManagedPath (managedRoots s) rawPath false);
     match files s !! absolute target with
     | None => mret (mkResponse 404 (TextPayload "File not found"))
     | Some (FsFile buffer) => mret (mkResponse 200 (BytesPayload buffer))
     | Some FsDir => throw "EISDIR: illegal operation on a directory, read"
     end)
    (fun error =>
       let message := messageOr error "Failed to read file" in
       mret (jsonResponse (ErrorPayload message) (readErrorStatus message))).

(* ===================================================================== *)
(** ** The managed roots of a new server                                  *)
(* ===================================================================== *)

(** [s.replace(/\/+$/, '')] *)
Fixpoint stripTrailingSlashes (s : string) : string :=
  match s with
  | EmptyString => EmptyString
  | String c s' =>
      let r := stripTrailingSlashes s' in
      if Ascii.eqb c slash && String.eqb r "" then EmptyString else String c r
  end.

(** The constructor's computation of [this.managedRoots] from
    [process.env.FILE_MANAGER_ROOTS]. *)
Definition configuredRoots (environment : gmap string string) : list string :=
  let entries := splitOn ","%char (stringOr (environment !! "FILE_MANAGER_ROOTS") "/data") in
  let named := List.filter (fun entry => negb (String.eqb entry "")) (trim <$> entries) in
  let rooted := (fun rt => if startsWith rt "/" then rt else "/" +:+ rt) <$> named in
  let roots :=
    (fun rt => if String.eqb rt "/" then "/" else stripTrailingSlashes rt) <$> rooted in
  match roots with
  | [] => ["/data"]
  | _ => roots
  end.

(** [new FileServer()] *)
Definition newServer (environment : gmap string string) : Server :=
  mkServer environment (configuredRoots environment) ∅ ∅ [] ∅ [] 0 0 0 0 [] [].

(* ===================================================================== *)
(** ** Key scheme: newest-first ordering                                  *)
(* ===================================================================== *)

Example MAX_EPOCH_SECONDS_value : MAX_EPOCH_SECONDS = 4891363200.
Proof. reflexivity. Qed.

Example REV_SECONDS_WIDTH_value : REV_SECONDS_WIDTH = 10%nat.
Proof. reflexivity. Qed.

Example generateBackupKey_epoch :
  generateBackupKey "world" 0 = "backups/4891363200_1970010100_world.tar.gz".
Proof. reflexivity. Qed.

Example generateBackupKey_2025 :
  generateBackupKey "world" 1761998400123 = "backups/3129364800_2025110112_world.tar.gz".
Proof. vm_compute. reflexivity. Qed.

(** *** Strings *)

Lemma append_assoc (a b c : string) : (a +:+ b) +:+ c = a +:+ (b +:+ c).
Proof. induction a as [|x a IH]; simpl; [reflexivity | now rewrite IH]. Qed.

Lemma append_nil_r (a : string) : a +:+ "" = a.
Proof. induction a as [|x a IH]; simpl; [reflexivity | now rewrite IH]. Qed.

Lemma length_append (a b : string) :
  String.length (a +:+ b) = (String.length a + String.length b)%nat.
Proof. induction a as [|x a IH]; simpl; [reflexivity | now rewrite IH]. Qed.

Lemma length_strRepeat c n : String.length (strRepeat c n) = n.
Proof. induction n as [|n IH]; simpl; [reflexivity | now rewrite IH]. Qed.

Lemma ascii_compare_refl (c : ascii) : Ascii.compare c c = Eq.
Proof. unfold Ascii.compare. apply N.compare_refl. Qed.

Lemma string_compare_refl (s : string) : String.compare s s = Eq.
Proof.
  induction s as [|c s IH]; simpl; [reflexivity|].
  now rewrite ascii_compare_refl.
Qed.

Lemma compare_common_prefix (p a b : string) :
  String.compare (p +:+ a) (p +:+ b) = String.compare a b.
Proof.
  induction p as [|c p IH]; simpl; [reflexivity|].
  now rewrite ascii_compare_refl.
Qed.

Lemma append_cons (c : ascii) (a b : string) : String c a +:+ b = String c (a +:+ b).
Proof. reflexivity. Qed.

Lemma append_nil_l (a : string) : "" +:+ a = a.
Proof. reflexivity. Qed.

Lemma compare_cons (a b : ascii) (s t : string) :
  String.compare (String a s) (String b t)
  = match Ascii.compare a b with Eq => String.compare s t | c => c end.
Proof. reflexivity. Qed.

(** *** Decimal rendering *)

Lemma digitChar_lt (a b : Z) :
  0 <= a < b -> b < 10 -> Ascii.compare (digitChar a) (digitChar b) = Lt.
Proof.
  intros Ha Hb. unfold Ascii.compare, digitChar.
  assert (Hn : forall d, 0 <= d < 10 ->
             N_of_ascii (ascii_of_nat (48 + Z.to_nat d)) = (48 + Z.to_N d)%N).
  { intros d Hd. unfold ascii_of_nat.
    rewrite N_ascii_embedding by lia. lia. }
  rewrite !Hn by lia. apply N.compare_lt_iff. lia.
Qed.

Lemma fixedDigits_zero (w : nat) : fixedDigits w 0 = strRepeat "0" w.
Proof.
  induction w as [|w IH]; simpl; [reflexivity|].
  rewrite Zdiv_0_l, IH. clear IH.
  induction w as [|w IH]; simpl; [reflexivity | now rewrite IH].
Qed.

Lemma length_fixedDigits (w : nat) (n : Z) : String.length (fixedDigits w n) = w.
Proof.
  revert n. induction w as [|w IH]; intros n; simpl; [reflexivity|].
  rewrite length_append, IH. simpl. lia.
Qed.

Lemma padStart_snoc (w : nat) (c d : ascii) (s : string) :
  padStart (S w) c (s +:+ String d "") = padStart w c s +:+ String d "".
Proof.
  unfold padStart. rewrite length_append. simpl String.length.
  replace (S w - (String.length s + 1))%nat with (w - String.length s)%nat by lia.
  now rewrite append_assoc.
Qed.

Lemma padStart_decDigits (fuel : nat) :
  forall (w : nat) (n : Z),
    0 <= n < 2 ^ Z.of_nat fuel -> n < 10 ^ Z.of_nat w -> (0 < w)%nat ->
    padStart w "0" (decDigits fuel n) = fixedDigits w n.
Proof.
  induction fuel as [|fuel IH]; intros w n Hn Hw Hpos.
  - simpl in Hn. assert (n = 0) by lia. subst n.
    rewrite fixedDigits_zero. unfold padStart, decDigits.
    rewrite append_nil_r. simpl String.length. now rewrite Nat.sub_0_r.
  - destruct w as [|w]; [lia|]. simpl decDigits.
    destruct (n <? 10) eqn:E.
    + apply Z.ltb_lt in E. simpl fixedDigits.
      rewrite (Z.div_small n 10), (Z.mod_small n 10) by lia.
      rewrite fixedDigits_zero. unfold padStart. simpl String.length.
      now replace (S w - 1)%nat with w by lia.
    + apply Z.ltb_ge in E. rewrite padStart_snoc. simpl fixedDigits.
      f_equal. apply IH.
      * split; [apply Z.div_pos; lia|].
        apply Z.div_lt_upper_bound; [lia|].
        rewrite Nat2Z.inj_succ, Z.pow_succ_r in Hn by lia. lia.
      * apply Z.div_lt_upper_bound; [lia|].
        rewrite Nat2Z.inj_succ, Z.pow_succ_r in Hw by lia. lia.
      * destruct w as [|w]; [|lia]. simpl in Hw. lia.
Qed.

Lemma padStart_numberToString (w : nat) (n : Z) :
  0 <= n < 10 ^ Z.of_nat w -> (0 < w)%nat ->
  padStart w "0" (numberToString n) = fixedDigits w n.
Proof.
  intros Hn Hw. unfold numberToString.
  destruct (n <? 0) eqn:E; [apply Z.ltb_lt in E; lia|].
  apply padStart_decDigits; [|lia|lia].
  split; [lia|].
  destruct (Z.eq_dec n 0) as [->|Hnz]; [apply Z.pow_pos_nonneg; lia|].
  rewrite Nat2Z.inj_succ, Z2Nat.id by apply Z.log2_nonneg.
  apply Z.log2_spec. lia.
Qed.

(** Fixed-width decimal strings compare like the numbers they print,
    whatever follows them. *)
Lemma fixedDigits_compare (w : nat) :
  forall (n m : Z) (r1 r2 : string),
    0 <= n < m -> m < 10 ^ Z.of_nat w ->
    String.compare (fixedDigits w n +:+ r1) (fixedDigits w m +:+ r2) = Lt.
Proof.
  induction w as [|w IH]; intros n m r1 r2 Hnm Hm.
  - simpl in Hm. lia.
  - simpl fixedDigits. rewrite !append_assoc.
    rewrite Nat2Z.inj_succ, Z.pow_succ_r in Hm by lia.
    assert (Hq : n / 10 <= m / 10) by (apply Z.div_le_mono; lia).
    destruct (Z.eq_dec (n / 10) (m / 10)) as [Heq|Hne].
    + rewrite Heq, compare_common_prefix, !append_cons, compare_cons.
      pose proof (Z.div_mod n 10 ltac:(lia)) as Dn.
      pose proof (Z.div_mod m 10 ltac:(lia)) as Dm.
      pose proof (Z.mod_pos_bound n 10 ltac:(lia)).
      pose proof (Z.mod_pos_bound m 10 ltac:(lia)).
      rewrite digitChar_lt by lia. reflexivity.
    + apply IH.
      * split; [apply Z.div_pos; lia | lia].
      * apply Z.div_lt_upper_bound; lia.
Qed.

Lemma append_inj_length (x y u v : string) :
  String.length x = String.length y -> x +:+ u = y +:+ v -> x = y /\ u = v.
Proof.
  revert y. induction x as [|c x IH]; intros [|d y] Hl H; try discriminate.
  - now split.
  - rewrite !append_cons in H. injection H as -> H. injection Hl as Hl.
    destruct (IH y Hl H) as [-> ->]. now split.
Qed.

Lemma digitChar_inj (a b : Z) :
  0 <= a < 10 -> 0 <= b < 10 -> digitChar a = digitChar b -> a = b.
Proof.
  intros Ha Hb H.
  destruct (Z.lt_trichotomy a b) as [Hlt|[Heq|Hgt]]; [|exact Heq|].
  - pose proof (digitChar_lt a b ltac:(lia) ltac:(lia)) as C.
    rewrite H, ascii_compare_refl in C. discriminate.
  - pose proof (digitChar_lt b a ltac:(lia) ltac:(lia)) as C.
    rewrite H, ascii_compare_refl in C. discriminate.
Qed.

Lemma fixedDigits_inj (w : nat) :
  forall a b : Z,
    0 <= a < 10 ^ Z.of_nat w -> 0 <= b < 10 ^ Z.of_nat w ->
    fixedDigits w a = fixedDigits w b -> a = b.
Proof.
  induction w as [|w IH]; intros a b Ha Hb H.
  - simpl in Ha, Hb. lia.
  - rewrite Nat2Z.inj_succ, Z.pow_succ_r in Ha, Hb by lia.
    cbn [fixedDigits] in H.
    apply append_inj_length in H; [|now rewrite !length_fixedDigits].
    destruct H as [Hq Hr]. injection Hr as Hr.
    pose proof (Z.mod_pos_bound a 10 ltac:(lia)).
    pose proof (Z.mod_pos_bound b 10 ltac:(lia)).
    apply digitChar_inj in Hr; [|lia|lia].
    apply IH in Hq.
    + rewrite (Z.div_mod a 10), (Z.div_mod b 10) by lia. congruence.
    + split; [apply Z.div_pos; lia | apply Z.div_lt_upper_bound; lia].
    + split; [apply Z.div_pos; lia | apply Z.div_lt_upper_bound; lia].
Qed.

(** [String(n)] is injective on the non-negative integers. *)
Lemma numberToString_inj (a b : Z) :
  0 <= a -> 0 <= b -> numberToString a = numberToString b -> a = b.
Proof.
  intros Ha Hb H.
  set (w := S (Z.to_nat (a + b))).
  assert (Hw : a + b < 10 ^ Z.of_nat w).
  { pose proof (Z.pow_gt_lin_r 10 (Z.of_nat w) ltac:(lia) ltac:(lia)).
    subst w. lia. }
  apply (fixedDigits_inj w); [lia|lia|].
  rewrite <- !padStart_numberToString by (subst w; lia).
  now rewrite H.
Qed.

(** *** Ordering of backup keys *)

Lemma reversePart_fixed (s : Z) :
  0 <= s <= MAX_EPOCH_SECONDS ->
  padStart REV_SECONDS_WIDTH "0" (numberToString (MAX_EPOCH_SECONDS - s))
  = fixedDigits 10 (MAX_EPOCH_SECONDS - s).
Proof.
  intros Hs. rewrite REV_SECONDS_WIDTH_value.
  apply padStart_numberToString; [|lia].
  rewrite MAX_EPOCH_SECONDS_value in *. simpl. lia.
Qed.

Lemma formatUTCDate_same_second (t1 t2 : Date) :
  t1 / 1000 = t2 / 1000 ->
  formatUTCDateYYYYMMDDHH t1 = formatUTCDateYYYYMMDDHH t2.
Proof.
  intros H.
  assert (Hd : t1 / msPerDay = t2 / msPerDay).
  { unfold msPerDay. change 86400000 with (1000 * 86400).
    rewrite <- !Z.div_div by lia. now rewrite H. }
  assert (Hh : t1 / msPerHour = t2 / msPerHour).
  { unfold msPerHour. change 3600000 with (1000 * 3600).
    rewrite <- !Z.div_div by lia. now rewrite H. }
  assert (Hm : forall t, (t mod msPerDay) / msPerHour = (t / msPerHour) mod 24).
  { intros t. unfold msPerDay, msPerHour.
    change 86400000 with (3600000 * 24).
    rewrite Z.rem_mul_r by lia.
    rewrite (Z.mul_comm 3600000), Z.div_add by lia.
    rewrite (Z.div_small (t mod 3600000)) by (apply Z.mod_pos_bound; lia).
    reflexivity. }
  unfold formatUTCDateYYYYMMDDHH, getUTCFullYear, getUTCMonth, getUTCDate, getUTCHours.
  now rewrite !Hm, Hd, Hh.
Qed.

Lemma generateBackupKey_later_first (d : string) (t1 t2 : Date) :
  0 <= t1 -> t1 / 1000 < t2 / 1000 -> t2 / 1000 <= MAX_EPOCH_SECONDS ->
  String.compare (generateBackupKey d t2) (generateBackupKey d t1) = Lt.
Proof.
  intros H0 Hlt Hmax.
  assert (0 <= t1 / 1000) by (apply Z.div_pos; lia).
  unfold generateBackupKey.
  rewrite !reversePart_fixed by lia.
  rewrite compare_common_prefix.
  apply fixedDigits_compare; [lia|].
  rewrite MAX_EPOCH_SECONDS_value. simpl. lia.
Qed.

Lemma generateBackupKey_same_second_eq (d : string) (t1 t2 : Date) :
  t1 / 1000 = t2 / 1000 -> generateBackupKey d t1 = generateBackupKey d t2.
Proof.
  intros H. unfold generateBackupKey.
  now rewrite H, (formatUTCDate_same_second t1 t2 H).
Qed.

(** C1 (as amended).  For one directory and two instants between the epoch
    and [MAX_EPOCH_SECONDS], backup keys compare exactly as the whole
    seconds of the instants compare, reversed: the instant in the later
    second has the lexicographically smaller key (so an ascending listing
    is newest first), and two instants in the same second have the same
    key. *)
Theorem generateBackupKey_reverse_order (d : string) (t1 t2 : Date) :
  0 <= t1 <= MAX_EPOCH_SECONDS * 1000 ->
  0 <= t2 <= MAX_EPOCH_SECONDS * 1000 ->
  String.compare (generateBackupKey d t1) (generateBackupKey d t2)
    = Z.compare (t2 / 1000) (t1 / 1000)
  /\ strGt (generateBackupKey d t1) (generateBackupKey d t2)
    = (t1 / 1000 <? t2 / 1000).
Proof.
  intros H1 H2.
  assert (B1 : t1 / 1000 <= MAX_EPOCH_SECONDS)
    by (apply Z.div_le_upper_bound; lia).
  assert (B2 : t2 / 1000 <= MAX_EPOCH_SECONDS)
    by (apply Z.div_le_upper_bound; lia).
  assert (E : String.compare (generateBackupKey d t1) (generateBackupKey d t2)
              = Z.compare (t2 / 1000) (t1 / 1000)).
  { destruct (Z.compare_spec (t2 / 1000) (t1 / 1000)) as [Heq|Hlt|Hgt].
    - rewrite (generateBackupKey_same_second_eq d t1 t2) by congruence.
      apply string_compare_refl.
    - apply generateBackupKey_later_first; lia.
    - rewrite String.compare_antisym.
      rewrite generateBackupKey_later_first by lia. reflexivity. }
  split; [exact E|].
  unfold strGt. rewrite E, Z.ltb_compare, (Z.compare_antisym (t2 / 1000)).
  destruct (t2 / 1000 ?= t1 / 1000); reflexivity.
Qed.

Lemma generateBackupKey_reverse_order_witness :
  String.compare (generateBackupKey "world" 1761998400123)
                 (generateBackupKey "world" 1761998401000)
    = Z.compare (1761998401000 / 1000) (1761998400123 / 1000)
  /\ strGt (generateBackupKey "world" 1761998400123)
           (generateBackupKey "world" 1761998401000)
    = (1761998400123 / 1000 <? 1761998401000 / 1000).
Proof.
  apply (generateBackupKey_reverse_order "world" 1761998400123 1761998401000);
    rewrite MAX_EPOCH_SECONDS_value; lia.
Defined.

(** C1 (as stated) fails on two distinct instants of one second: the
    earlier instant's key is not greater, the two keys are the same. *)
Lemma generateBackupKey_same_second_collision :
  (0 <= 1000 /\ 1000 < 1999 /\ 1999 <= MAX_EPOCH_SECONDS * 1000)
  /\ generateBackupKey "world" 1000 = generateBackupKey "world" 1999
  /\ strGt (generateBackupKey "world" 1000) (generateBackupKey "world" 1999) = false.
Proof.
  split; [rewrite MAX_EPOCH_SECONDS_value; lia|].
  split; vm_compute; reflexivity.
Qed.

(* ===================================================================== *)
(** ** Chunked transfer engine                                            *)
(* ===================================================================== *)

(** Three parts of at most four bytes: [0..3], [4..7], [8..9]. *)
Example downloadTasksOf_ten :
  downloadTasksOf 4 "/tmp/r" 10
  = [mkTask 1 0 3 "/tmp/r.part0"; mkTask 2 4 7 "/tmp/r.part1"; mkTask 3 8 9 "/tmp/r.part2"].
Proof. reflexivity. Qed.

Example downloadLargeFileWith_ten :
  downloadLargeFileWith 4 (reliableStore tenBytes) "/tmp/r" 10 ∅
  = ([EvRangeRequest 1 0 3 1; EvRangeRequest 2 4 7 1; EvRangeRequest 3 8 9 1],
     {["/tmp/r" := FsFile tenBytes]}, Ok tt).
Proof. vm_compute. reflexivity. Qed.

(** At the threshold the server splits into two full chunks; above it,
    three chunks and a remainder give four parts. *)
Example downloadTasks_at_threshold :
  downloadTasks "t" LARGE_FILE_THRESHOLD
  = [mkTask 1 0 52428799 "t.part0"; mkTask 2 52428800 104857599 "t.part1"].
Proof. reflexivity. Qed.

Example downloadTasks_three_chunks_and_remainder :
  downloadTasks "t" (3 * DOWNLOAD_CHUNK_SIZE + 123)
  = [mkTask 1 0 52428799 "t.part0"; mkTask 2 52428800 104857599 "t.part1";
     mkTask 3 104857600 157286399 "t.part2"; mkTask 4 157286400 157286522 "t.part3"].
Proof. reflexivity. Qed.

Example downloadRangeWithRetry_flaky :
  downloadRangeWithRetry (flakyStore tenBytes) 4 7 2 3
  = ([EvRangeRequest 2 4 7 1; EvAttemptFailed 2 1 "ECONNRESET"; EvSleep 1000;
      EvRangeRequest 2 4 7 2;
      EvAttemptFailed 2 2 "HTTP 503: Service Unavailable - "; EvSleep 2000;
      EvRangeRequest 2 4 7 3],
     Ok [x04; x05; x06; x07]).
Proof. reflexivity. Qed.

Example downloadRangeWithRetry_exhausted :
  downloadRangeWithRetry (fun _ _ _ => FetchRejected "ETIMEDOUT") 4 7 2 3
  = ([EvRangeRequest 2 4 7 1; EvAttemptFailed 2 1 "ETIMEDOUT"; EvSleep 1000;
      EvRangeRequest 2 4 7 2; EvAttemptFailed 2 2 "ETIMEDOUT"; EvSleep 2000;
      EvRangeRequest 2 4 7 3; EvAttemptFailed 2 3 "ETIMEDOUT";
      EvExhausted 2],
     Throw "Failed to download part 2/3 after 3 attempts: ETIMEDOUT").
Proof. reflexivity. Qed.

(** *** The retry loop *)

Lemma rangeAttempt_failure (net : RangeNetwork) (s e p k : Z) :
  transportFailure (net s e k) = true ->
  exists m, rangeAttempt net s e p k = ([EvRangeRequest p s e k], Throw m).
Proof.
  unfold transportFailure, rangeAttempt. intros H.
  destruct (net s e k) as [m|st txt [data|m]]; eauto.
  - rewrite H. eauto.
  - destruct (negb (responseOk st)); eauto.
Qed.

Lemma rangeAttempt_success (net : RangeNetwork) (s e p k : Z) :
  transportFailure (net s e k) = false ->
  exists st txt data,
    net s e k = FetchResponse st txt (BodyBytes data)
    /\ rangeAttempt net s e p k
       = (EvRangeRequest p s e k ::
            (if Z.of_nat (length data) =? e - s + 1 then []
             else [EvSizeMismatch p (e - s + 1) (Z.of_nat (length data))]),
          Ok data).
Proof.
  unfold transportFailure, rangeAttempt. intros H.
  destruct (net s e k) as [m|st txt [data|m]]; try discriminate.
  rewrite H. eauto.
Qed.

Lemma retryLoop_unfold (net : RangeNetwork) (s e p n : Z) (remaining : nat)
    (attempt : Z) (lastError : option string) :
  retryLoop net s e p n (S remaining) attempt lastError
  = match rangeAttempt net s e p attempt with
    | (evs, Ok data) => (evs, Ok data)
    | (evs, Throw message) =>
        let backoff :=
          if attempt <? MAX_RETRIES then [EvSleep (backoffDelay attempt)] else [] in
        let '(evs', r) :=
          retryLoop net s e p n remaining (attempt + 1) (Some message) in
        (evs ++ EvAttemptFailed p attempt message :: backoff ++ evs', r)
    end.
Proof. reflexivity. Qed.

(** The retry loop, characterised by the first attempt [a] that is not a
    transport failure (or [MAX_RETRIES] when there is none). *)
Lemma downloadRangeWithRetry_spec (net : RangeNetwork) (s e p n : Z) :
  exists a : Z,
    1 <= a <= MAX_RETRIES
    /\ attemptsOf (fst (downloadRangeWithRetry net s e p n)) = seqZ 1 a
    /\ (forall k, 1 <= k < a -> transportFailure (net s e k) = true)
    /\ if transportFailure (net s e a) then
         a = MAX_RETRIES
         /\ sleepsOf (fst (downloadRangeWithRetry net s e p n))
            = backoffDelay <$> seqZ 1 (MAX_RETRIES - 1)
         /\ mismatchesOf (fst (downloadRangeWithRetry net s e p n)) = []
         /\ exists cause,
              snd (downloadRangeWithRetry net s e p n)
              = Throw (exhaustedMessage p n cause)
       else
         sleepsOf (fst (downloadRangeWithRetry net s e p n))
           = backoffDelay <$> seqZ 1 (a - 1)
         /\ exists st txt data,
              net s e a = FetchResponse st txt (BodyBytes data)
              /\ snd (downloadRangeWithRetry net s e p n) = Ok data
              /\ mismatchesOf (fst (downloadRangeWithRetry net s e p n))
                 = if Z.of_nat (length data) =? e - s + 1 then []
                   else [(e - s + 1, Z.of_nat (length data))].
Proof.
  unfold downloadRangeWithRetry. change (Z.to_nat MAX_RETRIES) with 3%nat.
  assert (Hk : forall a k, 1 <= k < a -> a <= 3 ->
            (1 < a -> transportFailure (net s e 1) = true) ->
            (2 < a -> transportFailure (net s e 2) = true) ->
            transportFailure (net s e k) = true).
  { intros a k Hk Ha H1 H2.
    assert (k = 1 \/ k = 2) as [->| ->] by lia; [apply H1 | apply H2]; lia. }
  destruct (transportFailure (net s e 1)) eqn:F1.
  2:{ destruct (rangeAttempt_success net s e p 1 F1) as (st & txt & data & Hn & Hr).
      exists 1. rewrite F1, retryLoop_unfold, Hr.
      split; [unfold MAX_RETRIES; lia|]. split; [now destruct (_ =? _)|].
      split; [intros; lia|]. split; [now destruct (_ =? _)|].
      exists st, txt, data. split; [exact Hn|]. split; [reflexivity|].
      now destruct (_ =? _). }
  destruct (rangeAttempt_failure net s e p 1 F1) as (m1 & Hr1).
  rewrite retryLoop_unfold, Hr1. change (1 + 1) with 2.
  destruct (transportFailure (net s e 2)) eqn:F2.
  2:{ destruct (rangeAttempt_success net s e p 2 F2) as (st & txt & data & Hn & Hr).
      exists 2. rewrite F2, retryLoop_unfold, Hr.
      split; [unfold MAX_RETRIES; lia|]. split; [now destruct (_ =? _)|].
      split; [intros; eapply Hk; eauto; try lia; congruence|].
      split; [now destruct (_ =? _)|].
      exists st, txt, data. split; [exact Hn|]. split; [reflexivity|].
      now destruct (_ =? _). }
  destruct (rangeAttempt_failure net s e p 2 F2) as (m2 & Hr2).
  rewrite retryLoop_unfold, Hr2. change (2 + 1) with 3.
  exists 3. split; [unfold MAX_RETRIES; lia|].
  destruct (transportFailure (net s e 3)) eqn:F3.
  - destruct (rangeAttempt_failure net s e p 3 F3) as (m3 & Hr3).
    rewrite retryLoop_unfold, Hr3.
    split; [reflexivity|]. split; [intros; eapply Hk; eauto; lia|].
    split; [reflexivity|]. split; [reflexivity|]. split; [reflexivity|].
    exists m3. reflexivity.
  - destruct (rangeAttempt_success net s e p 3 F3) as (st & txt & data & Hn & Hr).
    rewrite retryLoop_unfold, Hr.
    split; [now destruct (_ =? _)|]. split; [intros; eapply Hk; eauto; lia|].
    split; [now destruct (_ =? _)|].
    exists st, txt, data. split; [exact Hn|]. split; [reflexivity|].
    now destruct (_ =? _).
Qed.

(** *** Partition of the object into ranges *)

Lemma ceilDiv_bounds (a b : Z) :
  0 < b -> a <= ceilDiv a b * b < a + b.
Proof.
  intros Hb. unfold ceilDiv.
  pose proof (Z.div_mod (- a) b ltac:(lia)).
  pose proof (Z.mod_pos_bound (- a) b Hb). nia.
Qed.

Lemma ceilDiv_nonneg (a b : Z) : 0 < b -> 0 <= a -> 0 <= ceilDiv a b.
Proof. intros Hb Ha. pose proof (ceilDiv_bounds a b Hb). nia. Qed.

Section Partition.

Variable chunkSize : Z.
Hypothesis chunkSize_pos : 0 < chunkSize.

(** The first [n] ranges, appended in order, are the first
    [min (n * chunkSize) size] bytes of the object. *)
Lemma concat_objectRanges (object : list byte) (n : nat) :
  let size := Z.of_nat (length object) in
  concat ((fun i => objectRange object (i * chunkSize)
                      (Z.min (i * chunkSize + chunkSize - 1) (size - 1)))
          <$> seqZ 0 (Z.of_nat n))
  = take (Z.to_nat (Z.min (Z.of_nat n * chunkSize) size)) object.
Proof.
  intros size. induction n as [|n IH].
  - simpl. rewrite Z.min_l by (subst size; lia). reflexivity.
  - rewrite seqZ_S, fmap_app, concat_app, IH. simpl. rewrite app_nil_r.
    unfold objectRange.
    destruct (Z_le_gt_dec (Z.of_nat n * chunkSize) size) as [Hle|Hgt].
    + rewrite Z.min_l by lia. rewrite take_take_drop. f_equal. lia.
    + rewrite Z.min_r by lia.
      replace (Z.to_nat (Z.min _ (size - 1) - _ + 1)) with 0%nat by lia.
      rewrite take_0, app_nil_r. f_equal. lia.
Qed.

Lemma concat_objectRanges_all (object : list byte) :
  let size := Z.of_nat (length object) in
  concat ((fun i => objectRange object (i * chunkSize)
                      (Z.min (i * chunkSize + chunkSize - 1) (size - 1)))
          <$> seqZ 0 (numPartsOf chunkSize size))
  = object.
Proof.
  intros size. unfold numPartsOf.
  pose proof (ceilDiv_bounds size chunkSize chunkSize_pos) as B.
  pose proof (ceilDiv_nonneg size chunkSize chunkSize_pos ltac:(subst size; lia)) as N.
  rewrite <- (Z2Nat.id (ceilDiv size chunkSize)) by exact N.
  rewrite concat_objectRanges. fold size.
  rewrite Z2Nat.id by exact N.
  rewrite Z.min_r by lia. apply take_ge. subst size. lia.
Qed.

(** Part [i] covers [i * chunkSize .. min ((i+1) * chunkSize, size) - 1]
    and is not empty; there are [ceil (size / chunkSize)] parts. *)
Lemma downloadTasksOf_lookup (dest : string) (size : Z) (i : nat) (task : DownloadTask) :
  0 <= size ->
  downloadTasksOf chunkSize dest size !! i = Some task ->
  partNumber task = Z.of_nat i + 1
  /\ start task = Z.of_nat i * chunkSize
  /\ end_ task + 1 = Z.min ((Z.of_nat i + 1) * chunkSize) size
  /\ start task <= end_ task
  /\ tempFile task = partFile dest (Z.of_nat i).
Proof.
  intros Hs H. unfold downloadTasksOf in H.
  rewrite list_lookup_fmap in H.
  destruct (seqZ 0 (numPartsOf chunkSize size) !! i) as [k|] eqn:E; [|discriminate].
  apply lookup_seqZ in E as [-> Hi]. injection H as <-. simpl.
  unfold numPartsOf in Hi.
  pose proof (ceilDiv_bounds size chunkSize chunkSize_pos).
  repeat split; try lia. nia.
Qed.

Lemma length_downloadTasksOf (dest : string) (size : Z) :
  Z.of_nat (length (downloadTasksOf chunkSize dest size))
  = Z.max 0 (numPartsOf chunkSize size).
Proof. unfold downloadTasksOf. rewrite length_fmap, length_seqZ. lia. Qed.

End Partition.

(** *** Batches *)

Section Batches.

Variable net : RangeNetwork.
Variable total : Z.

Lemma downloadPart_result (task : DownloadTask) (fs : FileSystem) :
  exists evs,
    downloadPart net total task fs
    = (evs, partsWritten net total [task] fs,
       match partResult net total task with Ok _ => Ok tt | Throw m => Throw m end).
Proof.
  unfold downloadPart, partResult. simpl. unfold partResult.
  destruct (downloadRangeWithRetry _ _ _ _ _) as [evs [data|m]]; simpl; eauto.
Qed.

Lemma partsWritten_app (ts1 ts2 : list DownloadTask) (fs : FileSystem) :
  partsWritten net total (ts1 ++ ts2) fs
  = partsWritten net total ts2 (partsWritten net total ts1 fs).
Proof.
  revert fs. induction ts1 as [|t ts1 IH]; intros fs; simpl; [reflexivity|].
  destruct (partResult net total t); apply IH.
Qed.

(** A batch writes the parts it could download; it fails with the error
    of one of its parts, and succeeds when every part succeeded. *)
Lemma downloadBatch_result (batch : list DownloadTask) (fs : FileSystem) :
  exists evs r,
    downloadBatch net total batch fs = (evs, partsWritten net total batch fs, r)
    /\ match r with
       | Ok _ => Forall (fun t => isOk (partResult net total t) = true) batch
       | Throw m => Exists (fun t => partResult net total t = Throw m) batch
       end.
Proof.
  revert fs. induction batch as [|t batch IH]; intros fs.
  - exists [], (Ok tt). split; [reflexivity | constructor].
  - cbn [downloadBatch].
    destruct (downloadPart_result t fs) as (evs1 & ->).
    destruct (IH (partsWritten net total [t] fs)) as (evs2 & r2 & -> & Hr2).
    eexists _, _. split.
    { change (t :: batch) with ([t] ++ batch). rewrite partsWritten_app. reflexivity. }
    destruct (partResult net total t) as [data|m] eqn:E.
    + destruct r2 as [[]|m2].
      * constructor; [now rewrite E | exact Hr2].
      * now apply Exists_cons_tl.
    + now apply Exists_cons_hd.
Qed.

Lemma batchLoop_result (tasks : list DownloadTask) (fuel : nat) :
  forall (i : Z) (fs : FileSystem),
    0 <= i -> (length (drop (Z.to_nat i) tasks) <= fuel)%nat ->
    exists evs fs' r,
      batchLoop net total tasks fuel i fs = (evs, fs', r)
      /\ match r with
         | Ok _ => Forall (fun t => isOk (partResult net total t) = true)
                     (drop (Z.to_nat i) tasks)
                   /\ fs' = partsWritten net total (drop (Z.to_nat i) tasks) fs
         | Throw m => Exists (fun t => partResult net total t = Throw m) tasks
         end.
Proof.
  induction fuel as [|fuel IH]; intros i fs Hi Hlen.
  - exists [], fs, (Ok tt). split; [reflexivity|].
    destruct (drop (Z.to_nat i) tasks); [|simpl in Hlen; lia].
    split; [constructor | reflexivity].
  - cbn [batchLoop]. destruct (i <? Z.of_nat (length tasks)) eqn:E.
    + apply Z.ltb_lt in E.
      set (rest := drop (Z.to_nat i) tasks) in *.
      set (batch := take (Z.to_nat MAX_CONCURRENT_DOWNLOADS) rest).
      destruct (downloadBatch_result batch fs) as (evs & r & -> & Hr).
      destruct r as [[]|m].
      * assert (Hdrop : drop (Z.to_nat (i + MAX_CONCURRENT_DOWNLOADS)) tasks
                        = drop (Z.to_nat MAX_CONCURRENT_DOWNLOADS) rest).
        { subst rest. rewrite drop_drop. f_equal. unfold MAX_CONCURRENT_DOWNLOADS. lia. }
        destruct (IH (i + MAX_CONCURRENT_DOWNLOADS) (partsWritten net total batch fs))
          as (evs' & fs' & r' & -> & Hr').
        { unfold MAX_CONCURRENT_DOWNLOADS. lia. }
        { rewrite Hdrop, length_drop.
          assert (0 < length rest)%nat by (subst rest; rewrite length_drop; lia).
          unfold MAX_CONCURRENT_DOWNLOADS. lia. }
        eexists _, _, _. split; [reflexivity|].
        destruct r' as [[]|m']; [|exact Hr'].
        destruct Hr' as [Hall ->]. rewrite Hdrop in *.
        rewrite <- (take_drop (Z.to_nat MAX_CONCURRENT_DOWNLOADS) rest) at 1 3.
        fold batch. rewrite partsWritten_app. split; [|reflexivity].
        apply Forall_app. split; assumption.
      * eexists _, _, _. split; [reflexivity|].
        apply Exists_exists in Hr as (t & Ht & Hm).
        apply Exists_exists. exists t. split; [|exact Hm].
        subst batch rest.
        eapply subseteq_drop, subseteq_take, Ht.
    + apply Z.ltb_ge in E. exists [], fs, (Ok tt). split; [reflexivity|].
      rewrite drop_ge by lia. split; [constructor | reflexivity].
Qed.

End Batches.

(** *** Part files and reconstitution *)

Lemma partFile_inj (dest : string) (i j : Z) :
  0 <= i -> 0 <= j -> partFile dest i = partFile dest j -> i = j.
Proof.
  intros Hi Hj H. unfold partFile in H.
  apply String.app_inj, String.app_inj in H.
  now apply numberToString_inj.
Qed.

Lemma partsWritten_lookup_notin (net : RangeNetwork) (total : Z)
    (tasks : list DownloadTask) (fs : FileSystem) (p : string) :
  p ∉ tempFile <$> tasks ->
  partsWritten net total tasks fs !! p = fs !! p.
Proof.
  revert fs. induction tasks as [|t tasks IH]; intros fs Hp; [reflexivity|].
  rewrite fmap_cons, not_elem_of_cons in Hp. destruct Hp as [Hne Hp].
  simpl. destruct (partResult net total t).
  - rewrite IH by exact Hp. unfold fsWrite. now rewrite lookup_insert_ne.
  - now apply IH.
Qed.

Lemma partsWritten_lookup_in (net : RangeNetwork) (total : Z)
    (tasks : list DownloadTask) (fs : FileSystem) (t : DownloadTask) (data : list byte) :
  NoDup (tempFile <$> tasks) -> t ∈ tasks ->
  partResult net total t = Ok data ->
  partsWritten net total tasks fs !! tempFile t = Some (FsFile data).
Proof.
  revert fs. induction tasks as [|t0 tasks IH]; intros fs Hnd Ht Hr.
  - inversion Ht.
  - rewrite fmap_cons in Hnd. apply NoDup_cons in Hnd as [Hnotin Hnd].
    apply elem_of_cons in Ht as [->|Ht].
    + simpl. rewrite Hr. rewrite partsWritten_lookup_notin by exact Hnotin.
      unfold fsWrite. apply lookup_insert_eq.
    + simpl. destruct (partResult net total t0); now apply IH.
Qed.

Lemma reconstitute_ok (dest : string) (data : Z -> list byte) (n : nat) :
  forall (k : Z) (written : list byte) (fs : FileSystem),
    0 <= k ->
    (forall i, k <= i < k + Z.of_nat n ->
               fs !! partFile dest i = Some (FsFile (data i))) ->
    exists fs',
      reconstitute dest (seqZ k (Z.of_nat n)) written fs
      = (fs', Ok (written ++ concat (data <$> seqZ k (Z.of_nat n)))).
Proof.
  induction n as [|n IH]; intros k written fs Hk Hfs.
  - exists fs. simpl. now rewrite app_nil_r.
  - rewrite seqZ_cons by lia.
    replace (Z.pred (Z.of_nat (S n))) with (Z.of_nat n) by lia.
    cbn [reconstitute]. unfold fsRead at 1. rewrite (Hfs k) by lia.
    destruct (IH (Z.succ k) (written ++ data k) (unlink (partFile dest k) fs))
      as (fs' & Heq); [lia| |].
    { intros i Hi. unfold unlink. rewrite (Hfs k) by lia.
      rewrite lookup_delete_ne; [apply Hfs; lia|].
      intros H. apply partFile_inj in H; lia. }
    exists fs'. rewrite Heq, fmap_cons. simpl. now rewrite app_assoc.
Qed.

(** *** Round trip of the chunked download *)

Lemma partResult_served (object : list byte) (net : RangeNetwork) (total : Z)
    (task : DownloadTask) :
  servesObject object net ->
  (exists k, 1 <= k <= MAX_RETRIES
             /\ transportFailure (net (start task) (end_ task) k) = false) ->
  partResult net total task = Ok (objectRange object (start task) (end_ task)).
Proof.
  intros Hserve (k & Hk & Hok). unfold partResult.
  destruct (downloadRangeWithRetry_spec net (start task) (end_ task)
              (partNumber task) total) as (a & Ha & _ & Hbefore & Hat).
  destruct (transportFailure (net (start task) (end_ task) a)) eqn:Fa.
  - destruct Hat as (-> & _).
    destruct (Z.eq_dec k MAX_RETRIES) as [->|Hne]; [congruence|].
    rewrite Hbefore in Hok by lia. discriminate.
  - destruct Hat as (_ & st & txt & data & Hnet & -> & _).
    f_equal. apply (Hserve _ _ a st txt); [exact Hnet|].
    unfold transportFailure in Fa. rewrite Hnet in Fa.
    now apply negb_false_iff in Fa.
Qed.

Section RoundTrip.

Variable chunkSize : Z.
Hypothesis chunkSize_pos : 0 < chunkSize.

Lemma NoDup_downloadTasksOf (dest : string) (size : Z) :
  NoDup (tempFile <$> downloadTasksOf chunkSize dest size).
Proof.
  unfold downloadTasksOf. rewrite <- list_fmap_compose.
  apply NoDup_fmap_2_strong; [|apply NoDup_seqZ].
  intros i j Hi Hj H. apply elem_of_seqZ in Hi, Hj. simpl in H.
  apply partFile_inj in H; lia.
Qed.

(** Over a network that serves the object within the retry budget, the
    chunked download leaves exactly the object's bytes at [dest]. *)
Lemma downloadLargeFileWith_roundtrip (object : list byte) (net : RangeNetwork)
    (dest : string) (fs : FileSystem) :
  let size := Z.of_nat (length object) in
  servesObject object net ->
  withinRetryBudget net (downloadTasksOf chunkSize dest size) ->
  exists evs fs',
    downloadLargeFileWith chunkSize net dest size fs = (evs, fs', Ok tt)
    /\ fsRead dest fs' = Ok object.
Proof.
  intros size Hserve Hbudget.
  set (tasks := downloadTasksOf chunkSize dest size).
  set (total := numPartsOf chunkSize size).
  assert (Hres : forall t, t ∈ tasks ->
            partResult net total t = Ok (objectRange object (start t) (end_ t))).
  { intros t Ht. apply partResult_served; [exact Hserve | now apply Hbudget]. }
  unfold downloadLargeFileWith. fold tasks total.
  destruct (batchLoop_result net total tasks (length tasks) 0 fs ltac:(lia))
    as (evs & fs1 & r & -> & Hr).
  { rewrite length_drop. lia. }
  destruct r as [[]|m].
  2:{ apply Exists_exists in Hr as (t & Ht & Hm).
      rewrite (Hres t Ht) in Hm. discriminate. }
  change (drop (Z.to_nat 0) tasks) with tasks in Hr. destruct Hr as [_ ->].
  assert (N : 0 <= total)
    by (apply ceilDiv_nonneg; [exact chunkSize_pos | subst size; lia]).
  set (data := fun i => objectRange object (i * chunkSize)
                          (Z.min (i * chunkSize + chunkSize - 1) (size - 1))).
  destruct (reconstitute_ok dest data (Z.to_nat total) 0 []
              (partsWritten net total tasks fs) ltac:(lia)) as (fs2 & Hrec).
  { intros i Hi.
    assert (Hin : taskAt chunkSize dest size i ∈ tasks).
    { subst tasks. unfold downloadTasksOf. apply list_elem_of_fmap.
      exists i. split; [reflexivity|]. apply elem_of_seqZ. fold total. lia. }
    change (partFile dest i) with (tempFile (taskAt chunkSize dest size i)).
    apply partsWritten_lookup_in;
      [apply NoDup_downloadTasksOf | exact Hin | apply (Hres _ Hin)]. }
  rewrite Z2Nat.id in Hrec by exact N. rewrite Hrec.
  eexists _, _. split; [reflexivity|].
  unfold fsRead, fsWrite. rewrite lookup_insert_eq. f_equal. simpl.
  subst data total size. apply (concat_objectRanges_all chunkSize chunkSize_pos).
Qed.

End RoundTrip.

Lemma servesObject_reliableStore (object : list byte) :
  servesObject object (reliableStore object).
Proof. intros s e k st txt data H _. now injection H as _ _ <-. Qed.

Lemma withinRetryBudget_reliableStore (object : list byte) (tasks : list DownloadTask) :
  withinRetryBudget (reliableStore object) tasks.
Proof. intros t _. exists 1. split; [unfold MAX_RETRIES; lia | reflexivity]. Qed.

(** C2.  The chunked download splits an object of [size] bytes into
    [ceil (size / DOWNLOAD_CHUNK_SIZE)] parts, part [i] covering bytes
    [i * DOWNLOAD_CHUNK_SIZE] up to [min ((i+1) * DOWNLOAD_CHUNK_SIZE, size)]
    (exclusive) and never empty, and over a store that serves the object's
    ranges within the retry budget the file reassembled from the parts in
    ascending order holds exactly the object's bytes, what a single
    full fetch returns.  This holds at every size, so at the threshold, one
    byte below it, and at multiples of the chunk size plus a remainder. *)
Theorem downloadLargeFile_roundtrip (object : list byte) (net : RangeNetwork)
    (dest : string) (fs : FileSystem) :
  let size := Z.of_nat (length object) in
  servesObject object net ->
  withinRetryBudget net (downloadTasks dest size) ->
  Z.of_nat (length (downloadTasks dest size)) = ceilDiv size DOWNLOAD_CHUNK_SIZE
  /\ (forall (i : nat) (task : DownloadTask),
        downloadTasks dest size !! i = Some task ->
        partNumber task = Z.of_nat i + 1
        /\ start task = Z.of_nat i * DOWNLOAD_CHUNK_SIZE
        /\ end_ task + 1 = Z.min ((Z.of_nat i + 1) * DOWNLOAD_CHUNK_SIZE) size
        /\ start task <= end_ task)
  /\ exists evs fs',
       downloadLargeFile net dest size fs = (evs, fs', Ok tt)
       /\ fsRead dest fs' = Ok object.
Proof.
  intros size Hserve Hbudget.
  assert (Hc : 0 < DOWNLOAD_CHUNK_SIZE) by reflexivity.
  split; [|split].
  - unfold downloadTasks. rewrite length_downloadTasksOf.
    pose proof (ceilDiv_nonneg size DOWNLOAD_CHUNK_SIZE Hc ltac:(subst size; lia)).
    unfold numPartsOf. lia.
  - intros i task Hi.
    destruct (downloadTasksOf_lookup DOWNLOAD_CHUNK_SIZE Hc dest size i task
                ltac:(subst size; lia) Hi) as (? & ? & ? & ? & _).
    auto.
  - apply (downloadLargeFileWith_roundtrip DOWNLOAD_CHUNK_SIZE Hc); assumption.
Qed.

Lemma downloadLargeFile_roundtrip_witness :
  Z.of_nat (length (downloadTasks "/tmp/r" (Z.of_nat (length tenBytes))))
  = ceilDiv (Z.of_nat (length tenBytes)) DOWNLOAD_CHUNK_SIZE
  /\ (forall (i : nat) (task : DownloadTask),
        downloadTasks "/tmp/r" (Z.of_nat (length tenBytes)) !! i = Some task ->
        partNumber task = Z.of_nat i + 1
        /\ start task = Z.of_nat i * DOWNLOAD_CHUNK_SIZE
        /\ end_ task + 1
           = Z.min ((Z.of_nat i + 1) * DOWNLOAD_CHUNK_SIZE) (Z.of_nat (length tenBytes))
        /\ start task <= end_ task)
  /\ exists evs fs',
       downloadLargeFile (reliableStore tenBytes) "/tmp/r"
         (Z.of_nat (length tenBytes)) ∅ = (evs, fs', Ok tt)
       /\ fsRead "/tmp/r" fs' = Ok tenBytes.
Proof.
  apply (downloadLargeFile_roundtrip tenBytes (reliableStore tenBytes) "/tmp/r" ∅).
  - apply servesObject_reliableStore.
  - apply withinRetryBudget_reliableStore.
Defined.

(** The same engine run with four-byte chunks on a ten-byte object served
    by a store that fails twice before answering: three parts, each
    fetched on the third attempt, reassembled in order. *)
Example downloadLargeFileWith_flaky :
  let '(evs, fs', r) := downloadLargeFileWith 4 (flakyStore tenBytes) "/tmp/r" 10 ∅ in
  r = Ok tt /\ fsRead "/tmp/r" fs' = Ok tenBytes
  /\ attemptsOf evs = [1; 2; 3; 1; 2; 3; 1; 2; 3]
  /\ sleepsOf evs = [1000; 2000; 1000; 2000; 1000; 2000].
Proof. vm_compute. repeat split; reflexivity. Qed.

(** *** Retry policy *)

Lemma partResult_Throw_inv (net : RangeNetwork) (total : Z) (task : DownloadTask)
    (m : string) :
  partResult net total task = Throw m ->
  (forall k, 1 <= k <= MAX_RETRIES ->
             transportFailure (net (start task) (end_ task) k) = true)
  /\ exists cause, m = exhaustedMessage (partNumber task) total cause.
Proof.
  unfold partResult. intros H.
  destruct (downloadRangeWithRetry_spec net (start task) (end_ task)
              (partNumber task) total) as (a & Ha & _ & Hbefore & Hat).
  destruct (transportFailure (net (start task) (end_ task) a)) eqn:Fa.
  - destruct Hat as (-> & _ & _ & cause & Hc). split.
    + intros k Hk. destruct (Z.eq_dec k MAX_RETRIES) as [->|Hne]; [exact Fa|].
      apply Hbefore. lia.
    + exists cause. congruence.
  - destruct Hat as (_ & st & txt & data & _ & Hok & _). congruence.
Qed.

Lemma partResult_all_fail (net : RangeNetwork) (total : Z) (task : DownloadTask) :
  (forall k, 1 <= k <= MAX_RETRIES ->
             transportFailure (net (start task) (end_ task) k) = true) ->
  exists cause, partResult net total task
                = Throw (exhaustedMessage (partNumber task) total cause).
Proof.
  intros Hall. unfold partResult.
  destruct (downloadRangeWithRetry_spec net (start task) (end_ task)
              (partNumber task) total) as (a & Ha & _ & _ & Hat).
  rewrite (Hall a Ha) in Hat. destruct Hat as (_ & _ & _ & cause & Hc).
  exists cause. exact Hc.
Qed.

(** C3.  One part download issues attempts [1 .. a] with [a <= MAX_RETRIES],
    stopping at the first attempt that is not a transport failure
    (rejected request, non-2xx status, unreadable body).  After failed
    attempt [k] it waits [RETRY_DELAY_MS * 2 ^ (k - 1)], except after the
    last attempt.  A 2xx response is returned as the part's data whatever
    its length: a length other than the range's only adds a warning.  When
    all [MAX_RETRIES] attempts fail the part fails with a message naming
    its number and the number of parts, and then the whole download fails
    with such a message for a part all of whose attempts failed. *)
Theorem downloadRangeWithRetry_policy (net : RangeNetwork) :
  (forall s e p n : Z,
     let run := downloadRangeWithRetry net s e p n in
     exists a : Z,
       1 <= a <= MAX_RETRIES
       /\ attemptsOf (fst run) = seqZ 1 a
       /\ (forall k, 1 <= k < a -> transportFailure (net s e k) = true)
       /\ if transportFailure (net s e a) then
            a = MAX_RETRIES
            /\ sleepsOf (fst run) = backoffDelay <$> seqZ 1 (MAX_RETRIES - 1)
            /\ mismatchesOf (fst run) = []
            /\ exists cause, snd run = Throw (exhaustedMessage p n cause)
          else
            sleepsOf (fst run) = backoffDelay <$> seqZ 1 (a - 1)
            /\ exists st txt data,
                 net s e a = FetchResponse st txt (BodyBytes data)
                 /\ snd run = Ok data
                 /\ mismatchesOf (fst run)
                    = if Z.of_nat (length data) =? e - s + 1 then []
                      else [(e - s + 1, Z.of_nat (length data))])
  /\ (forall (dest : string) (size : Z) (fs : FileSystem) (task : DownloadTask),
        task ∈ downloadTasks dest size ->
        (forall k, 1 <= k <= MAX_RETRIES ->
                   transportFailure (net (start task) (end_ task) k) = true) ->
        exists evs fs' failed cause,
          failed ∈ downloadTasks dest size
          /\ (forall k, 1 <= k <= MAX_RETRIES ->
                        transportFailure (net (start failed) (end_ failed) k) = true)
          /\ downloadLargeFile net dest size fs
             = (evs, fs', Throw (exhaustedMessage (partNumber failed)
                                   (numParts size) cause))).
Proof.
  split.
  - intros s e p n run. apply downloadRangeWithRetry_spec.
  - intros dest size fs task Hin Hall.
    unfold downloadLargeFile, downloadLargeFileWith.
    fold (downloadTasks dest size) (numParts size).
    destruct (batchLoop_result net (numParts size) (downloadTasks dest size)
                (length (downloadTasks dest size)) 0 fs ltac:(lia))
      as (evs & fs1 & r & -> & Hr).
    { rewrite length_drop. lia. }
    destruct r as [[]|m].
    + change (drop (Z.to_nat 0) (downloadTasks dest size))
        with (downloadTasks dest size) in Hr.
      destruct Hr as [Hok _]. rewrite Forall_forall in Hok.
      specialize (Hok task Hin).
      destruct (partResult_all_fail net (numParts size) task Hall) as (cause & Hc).
      rewrite Hc in Hok. discriminate.
    + apply Exists_exists in Hr as (failed & Hf & Hm).
      apply partResult_Throw_inv in Hm as (Hfail & cause & ->).
      exists evs, fs1, failed, cause. auto.
Qed.

(** A download whose second part never gets through fails naming part 2
    of 3. *)
Example downloadLargeFileWith_part_lost :
  let net : RangeNetwork :=
    fun s e k => if s =? 4 then FetchRejected "ETIMEDOUT" else reliableStore tenBytes s e k in
  snd (downloadLargeFileWith 4 net "/tmp/r" 10 ∅)
  = Throw "Failed to download part 2/3 after 3 attempts: ETIMEDOUT".
Proof. vm_compute. reflexivity. Qed.

(* ===================================================================== *)
(** ** Managed paths                                                      *)
(* ===================================================================== *)

Example splitOn_example : splitOn slash "/data//world/" = [""; "data"; ""; "world"; ""].
Proof. reflexivity. Qed.

Example posixNormalize_examples :
  posixNormalize "/data/../etc/passwd" = "/etc/passwd"
  /\ posixNormalize "/data/./world//region/" = "/data/world/region/"
  /\ posixNormalize "/.." = "/"
  /\ posixNormalize "a/../../b" = "../b"
  /\ posixNormalize "./" = "./".
Proof. repeat split; reflexivity. Qed.

Example resolveManagedPath_examples :
  resolveManagedPath ["/data"] (Some "/data/world/region") false
    = Ok (mkResolved "/data/world/region" "/data" (Some "/data/world"))
  /\ resolveManagedPath ["/data"] (Some " data/ ") false
    = Ok (mkResolved "/data" "/data" None)
  /\ resolveManagedPath ["/data"] (Some "/data/../etc/passwd") false
    = Throw "Path is outside managed roots"
  /\ resolveManagedPath ["/data"] (Some "/database") false
    = Throw "Path is outside managed roots"
  /\ resolveManagedPath ["/"] (Some "../../etc/passwd") false
    = Ok (mkResolved "/etc/passwd" "/" (Some "/etc"))
  /\ resolveManagedPath ["/data"] None true
    = Ok (mkResolved "/data" "/data" None)
  /\ resolveManagedPath ["/data"] (Some "   ") false = Throw "Path is required".
Proof. repeat split; reflexivity. Qed.

(** *** Splitting and joining *)

Lemma splitOn_nonempty (sep : ascii) (s : string) : splitOn sep s <> [].
Proof.
  destruct s as [|c s]; simpl; [discriminate|].
  destruct (Ascii.eqb c sep); [discriminate|].
  destruct (splitOn sep s); discriminate.
Qed.

Lemma splitOn_cons_sep (s : string) : splitOn slash (String slash s) = "" :: splitOn slash s.
Proof. reflexivity. Qed.

Lemma splitOn_cons_other (c : ascii) (s : string) :
  Ascii.eqb c slash = false ->
  splitOn slash (String c s)
  = match splitOn slash s with
    | piece :: pieces => String c piece :: pieces
    | [] => [String c ""]
    end.
Proof. intros H. simpl. now rewrite H. Qed.

Lemma splitOn_noSlash (s : string) : hasSlash s = false -> splitOn slash s = [s].
Proof.
  induction s as [|c s IH]; intros H; [reflexivity|].
  simpl in H. apply orb_false_iff in H as [Hc Hs].
  rewrite splitOn_cons_other by exact Hc. now rewrite (IH Hs).
Qed.

Lemma splitOn_app (a b : string) :
  splitOn slash (a +:+ String slash b) = splitOn slash a ++ splitOn slash b.
Proof.
  induction a as [|c a IH].
  - reflexivity.
  - rewrite append_cons. destruct (Ascii.eqb c slash) eqn:E.
    + apply Ascii.eqb_eq in E. subst c. rewrite !splitOn_cons_sep, IH. reflexivity.
    + rewrite !splitOn_cons_other by exact E. rewrite IH.
      destruct (splitOn slash a) eqn:Ea; [now apply splitOn_nonempty in Ea|].
      reflexivity.
Qed.

Lemma splitOn_hasSlash (s : string) : Forall (fun p => hasSlash p = false) (splitOn slash s).
Proof.
  induction s as [|c s IH]; [repeat constructor|].
  destruct (Ascii.eqb c slash) eqn:E.
  - apply Ascii.eqb_eq in E. subst c. rewrite splitOn_cons_sep.
    constructor; [reflexivity | exact IH].
  - rewrite splitOn_cons_other by exact E.
    destruct (splitOn slash s) as [|p ps]; [repeat constructor; simpl; now rewrite E|].
    inversion IH; subst. constructor; [simpl; now rewrite E | assumption].
Qed.

Lemma splitOn_joinWith (segments : list string) :
  Forall (fun p => hasSlash p = false) segments -> segments <> [] ->
  splitOn slash (joinWith "/" segments) = segments.
Proof.
  induction segments as [|p ps IH]; intros Hall Hne; [congruence|].
  inversion Hall as [|? ? Hp Hps]; subst.
  destruct ps as [|q qs].
  - simpl. now apply splitOn_noSlash.
  - change (joinWith "/" (p :: q :: qs)) with (p +:+ String slash (joinWith "/" (q :: qs))).
    rewrite splitOn_app, (splitOn_noSlash p Hp), IH by (auto; discriminate).
    reflexivity.
Qed.

(** *** Normalisation *)

Lemma normalizeStep_proper (allow : bool) (stack : list string) (seg : string) :
  properSegment seg -> normalizeStep allow stack seg = seg :: stack.
Proof.
  intros (H1 & H2 & H3 & _). unfold normalizeStep.
  apply String.eqb_neq in H1, H2, H3. now rewrite H1, H2, H3.
Qed.

Lemma normalizeStep_empty (allow : bool) (stack : list string) :
  normalizeStep allow stack "" = stack.
Proof. reflexivity. Qed.

Lemma foldl_normalizeStep_proper (allow : bool) (segs : list string) :
  forall stack, Forall properSegment segs ->
    foldl (normalizeStep allow) stack segs = rev segs ++ stack.
Proof.
  induction segs as [|s segs IH]; intros stack H; [reflexivity|].
  inversion H; subst. simpl. rewrite normalizeStep_proper by assumption.
  rewrite IH by assumption. now rewrite <- app_assoc.
Qed.

Lemma normalizeStep_keeps_proper (stack : list string) (seg : string) :
  hasSlash seg = false -> Forall properSegment stack ->
  Forall properSegment (normalizeStep false stack seg).
Proof.
  intros Hs Hstack. unfold normalizeStep.
  destruct (String.eqb seg "") eqn:E1; [exact Hstack|].
  destruct (String.eqb seg ".") eqn:E2; [exact Hstack|].
  destruct (String.eqb seg "..") eqn:E3.
  - destruct stack as [|last rest]; [constructor|].
    destruct (String.eqb last ".."); [exact Hstack|].
    now inversion Hstack.
  - simpl. constructor; [|exact Hstack].
    apply String.eqb_neq in E1, E2, E3. now repeat split.
Qed.

Lemma foldl_normalizeStep_keeps_proper (segs : list string) :
  forall stack,
    Forall (fun p => hasSlash p = false) segs -> Forall properSegment stack ->
    Forall properSegment (foldl (normalizeStep false) stack segs).
Proof.
  induction segs as [|s segs IH]; intros stack Hs Hstack; [exact Hstack|].
  inversion Hs; subst. simpl. apply IH; [assumption|].
  now apply normalizeStep_keeps_proper.
Qed.

(** The resolved segments of a path are proper: none is empty, ["."] or
    [".."], so the resolved path names no parent directory. *)
Lemma pathSegments_proper (path : string) : Forall properSegment (pathSegments path).
Proof.
  unfold pathSegments, normalizeSegments. apply Forall_rev.
  apply foldl_normalizeStep_keeps_proper; [apply splitOn_hasSlash | constructor].
Qed.

Lemma normalizeSegments_padded (before after : nat) (segs : list string) :
  Forall properSegment segs ->
  normalizeSegments false (replicate before "" ++ segs ++ replicate after "") = segs.
Proof.
  intros H. unfold normalizeSegments. rewrite !foldl_app.
  assert (E : forall n stack, foldl (normalizeStep false) stack (replicate n "") = stack).
  { induction n as [|n IH]; intros stack; [reflexivity | apply IH]. }
  rewrite !E, foldl_normalizeStep_proper by exact H.
  now rewrite app_nil_r, rev_involutive.
Qed.

Lemma joinWith_proper_empty (segs : list string) :
  Forall properSegment segs -> joinWith "/" segs = "" -> segs = [].
Proof.
  intros H E. destruct segs as [|s segs]; [reflexivity|].
  inversion H as [|? ? (Hne & _) _]; subst.
  destruct s; [congruence|]. destruct segs; discriminate.
Qed.

Lemma proper_hasSlash (segs : list string) :
  Forall properSegment segs -> Forall (fun p => hasSlash p = false) segs.
Proof. intros H. eapply Forall_impl; [exact H|]. now intros s (_ & _ & _ & ?). Qed.

Lemma posixResolveRoot_absolute (x : string) :
  posixResolveRoot (String slash x)
  = "/" +:+ joinWith "/" (normalizeSegments false ("" :: splitOn slash (x +:+ "/"))).
Proof. reflexivity. Qed.

(** Resolving the rendering of proper segments, with or without a
    trailing slash, gives the rendering back. *)
Lemma posixResolveRoot_render (segs : list string) (trailing : bool) :
  Forall properSegment segs -> segs <> [] ->
  posixResolveRoot (String slash (joinWith "/" segs +:+ (if trailing then "/" else "")))
  = renderPath segs.
Proof.
  intros H Hne. rewrite posixResolveRoot_absolute.
  unfold renderPath. do 2 f_equal.
  destruct trailing.
  - rewrite append_assoc.
    change ("/" +:+ "/") with (String slash (String slash "")).
    rewrite splitOn_app, splitOn_joinWith by (auto using proper_hasSlash).
    apply (normalizeSegments_padded 1 2 segs H).
  - rewrite append_nil_r.
    change "/" with (String slash "") at 2.
    rewrite splitOn_app, splitOn_joinWith by (auto using proper_hasSlash).
    apply (normalizeSegments_padded 1 1 segs H).
Qed.

Lemma startsWith_slash (x : string) : startsWith (String slash x) "/" = true.
Proof. reflexivity. Qed.

Lemma startsWith_slash_inv (c : string) :
  startsWith c "/" = true -> exists x, c = String slash x.
Proof.
  destruct c as [|ch x]; [discriminate|]. cbn [startsWith].
  rewrite andb_true_r. intros H. apply Ascii.eqb_eq in H. subst ch. eauto.
Qed.

Lemma posixNormalize_absolute (x : string) :
  let segs := normalizeSegments false (splitOn slash (String slash x)) in
  posixNormalize (String slash x)
  = if String.eqb (joinWith "/" segs) "" then "/"
    else String slash (joinWith "/" segs
                       +:+ (if endsWithSlash (String slash x) then "/" else "")).
Proof.
  intros segs. unfold posixNormalize.
  change (String.eqb (String slash x) "") with false. cbv iota.
  rewrite startsWith_slash. cbn [negb]. unfold normalizeString. fold segs.
  destruct (String.eqb (joinWith "/" segs) ""); [reflexivity|].
  destruct (endsWithSlash (String slash x)); [reflexivity|].
  now rewrite append_nil_r.
Qed.

(** The absolute path computed for a candidate is the rendering of the
    candidate's resolved segments. *)
Lemma absolutePathOf_render (candidate : string) :
  absolutePathOf candidate = renderPath (pathSegments candidate).
Proof.
  unfold absolutePathOf.
  assert (E : exists y,
            (if startsWith candidate "/" then candidate else "/" +:+ candidate)
            = String slash y
            /\ normalizeSegments false (splitOn slash (String slash y))
               = pathSegments candidate).
  { destruct (startsWith candidate "/") eqn:S.
    - apply startsWith_slash_inv in S as (x & ->). eauto.
    - exists candidate. split; reflexivity. }
  destruct E as (y & -> & Hsegs).
  rewrite posixNormalize_absolute. cbv zeta. rewrite Hsegs.
  pose proof (pathSegments_proper candidate) as Hp.
  destruct (String.eqb (joinWith "/" (pathSegments candidate)) "") eqn:Ej.
  - apply String.eqb_eq in Ej.
    rewrite (joinWith_proper_empty _ Hp Ej). reflexivity.
  - apply posixResolveRoot_render; [exact Hp|].
    intros Hnil. rewrite Hnil in Ej. discriminate.
Qed.

(** *** The root test, on segments *)

Lemma renderPath_flatPath (segs : list string) :
  segs <> [] -> renderPath segs = flatPath segs.
Proof.
  intros Hne. unfold renderPath. destruct segs as [|s segs]; [congruence|]. clear Hne.
  change ("/" +:+ ?x) with (String slash x). revert s.
  induction segs as [|t segs IH]; intros s.
  - simpl. now rewrite append_nil_r.
  - change (joinWith "/" (s :: t :: segs)) with (s +:+ String slash (joinWith "/" (t :: segs))).
    rewrite (IH t). reflexivity.
Qed.

Lemma flatPath_app (a b : list string) : flatPath (a ++ b) = flatPath a +:+ flatPath b.
Proof.
  induction a as [|s a IH]; [reflexivity|].
  simpl. now rewrite IH, append_assoc.
Qed.

Lemma slashy_flatPath (segs : list string) : slashy (flatPath segs).
Proof. destruct segs; [now left | right; eauto]. Qed.

Lemma segment_cancel (s : string) :
  forall (r u v : string),
    hasSlash s = false -> hasSlash r = false -> slashy u -> slashy v ->
    s +:+ u = r +:+ v -> s = r /\ u = v.
Proof.
  induction s as [|c s IH]; intros r u v Hs Hr Hu Hv E.
  - destruct r as [|d r]; [now split|]. exfalso.
    rewrite append_nil_l, append_cons in E.
    destruct Hu as [->|(x & ->)]; [discriminate|].
    injection E as <- _. simpl in Hr. discriminate.
  - destruct r as [|d r].
    + exfalso. rewrite append_nil_l, append_cons in E.
      destruct Hv as [->|(x & ->)]; [discriminate|].
      injection E as -> _. simpl in Hs. discriminate.
    + rewrite !append_cons in E. injection E as -> E.
      simpl in Hs, Hr. apply orb_false_iff in Hs as [_ Hs], Hr as [_ Hr].
      destruct (IH r u v Hs Hr Hu Hv E) as [-> ->]. now split.
Qed.

Lemma flatPath_prefix (R : list string) :
  forall S : list string,
    Forall properSegment R -> Forall properSegment S ->
    (exists t, slashy t /\ flatPath S = flatPath R +:+ t) <-> R `prefix_of` S.
Proof.
  induction R as [|r R IH]; intros S HR HS.
  - split; [intros _; apply prefix_nil|].
    intros _. exists (flatPath S). split; [apply slashy_flatPath | reflexivity].
  - inversion HR as [|? ? Hr HR']; subst. split.
    + intros (t & Ht & E). destruct S as [|s S]; [discriminate|].
      inversion HS as [|? ? Hs HS']; subst.
      cbn [flatPath] in E. rewrite append_cons in E. injection E as E.
      rewrite append_assoc in E.
      apply segment_cancel in E as [-> E].
      * apply prefix_cons. apply IH; [assumption..|]. eauto.
      * apply Hs. * apply Hr. * apply slashy_flatPath.
      * destruct R; [exact Ht | right; eauto].
    + intros (k & ->). exists (flatPath k). split; [apply slashy_flatPath|].
      change (r :: R) with ([r] ++ R). rewrite <- !app_assoc, !flatPath_app.
      now rewrite !append_assoc.
Qed.

Lemma startsWith_spec (s p : string) :
  startsWith s p = true <-> exists t, s = p +:+ t.
Proof.
  revert s. induction p as [|c p IH]; intros s.
  - split; [intros _; now exists s | reflexivity].
  - destruct s as [|d s]; cbn [startsWith].
    + split; [discriminate | intros (t & E); discriminate].
    + rewrite andb_true_iff, Ascii.eqb_eq, IH. split.
      * intros (-> & t & ->). now exists t.
      * intros (t & E). rewrite append_cons in E. injection E as -> ->. eauto.
Qed.

Lemma underRoot_prefix (R S : list string) :
  Forall properSegment R -> Forall properSegment S ->
  underRoot (renderPath R) (renderPath S) = true <-> R `prefix_of` S.
Proof.
  intros HR HS. destruct R as [|r R].
  - split; [intros _; apply prefix_nil | reflexivity].
  - assert (Hroot : String.eqb (renderPath (r :: R)) "/" = false).
    { apply String.eqb_neq. rewrite renderPath_flatPath by discriminate.
      inversion HR as [|? ? (Hne & _) _]; subst. cbn [flatPath].
      destruct r; [congruence | discriminate]. }
    unfold underRoot. rewrite Hroot, orb_false_l.
    destruct S as [|s S].
    + split.
      * intros H. exfalso. apply orb_true_iff in H as [H|H].
        -- apply String.eqb_eq in H. symmetry in H.
           apply String.eqb_neq in Hroot. contradiction.
        -- apply startsWith_spec in H as (t & E).
           rewrite (renderPath_flatPath (r :: R)) in E by discriminate.
           inversion HR as [|? ? (Hne & _) _]; subst.
           cbn [flatPath] in E. unfold renderPath in E. cbn in E.
           injection E as E. destruct r; [congruence | discriminate].
      * intros (k & E). discriminate.
    + rewrite <- flatPath_prefix by assumption.
      rewrite !renderPath_flatPath by discriminate.
      rewrite orb_true_iff, String.eqb_eq, startsWith_spec. split.
      * intros [E|(t & E)].
        -- exists "". split; [now left | now rewrite append_nil_r].
        -- exists (String slash t). split; [right; eauto|].
           rewrite E, append_assoc. reflexivity.
      * intros (t & [->|(x & ->)] & E).
        -- left. now rewrite append_nil_r in E.
        -- right. exists x. rewrite E, append_assoc. reflexivity.
Qed.

(** *** What [resolveManagedPath] accepts *)

(** C5.  With managed roots given by proper segments (["/"] is the root
    with none, ["/data"] the root with the one segment [data]) and an
    input that yields a candidate path, [resolveManagedPath] returns the
    path's normalised absolute resolution exactly when the resolved
    segments extend the segments of some configured root (the root itself
    included; the root ["/"] accepts every path), and otherwise throws
    "Path is outside managed roots", which the gateway reports as 403.
    The resolved segments never contain [".."], so a ["../"] escape is
    judged by where it leads. *)
Theorem resolveManagedPath_accepts_exactly (rootSegments : list (list string))
    (rawPath : option string) (allowRootFallback : bool) (candidate : string) :
  Forall (Forall properSegment) rootSegments ->
  pathCandidate (renderPath <$> rootSegments) rawPath allowRootFallback = Some candidate ->
  Forall properSegment (pathSegments candidate)
  /\ match resolveManagedPath (renderPath <$> rootSegments) rawPath allowRootFallback with
     | Ok r =>
         absolute r = renderPath (pathSegments candidate)
         /\ exists R, R ∈ rootSegments /\ root r = renderPath R
                      /\ R `prefix_of` pathSegments candidate
     | Throw message =>
         message = "Path is outside managed roots"
         /\ (forall R, R ∈ rootSegments -> ~ R `prefix_of` pathSegments candidate)
         /\ readErrorStatus message = 403
         /\ writeErrorStatus message = 403
     end.
Proof.
  intros Hroots Hcand.
  pose proof (pathSegments_proper candidate) as Hsegs.
  split; [exact Hsegs|].
  unfold resolveManagedPath. rewrite Hcand, absolutePathOf_render.
  destruct (find _ _) as [rt|] eqn:F.
  - apply find_some in F as [Hin Hunder]. cbn [absolute root].
    split; [reflexivity|].
    apply list_elem_of_In, list_elem_of_fmap in Hin as (R & -> & HR).
    exists R. split; [exact HR|]. split; [reflexivity|].
    apply underRoot_prefix; [|exact Hsegs|exact Hunder].
    rewrite Forall_forall in Hroots. now apply Hroots.
  - split; [reflexivity|]. split; [|split; reflexivity].
    intros R HR Hpre.
    pose proof (find_none _ _ F (renderPath R)) as Hn. cbv beta in Hn.
    rewrite (proj2 (underRoot_prefix R (pathSegments candidate)
                      ltac:(rewrite Forall_forall in Hroots; now apply Hroots)
                      Hsegs) Hpre) in Hn.
    assert (In (renderPath R) (renderPath <$> rootSegments))
      by (apply list_elem_of_In, list_elem_of_fmap; eauto).
    specialize (Hn ltac:(assumption)). discriminate.
Qed.

Lemma properSegment_data : properSegment "data".
Proof. repeat split; discriminate. Qed.

Lemma resolveManagedPath_accepts_exactly_witness :
  Forall properSegment (pathSegments "/data/../etc/passwd")
  /\ match resolveManagedPath (renderPath <$> [["data"]])
             (Some "/data/../etc/passwd") false with
     | Ok r =>
         absolute r = renderPath (pathSegments "/data/../etc/passwd")
         /\ exists R, R ∈ [["data"]] /\ root r = renderPath R
                      /\ R `prefix_of` pathSegments "/data/../etc/passwd"
     | Throw message =>
         message = "Path is outside managed roots"
         /\ (forall R, R ∈ [["data"]] -> ~ R `prefix_of` pathSegments "/data/../etc/passwd")
         /\ readErrorStatus message = 403
         /\ writeErrorStatus message = 403
     end.
Proof.
  apply (resolveManagedPath_accepts_exactly [["data"]]
           (Some "/data/../etc/passwd") false "/data/../etc/passwd").
  - repeat constructor; discriminate.
  - reflexivity.
Defined.

(** The same analysis, for the two corollaries below. *)
Lemma resolveManagedPath_by_segments (rootSegments : list (list string))
    (rawPath : option string) (allowRootFallback : bool) (candidate : string) :
  Forall (Forall properSegment) rootSegments ->
  pathCandidate (renderPath <$> rootSegments) rawPath allowRootFallback = Some candidate ->
  Forall properSegment (pathSegments candidate)
  /\ match resolveManagedPath (renderPath <$> rootSegments) rawPath allowRootFallback with
     | Ok r =>
         absolute r = renderPath (pathSegments candidate)
         /\ exists R, R ∈ rootSegments /\ root r = renderPath R
                      /\ R `prefix_of` pathSegments candidate
     | Throw message =>
         message = "Path is outside managed roots"
         /\ (forall R, R ∈ rootSegments -> ~ R `prefix_of` pathSegments candidate)
         /\ readErrorStatus message = 403
         /\ writeErrorStatus message = 403
     end.
Proof.
  intros Hroots Hcand.
  pose proof (pathSegments_proper candidate) as Hsegs.
  split; [exact Hsegs|].
  unfold resolveManagedPath. rewrite Hcand, absolutePathOf_render.
  destruct (find _ _) as [rt|] eqn:F.
  - apply find_some in F as [Hin Hunder]. cbn [absolute root].
    split; [reflexivity|].
    apply list_elem_of_In, list_elem_of_fmap in Hin as (R & -> & HR).
    exists R. split; [exact HR|]. split; [reflexivity|].
    apply underRoot_prefix; [|exact Hsegs|exact Hunder].
    rewrite Forall_forall in Hroots. now apply Hroots.
  - split; [reflexivity|]. split; [|split; reflexivity].
    intros R HR Hpre.
    pose proof (find_none _ _ F (renderPath R)) as Hn. cbv beta in Hn.
    rewrite (proj2 (underRoot_prefix R (pathSegments candidate)
                      ltac:(rewrite Forall_forall in Hroots; now apply Hroots)
                      Hsegs) Hpre) in Hn.
    assert (In (renderPath R) (renderPath <$> rootSegments))
      by (apply list_elem_of_In, list_elem_of_fmap; eauto).
    specialize (Hn ltac:(assumption)). discriminate.
Qed.

(** Under the single root ["/"] every given path is accepted. *)
Corollary resolveManagedPath_root_slash (rawPath : option string)
    (allowRootFallback : bool) (candidate : string) :
  pathCandidate ["/"] rawPath allowRootFallback = Some candidate ->
  exists parent,
    resolveManagedPath ["/"] rawPath allowRootFallback
    = Ok (mkResolved (renderPath (pathSegments candidate)) "/" parent).
Proof.
  intros Hcand.
  destruct (resolveManagedPath_by_segments [[]] rawPath allowRootFallback
              candidate ltac:(repeat constructor) Hcand) as [_ H].
  change (renderPath <$> [[]]) with ["/"] in H.
  destruct (resolveManagedPath ["/"] rawPath allowRootFallback) as [r|m] eqn:E.
  - destruct H as (Ha & R & HR & Hroot & _).
    apply list_elem_of_singleton in HR. subst R.
    destruct r as [a ro pa]. cbn in Ha, Hroot. subst. eauto.
  - destruct H as (_ & Hno & _). exfalso.
    apply (Hno []); [apply list_elem_of_singleton; reflexivity | apply prefix_nil].
Qed.

(** Under the single root ["/data"] a given path is accepted exactly when
    its first resolved segment is [data]. *)
Corollary resolveManagedPath_root_data (rawPath : option string)
    (allowRootFallback : bool) (candidate : string) :
  pathCandidate ["/data"] rawPath allowRootFallback = Some candidate ->
  match resolveManagedPath ["/data"] rawPath allowRootFallback with
  | Ok r => absolute r = renderPath (pathSegments candidate)
            /\ exists rest, pathSegments candidate = "data" :: rest
  | Throw message =>
      message = "Path is outside managed roots"
      /\ forall rest, pathSegments candidate <> "data" :: rest
  end.
Proof.
  intros Hcand.
  destruct (resolveManagedPath_by_segments [["data"]] rawPath allowRootFallback
              candidate ltac:(repeat constructor; discriminate) Hcand) as [_ H].
  change (renderPath <$> [["data"]]) with ["/data"] in H.
  destruct (resolveManagedPath ["/data"] rawPath allowRootFallback) as [r|m].
  - destruct H as (Ha & R & HR & _ & (k & Hk)).
    apply list_elem_of_singleton in HR. subst R. split; [exact Ha | eauto].
  - destruct H as (-> & Hno & _). split; [reflexivity|].
    intros rest E. apply (Hno ["data"]); [apply list_elem_of_singleton; reflexivity|].
    exists rest. exact E.
Qed.

(* ===================================================================== *)
(** ** Maintenance mode                                                   *)
(* ===================================================================== *)

Example isMaintenanceModeEnabled_examples :
  isMaintenanceModeEnabled serverInMaintenance = true
  /\ isMaintenanceModeEnabled serverRunning = false.
Proof. split; vm_compute; reflexivity. Qed.

Example handleWriteFile_in_maintenance :
  handleWriteFile (Some "/data/server.properties") [x01; x02] serverInMaintenance
  = (setFiles {[ "/data" := FsDir; "/data/server.properties" := FsFile [x01; x02] ]}
       serverInMaintenance,
     Ok (mkResponse 200 (PathPayload "/data/server.properties"))).
Proof. vm_compute. reflexivity. Qed.

Example handleWriteFile_outside_roots :
  handleWriteFile (Some "/data/../etc/passwd") [x01] serverInMaintenance
  = (serverInMaintenance,
     Ok (mkResponse 403 (ErrorPayload "Path is outside managed roots"))).
Proof. vm_compute. reflexivity. Qed.

Example handleWriteFile_not_in_maintenance :
  handleWriteFile (Some "/data/../etc/passwd") [x01] serverRunning
  = (serverRunning, Ok (mkResponse 400 (ErrorPayload maintenanceMessage))).
Proof. vm_compute. reflexivity. Qed.

Example handleModrinthInstall_in_maintenance :
  handleModrinthInstall quietWorld
    (Some (mkModrinthPayload (Some " https://modrinth.com/modpack/x ") None))
    serverInMaintenance
  = (setDetached [ModrinthTask 0 "https://modrinth.com/modpack/x" None]
       (setTrace [Spawn ["mkdir"; "-p"; "/tmp/modpack-modrinth-mhg8cqrf-k3x9qa"]]
          (setModpackJobs {[ "modrinth-mhg8cqrf-k3x9qa" := 0%nat ]}
             (setModpackHeap
                [ModpackJob.mk "modrinth-mhg8cqrf-k3x9qa" ModpackJob.modrinth
                   ModpackJob.pending 1761998400123 1761998400123
                   (Some (ModpackJob.phaseOnly "queued")) None None]
                serverInMaintenance))),
     Ok (mkResponse 200
           (InstallStartedPayload "modrinth-mhg8cqrf-k3x9qa" ModpackJob.pending))).
Proof. vm_compute. reflexivity. Qed.

Lemma ensureMaintenance_off (s : Server) :
  isMaintenanceModeEnabled s = false ->
  ensureMaintenanceModeEnabled s = (s, Throw maintenanceMessage).
Proof. intros H. unfold ensureMaintenanceModeEnabled. now rewrite H. Qed.

Lemma ensureMaintenance_on (s : Server) :
  isMaintenanceModeEnabled s = true ->
  ensureMaintenanceModeEnabled s = (s, Ok tt).
Proof. intros H. unfold ensureMaintenanceModeEnabled. now rewrite H. Qed.

Lemma writeErrorStatus_maintenance : writeErrorStatus maintenanceMessage = 400.
Proof. vm_compute. reflexivity. Qed.

Lemma messageOr_maintenance (fallback : string) :
  messageOr maintenanceMessage fallback = maintenanceMessage.
Proof. reflexivity. Qed.

Lemma resolveManagedPath_Throw (roots : list string) (rawPath : option string)
    (fallback : bool) (m : string) :
  resolveManagedPath roots rawPath fallback = Throw m ->
  m = "Path is required" \/ m = "Path is outside managed roots".
Proof.
  unfold resolveManagedPath.
  destruct (pathCandidate _ _ _); [destruct (find _ _)|]; intros H;
    try discriminate; injection H as <-; auto.
Qed.

(** Unfolding of the server monad. *)
Ltac run :=
  unfold handleMutating, handleWriteFile, handleDeletePath, handleCreateDirectory,
    handleModrinthInstall, handleCurseforgeInstall, tryCatch, tryFinally,
    startPipeline, emit, detach, mbind, M_bind, mret, M_ret, throw, get, modify, liftResult, fsOp,
    registerModpackJob.

(** With maintenance mode off, every mutating request is answered 400 and
    leaves the server as it was. *)
Lemma handleMutating_maintenance_off (w : World) (req : MutatingRequest) (s : Server) :
  isMaintenanceModeEnabled s = false ->
  exists r,
    handleMutating w req s = (s, Ok r)
    /\ statusCode r = 400
    /\ (wellFormed req = true -> payload r = ErrorPayload maintenanceMessage).
Proof.
  intros Hoff. pose proof (ensureMaintenance_off s Hoff) as E.
  destruct req as [rawPath buffer|rawPath|bodyPath|body|body]; run.
  - rewrite E. eexists. split; [reflexivity|]. now split.
  - rewrite E. eexists. split; [reflexivity|]. now split.
  - rewrite E. eexists. split; [reflexivity|]. now split.
  - destruct body as [[u pv]|]; cbn [url packVersion wellFormed].
    + destruct (String.eqb (trim (default "" u)) "") eqn:Eu; cbn [negb].
      * eexists. split; [reflexivity|]. split; [reflexivity | discriminate].
      * rewrite E. eexists. split; [reflexivity|]. now split.
    + eexists. split; [reflexivity|]. split; [reflexivity | discriminate].
  - destruct body as [[[p|] [f|]]|]; cbn [projectId fileId wellFormed];
      try (eexists; split; [reflexivity|]; split; [reflexivity | discriminate]).
    rewrite E. eexists. split; [reflexivity|]. now split.
Qed.

(** With maintenance mode on, each mutating request goes on to its own
    checks and work. *)
Lemma handleMutating_maintenance_on (w : World) (req : MutatingRequest) (s : Server) :
  isMaintenanceModeEnabled s = true ->
  match req with
  | WriteFile rawPath buffer =>
      match resolveManagedPath (managedRoots s) rawPath false with
      | Throw m =>
          handleMutating w req s
          = (s, Ok (mkResponse (writeErrorStatus m) (ErrorPayload m)))
      | Ok target =>
          forall fs1 fs2,
            fsMkdirRecursive (posixDirname (absolute target)) (files s) = Ok fs1 ->
            fsWriteFile (absolute target) buffer fs1 = Ok fs2 ->
            handleMutating w req s
            = (setFiles fs2 s, Ok (mkResponse 200 (PathPayload (absolute target))))
      end
  | DeletePath rawPath =>
      match resolveManagedPath (managedRoots s) rawPath false with
      | Throw m =>
          handleMutating w req s
          = (s, Ok (mkResponse (writeErrorStatus m) (ErrorPayload m)))
      | Ok target =>
          handleMutating w req s
          = (setFiles (fsRmRecursive (absolute target) (files s)) s,
             Ok (mkResponse 200 (PathPayload (absolute target))))
      end
  | CreateDirectory bodyPath =>
      forall rawPath, bodyPath = Some rawPath -> trim rawPath <> "" ->
      match resolveManagedPath (managedRoots s) (Some rawPath) false with
      | Throw m =>
          handleMutating w req s
          = (s, Ok (mkResponse (writeErrorStatus m) (ErrorPayload m)))
      | Ok target =>
          forall fs1,
            fsMkdirRecursive (absolute target) (files s) = Ok fs1 ->
            handleMutating w req s
            = (setFiles fs1 s, Ok (mkResponse 200 (PathPayload (absolute target))))
      end
  | InstallModrinth body =>
      forall payload, body = Some payload -> wellFormed req = true ->
      let job := newModpackJob w ModpackJob.modrinth in
      handleMutating w req s
      = (withInstallJob job
           (fun ref => ModrinthTask ref (trim (default "" (url payload)))
                         (trim <$> packVersion payload)) s,
         Ok (mkResponse 200 (InstallStartedPayload (ModpackJob.id job) ModpackJob.pending)))
  | InstallCurseforge body =>
      forall p f, body = Some (mkCurseforgePayload (Some p) (Some f)) ->
      envTruthy "CURSEFORGE_API_KEY" s = true ->
      let job := newModpackJob w ModpackJob.curseforge in
      handleMutating w req s
      = (withInstallJob job (fun ref => CurseforgeTask ref p f) s,
         Ok (mkResponse 200 (InstallStartedPayload (ModpackJob.id job) ModpackJob.pending)))
  end.
Proof.
  intros Hon. pose proof (ensureMaintenance_on s Hon) as E.
  assert (Hm : forall m fb, m = "Path is required" \/ m = "Path is outside managed roots" ->
                            messageOr m fb = m)
    by (intros m fb [->| ->]; reflexivity).
  destruct req as [rawPath buffer|rawPath|bodyPath|body|body].
  - destruct (resolveManagedPath _ _ _) as [target|m] eqn:R.
    + intros fs1 fs2 H1 H2. run. now rewrite E, R, H1; cbn; rewrite H2.
    + run. rewrite E, R, (Hm m _ (resolveManagedPath_Throw _ _ _ _ R)). reflexivity.
  - destruct (resolveManagedPath _ _ _) as [target|m] eqn:R.
    + run. now rewrite E, R.
    + run. rewrite E, R, (Hm m _ (resolveManagedPath_Throw _ _ _ _ R)). reflexivity.
  - intros rawPath -> Hne.
    assert (Hb : String.eqb rawPath "" || String.eqb (trim rawPath) "" = false).
    { apply orb_false_iff. split; apply String.eqb_neq; [|exact Hne].
      intros ->. now apply Hne. }
    destruct (resolveManagedPath _ _ _) as [target|m] eqn:R.
    + intros fs1 H1. run. now rewrite E, Hb, R, H1.
    + run. rewrite E, Hb, R, (Hm m _ (resolveManagedPath_Throw _ _ _ _ R)). reflexivity.
  - intros payload -> Hwf job. cbn [wellFormed] in Hwf.
    apply negb_true_iff in Hwf. run. rewrite Hwf, E. reflexivity.
  - intros p f -> Hkey job. run. cbn [projectId fileId]. rewrite E, Hkey. reflexivity.
Qed.

(** X1.  With the maintenance flag off, a write, delete or
    create-directory request, and a package-install request, is answered
    400 and changes nothing: no file, no job, no detached work, no
    effect; the error is the maintenance-required one whenever the
    request is a gateway request or an install request whose body passes
    validation, whatever the path is.  With the flag on, the request goes
    on: the path decides between 403 and the file-system work, and a
    well-formed install request registers a pending job and detaches its
    pipeline. *)
Theorem maintenance_gate (w : World) (req : MutatingRequest) (s : Server) :
  (isMaintenanceModeEnabled s = false ->
   exists r,
     handleMutating w req s = (s, Ok r)
     /\ statusCode r = 400
     /\ (wellFormed req = true -> payload r = ErrorPayload maintenanceMessage))
  /\ (isMaintenanceModeEnabled s = true ->
      match req with
      | WriteFile rawPath buffer =>
          match resolveManagedPath (managedRoots s) rawPath false with
          | Throw m =>
              handleMutating w req s
              = (s, Ok (mkResponse (writeErrorStatus m) (ErrorPayload m)))
          | Ok target =>
              forall fs1 fs2,
                fsMkdirRecursive (posixDirname (absolute target)) (files s) = Ok fs1 ->
                fsWriteFile (absolute target) buffer fs1 = Ok fs2 ->
                handleMutating w req s
                = (setFiles fs2 s, Ok (mkResponse 200 (PathPayload (absolute target))))
          end
      | DeletePath rawPath =>
          match resolveManagedPath (managedRoots s) rawPath false with
          | Throw m =>
              handleMutating w req s
              = (s, Ok (mkResponse (writeErrorStatus m) (ErrorPayload m)))
          | Ok target =>
              handleMutating w req s
              = (setFiles (fsRmRecursive (absolute target) (files s)) s,
                 Ok (mkResponse 200 (PathPayload (absolute target))))
          end
      | CreateDirectory bodyPath =>
          forall rawPath, bodyPath = Some rawPath -> trim rawPath <> "" ->
          match resolveManagedPath (managedRoots s) (Some rawPath) false with
          | Throw m =>
              handleMutating w req s
              = (s, Ok (mkResponse (writeErrorStatus m) (ErrorPayload m)))
          | Ok target =>
              forall fs1,
                fsMkdirRecursive (absolute target) (files s) = Ok fs1 ->
                handleMutating w req s
                = (setFiles fs1 s, Ok (mkResponse 200 (PathPayload (absolute target))))
          end
      | InstallModrinth body =>
          forall payload, body = Some payload -> wellFormed req = true ->
          let job := newModpackJob w ModpackJob.modrinth in
          handleMutating w req s
          = (withInstallJob job
               (fun ref => ModrinthTask ref (trim (default "" (url payload)))
                             (trim <$> packVersion payload)) s,
             Ok (mkResponse 200
                   (InstallStartedPayload (ModpackJob.id job) ModpackJob.pending)))
      | InstallCurseforge body =>
          forall p f, body = Some (mkCurseforgePayload (Some p) (Some f)) ->
          envTruthy "CURSEFORGE_API_KEY" s = true ->
          let job := newModpackJob w ModpackJob.curseforge in
          handleMutating w req s
          = (withInstallJob job (fun ref => CurseforgeTask ref p f) s,
             Ok (mkResponse 200
                   (InstallStartedPayload (ModpackJob.id job) ModpackJob.pending)))
      end).
Proof.
  split.
  - apply handleMutating_maintenance_off.
  - apply handleMutating_maintenance_on.
Qed.

(** An install request whose body is not JSON is answered
    400 "Invalid JSON body" with the flag off, not the
    maintenance-required error: the body is looked at first. *)
Lemma install_invalid_body_not_maintenance_error :
  isMaintenanceModeEnabled serverRunning = false
  /\ handleMutating quietWorld (InstallModrinth None) serverRunning
     = (serverRunning, Ok (mkResponse 400 (ErrorPayload "Invalid JSON body")))
  /\ String.eqb "Invalid JSON body" maintenanceMessage = false.
Proof. repeat split; vm_compute; reflexivity. Qed.

(* ===================================================================== *)
(** ** Restore                                                            *)
(* ===================================================================== *)

Example handleRestore_quiet :
  handleRestore quietWorld "/data/world" someKey serverRunning
  = (setTrace [HeadRequest someKey; ObjectGet someKey;
               Spawn ["mkdir"; "-p"; "/data"];
               Spawn (extractArgv "/tmp/restore_20251101_120000.tar.gz" "/data")]
       (setRestoreCount 1 serverRunning),
     Ok (mkResponse 200 (RestorePayload someKey "/data/world" 10 "complete restore"))).
Proof. vm_compute. reflexivity. Qed.

Example handleRestore_traversal :
  handleRestore quietWorld "/data/world" "../etc/passwd" serverRunning
  = (setRestoreCount 1 serverRunning,
     Ok (mkResponse 400 (ErrorPayload "Invalid backup filename"))).
Proof. vm_compute. reflexivity. Qed.

Lemma includes_spec (s p : string) :
  includes s p = true <-> exists a b, s = a +:+ p +:+ b.
Proof.
  split.
  - induction s as [|c s IH]; cbn [includes]; rewrite orb_true_iff.
    + intros [H|H]; [|discriminate].
      apply startsWith_spec in H as (t & ->). now exists "", t.
    + intros [H|H].
      * apply startsWith_spec in H as (t & ->). now exists "", t.
      * destruct (IH H) as (a & b & ->). now exists (String c a), b.
  - intros (a & b & ->). induction a as [|c a IH].
    + rewrite append_nil_l.
      assert (H : startsWith (p +:+ b) p = true) by (apply startsWith_spec; eauto).
      destruct (p +:+ b); cbn [includes]; now rewrite H.
    + rewrite append_cons. cbn [includes]. rewrite IH. apply orb_true_r.
Qed.

(** A backup file name is refused when it contains [".."] or does not
    start with ["backups/"]. *)
Lemma invalidBackupFilename_spec (k : string) :
  invalidBackupFilename k = true
  <-> (exists a b, k = a +:+ ".." +:+ b) \/ ~ (exists t, k = "backups/" +:+ t).
Proof.
  unfold invalidBackupFilename.
  rewrite orb_true_iff, includes_spec, negb_true_iff, <- startsWith_spec.
  now rewrite not_true_iff_false.
Qed.

Lemma createS3Client_spec (s : Server) :
  createS3Client s
  = (s, if credentialsSet s then Ok tt
        else Throw "Missing AWS credentials in environment").
Proof. unfold createS3Client, credentialsSet. now destruct (_ && _). Qed.

Lemma extractBackup_Ok (w : World) (key directory tempFile : string) (fileSize : Z)
    (s s' : Server) (r : Response) :
  extractBackup w key directory tempFile fileSize s = (s', Ok r) ->
  r = mkResponse 200 (RestorePayload key directory (fsSize tempFile (files s))
                        "complete restore").
Proof.
  unfold extractBackup, ensureDirectory, spawn. run.
  destruct (negb (_ =? fileSize)); cbn;
    destruct (negb (procExit w ["mkdir"; "-p"; _] =? 0)); cbn; try discriminate;
    destruct (negb (procExit w (extractArgv _ _) =? 0)); cbn; try discriminate;
    now intros [= _ <-].
Qed.

Lemma handleRestore_unfold (w : World) (pathname key : string) (s : Server) :
  handleRestore w pathname key s
  = let inner :=
      if credentialsSet s then
        if invalidBackupFilename key then
          (restoreEntered s, Ok (mkResponse 400 (ErrorPayload "Invalid backup filename")))
        else
          let s1 := setTrace (trace s ++ [HeadRequest key]) (restoreEntered s) in
          match headObject w key with
          | FetchRejected message => (s1, Throw message)
          | FetchResponse status _ _ =>
              if responseOk status then
                let fileSize := default 0 (contentLength w key) in
                let tempFile := "/tmp/restore_" +:+ compactTimestamp (now w) +:+ ".tar.gz" in
                match downloadBackup w key tempFile fileSize s1 with
                | (s2, Ok _) =>
                    extractBackup w key (normalizeDirectory pathname) tempFile fileSize s2
                | (s2, Throw message) => (s2, Throw message)
                end
              else
                (s1, Ok (mkResponse 404 (ErrorPayload ("Backup not found: " +:+ key))))
          end
      else (restoreEntered s, Throw "Missing AWS credentials in environment") in
    match inner with
    | (s', Ok r) => (setActiveRestores (activeRestores s' - 1) s', Ok r)
    | (s', Throw message) =>
        (setActiveRestores (activeRestores s' - 1) s',
         Ok (mkResponse 500 (ErrorPayload ("Restore failed: " +:+ message))))
    end.
Proof.
  unfold handleRestore. run. fold (restoreEntered s).
  rewrite createS3Client_spec.
  change (credentialsSet (restoreEntered s)) with (credentialsSet s).
  destruct (credentialsSet s); [|reflexivity].
  destruct (invalidBackupFilename key); [reflexivity|].
  cbn [jsonResponse].
  destruct (headObject w key) as [m|st txt b]; [reflexivity|].
  destruct (responseOk st); cbn [negb]; [|reflexivity].
  destruct (downloadBackup _ _ _ _ _) as [s2 [[]|m]]; [|reflexivity].
  destruct (extractBackup _ _ _ _ _ _) as [s3 [r|m]]; reflexivity.
Qed.

(** X2.  [handleRestore] classifies its failures.  Without
    the storage credentials it answers 500 before looking at the key.
    With them, a key that contains [".."] or does not start with
    ["backups/"] is answered 400 with no request sent, no process started
    and no file touched; for a well-formed key, any non-2xx answer to the
    HEAD probe (an absent object or any other error status) is answered
    404, a rejected probe is answered 500, and after a 2xx probe the
    answer is 200 or 500 "Restore failed: ...". *)
Theorem handleRestore_error_classes (w : World) (pathname key : string) (s : Server) :
  let out := handleRestore w pathname key s in
  (credentialsSet s = false ->
   snd out = Ok (mkResponse 500
                   (ErrorPayload "Restore failed: Missing AWS credentials in environment"))
   /\ trace (fst out) = trace s)
  /\ (credentialsSet s = true -> invalidBackupFilename key = true ->
      snd out = Ok (mkResponse 400 (ErrorPayload "Invalid backup filename"))
      /\ trace (fst out) = trace s /\ files (fst out) = files s)
  /\ (credentialsSet s = true -> invalidBackupFilename key = false ->
      match headObject w key with
      | FetchRejected message =>
          snd out = Ok (mkResponse 500 (ErrorPayload ("Restore failed: " +:+ message)))
          /\ trace (fst out) = trace s ++ [HeadRequest key]
      | FetchResponse status _ _ =>
          if responseOk status then
            exists r, snd out = Ok r
                      /\ (statusCode r = 200
                          \/ exists message,
                               r = mkResponse 500
                                     (ErrorPayload ("Restore failed: " +:+ message)))
          else
            snd out = Ok (mkResponse 404 (ErrorPayload ("Backup not found: " +:+ key)))
            /\ trace (fst out) = trace s ++ [HeadRequest key]
      end).
Proof.
  intros out. subst out. rewrite handleRestore_unfold. cbv zeta.
  split; [|split].
  - intros ->. split; reflexivity.
  - intros -> ->. repeat split; reflexivity.
  - intros -> ->. destruct (headObject w key) as [m|st txt b].
    + split; reflexivity.
    + destruct (responseOk st); [|split; reflexivity].
      destruct (downloadBackup _ _ _ _ _) as [s2 [[]|m]].
      * destruct (extractBackup _ _ _ _ _ _) as [s3 [r|m]] eqn:E.
        -- exists r. split; [reflexivity|]. left.
           apply extractBackup_Ok in E. now subst r.
        -- eexists. split; [reflexivity|]. right. eauto.
      * eexists. split; [reflexivity|]. right. eauto.
Qed.

(** Two instances: a 503 answer to the HEAD probe, a generic storage
    failure, is reported as 404 "Backup not found"; and without storage
    credentials a traversal key is answered 500, not 400. *)
Lemma handleRestore_misclassified :
  (invalidBackupFilename someKey = false
   /\ headObject unavailableWorld someKey
      = FetchResponse 503 "Service Unavailable" (BodyBytes [])
   /\ snd (handleRestore unavailableWorld "/data/world" someKey serverRunning)
      = Ok (mkResponse 404 (ErrorPayload ("Backup not found: " +:+ someKey))))
  /\ (invalidBackupFilename "../etc/passwd" = true
      /\ snd (handleRestore quietWorld "/data/world" "../etc/passwd" (freshServer ∅))
         = Ok (mkResponse 500
                 (ErrorPayload "Restore failed: Missing AWS credentials in environment"))).
Proof. repeat split; vm_compute; reflexivity. Qed.

(** *** Size mismatch after the download *)

Example handleRestore_truncated :
  handleRestore truncatingWorld "/data/world" someKey serverRunning
  = (setTrace [HeadRequest someKey; ObjectGet someKey;
               DownloadedSizeMismatch 3 10;
               Spawn ["mkdir"; "-p"; "/data"];
               Spawn (extractArgv "/tmp/restore_20251101_120000.tar.gz" "/data")]
       (setRestoreCount 1 serverRunning),
     Ok (mkResponse 200 (RestorePayload someKey "/data/world" 3 "complete restore"))).
Proof. vm_compute. reflexivity. Qed.



(* ===================================================================== *)
(** ** Backup jobs                                                        *)
(* ===================================================================== *)

Example handleBackgroundBackupStart_fresh :
  handleBackgroundBackupStart archivingWorld "/data/world" "b1" serverRunning
  = (setDetached [BackupTask 0 someKey worldTemp (archiveArgv worldTemp "/data/world")]
       (setTrace [BackupStatusSet 0 BackupJob.running;
                  Spawn (archiveArgv worldTemp "/data/world")]
          (setBackupCount 1
             (setBackupJobs {[ "b1" := 0%nat ]}
                (setBackupHeap
                   [BackupJob.mk "b1" "/data/world" BackupJob.running 1761998400123
                      None None None]
                   serverRunning)))),
     Ok (mkResponse 200
           (BackupStartedPayload "b1" "/data/world" BackupJob.running 1761998400123))).
Proof. vm_compute. reflexivity. Qed.

Example resumeBackup_success :
  let s1 := fst (handleBackgroundBackupStart archivingWorld "/data/world" "b1" serverRunning) in
  let s2 := fst (resumeBackup archivingWorld 0 someKey worldTemp
                   (archiveArgv worldTemp "/data/world") s1) in
  lookupBackupJob "b1" s2
  = Some (BackupJob.mk "b1" "/data/world" BackupJob.success 1761998400123
            (Some 1761998400123)
            (Some (BackupJob.mkOutcome someKey 3 "complete backup")) None)
  /\ files s2 = ∅.
Proof. vm_compute. split; reflexivity. Qed.

Example resumeBackup_refused :
  let s1 := fst (handleBackgroundBackupStart refusingWorld "/data/world" "b1" serverRunning) in
  let s2 := fst (resumeBackup refusingWorld 0 someKey worldTemp
                   (archiveArgv worldTemp "/data/world") s1) in
  lookupBackupJob "b1" s2
  = Some (BackupJob.mk "b1" "/data/world" BackupJob.failed 1761998400123
            (Some 1761998400123) None (Some "Backup failed: AccessDenied")).
Proof. vm_compute. reflexivity. Qed.

(** Projections of an updated server. *)
Ltac proj :=
  cbn [env managedRoots files backupJobs backupHeap modpackJobs modpackHeap
       requestCount backupCount restoreCount activeRestores detached trace
       setFiles setBackupJobs setBackupHeap setModpackJobs setModpackHeap
       setRequestCount setBackupCount setRestoreCount setActiveRestores
       setDetached setTrace fst snd].

Ltac runBackup :=
  unfold resumeBackup, executeBackupJobResume, executeBackupJobStart, failBackupJob,
    setBackupStatus, updateBackupJob, storeBackupJob, discardTempFile,
    registerBackupJob; run.

Lemma lookup_new_object {A} (heap : list A) (x : A) : (heap ++ [x]) !! length heap = Some x.
Proof. now apply list_lookup_middle. Qed.

Lemma createS3Client_run (s : Server) :
  createS3Client s
  = (s, if credentialsSet s then Ok tt else Throw "Missing AWS credentials in environment").
Proof. apply createS3Client_spec. Qed.

Lemma server_ext (s t : Server) :
  env s = env t -> managedRoots s = managedRoots t -> files s = files t ->
  backupJobs s = backupJobs t -> backupHeap s = backupHeap t ->
  modpackJobs s = modpackJobs t -> modpackHeap s = modpackHeap t ->
  requestCount s = requestCount t -> backupCount s = backupCount t ->
  restoreCount s = restoreCount t -> activeRestores s = activeRestores t ->
  detached s = detached t -> trace s = trace t -> s = t.
Proof.
  destruct s, t; cbn; intros; subst; reflexivity.
Qed.

Ltac server_eq :=
  apply server_ext; proj; rewrite ?insert_insert_eq, <- ?app_assoc; try reflexivity.

Lemma alter_new_object {A} (f : A -> A) (heap : list A) (x : A) :
  alter f (length heap) (heap ++ [x]) = heap ++ [f x].
Proof.
  rewrite alter_app_r_alt by lia. now rewrite Nat.sub_diag.
Qed.

Lemma handleBackgroundBackupStart_fresh_run (w : World) (pathname id : string) (s : Server) :
  lookupBackupJob id s = None ->
  let directory := normalizeDirectory pathname in
  let ref := length (backupHeap s) in
  let backupFilename := generateBackupKey (directoryName directory) (now w) in
  let tempFile :=
    "/tmp/backup_" +:+ formatUTCDateYYYYMMDDHH (now w) +:+ "_" +:+ id +:+ ".tar.gz" in
  let argv := archiveArgv tempFile directory in
  handleBackgroundBackupStart w pathname id s
  = if credentialsSet s then
      (setDetached (detached s ++ [BackupTask ref backupFilename tempFile argv])
         (setTrace (trace s ++ [BackupStatusSet ref BackupJob.running; Spawn argv])
            (backupAccepted w directory id s)),
       Ok (mkResponse 200
             (BackupStartedPayload id directory BackupJob.running (now w))))
    else
      (setBackupHeap
         (backupHeap s
          ++ [BackupJob.mk id directory BackupJob.failed (now w) (Some (now w)) None
                (Some "Backup failed: Missing AWS credentials in environment")])
         (setTrace (trace s ++ [BackupStatusSet ref BackupJob.running;
                                BackupStatusSet ref BackupJob.failed])
            (backupAccepted w directory id s)),
       Ok (mkResponse 200
             (BackupStartedPayload id directory BackupJob.failed (now w)))).
Proof.
  intros Hnone directory ref backupFilename tempFile argv.
  unfold handleBackgroundBackupStart. run. rewrite Hnone. runBackup. proj.
  rewrite createS3Client_run. unfold credentialsSet, envTruthy. proj.
  fold (envTruthy "AWS_ACCESS_KEY_ID" s) (envTruthy "AWS_SECRET_ACCESS_KEY" s)
       (envTruthy "AWS_ENDPOINT_URL" s) (envTruthy "DATA_BUCKET_NAME" s).
  fold directory. subst ref backupFilename tempFile argv.
  destruct (_ && _); proj;
    rewrite !alter_new_object, ?lookup_new_object;
    unfold backupAccepted; f_equal; try server_eq;
    cbn [default Datatypes.id BackupJob.status BackupJob.startedAt BackupJob.withStatus
         BackupJob.withCompletedAt BackupJob.withError BackupJob.id BackupJob.directory
         BackupJob.completedAt BackupJob.result BackupJob.error];
    reflexivity.
Qed.

Lemma lookupBackupJob_setTrace (id : string) (t : list Effect) (s : Server) :
  lookupBackupJob id (setTrace t s) = lookupBackupJob id s.
Proof. reflexivity. Qed.

Lemma lookupBackupJob_setDetached (id : string) (d : list Detached) (s : Server) :
  lookupBackupJob id (setDetached d s) = lookupBackupJob id s.
Proof. reflexivity. Qed.

Lemma lookupBackupJob_backupAccepted (w : World) (directory id : string) (s : Server) :
  lookupBackupJob id (backupAccepted w directory id s)
  = Some (BackupJob.mk id directory BackupJob.running (now w) None None None).
Proof.
  unfold lookupBackupJob, backupAccepted. proj. rewrite lookup_insert_eq. cbn.
  apply lookup_new_object.
Qed.

Lemma lookupBackupJob_fresh_start (w : World) (pathname id : string) (s : Server) :
  lookupBackupJob id s = None ->
  lookupBackupJob id (fst (handleBackgroundBackupStart w pathname id s))
  = Some (BackupJob.mk id (normalizeDirectory pathname)
            (if credentialsSet s then BackupJob.running else BackupJob.failed)
            (now w) (if credentialsSet s then None else Some (now w)) None
            (if credentialsSet s then None
             else Some "Backup failed: Missing AWS credentials in environment")).
Proof.
  intros Hnone. rewrite (handleBackgroundBackupStart_fresh_run w pathname id s Hnone).
  destruct (credentialsSet s); cbn [fst].
  - rewrite lookupBackupJob_setDetached, lookupBackupJob_setTrace.
    apply lookupBackupJob_backupAccepted.
  - unfold lookupBackupJob, backupAccepted. proj. rewrite lookup_insert_eq. cbn.
    apply lookup_new_object.
Qed.



(** X5.  A start request for an id that names no job registers the job
    under that id, counts it, and answers 200 with the id, the normalised
    directory and the start time.  The status in the answer is never
    [pending]: the job has been marked running before the answer is
    built, and when the store's credentials are missing it has already
    failed by then.  Exactly when the credentials are there, one archive
    process has been started and its completion is awaited in the
    background. *)
Theorem handleBackgroundBackupStart_fresh_id (w : World) (pathname id : string) (s : Server) :
  lookupBackupJob id s = None ->
  let directory := normalizeDirectory pathname in
  let out := handleBackgroundBackupStart w pathname id s in
  let status := if credentialsSet s then BackupJob.running else BackupJob.failed in
  snd out = Ok (mkResponse 200 (BackupStartedPayload id directory status (now w)))
  /\ BackupJob.status <$> lookupBackupJob id (fst out) = Some status
  /\ BackupJob.directory <$> lookupBackupJob id (fst out) = Some directory
  /\ backupCount (fst out) = backupCount s + 1
  /\ files (fst out) = files s
  /\ detached (fst out)
     = detached s
       ++ (if credentialsSet s then
             let tempFile :=
               "/tmp/backup_" +:+ formatUTCDateYYYYMMDDHH (now w) +:+ "_" +:+ id
               +:+ ".tar.gz" in
             [BackupTask (length (backupHeap s))
                (generateBackupKey (directoryName directory) (now w)) tempFile
                (archiveArgv tempFile directory)]
           else []).
Proof.
  intros Hnone directory out status. subst out status.
  rewrite (lookupBackupJob_fresh_start w pathname id s Hnone).
  rewrite (handleBackgroundBackupStart_fresh_run w pathname id s Hnone).
  fold directory. destruct (credentialsSet s); cbn [fst snd]; proj;
    unfold backupAccepted; proj; rewrite ?app_nil_r; repeat split; reflexivity.
Qed.

Lemma handleBackgroundBackupStart_fresh_id_witness :
  snd (handleBackgroundBackupStart archivingWorld "/data/world" "b1" serverRunning)
  = Ok (mkResponse 200
          (BackupStartedPayload "b1" "/data/world" BackupJob.running (now archivingWorld))).
Proof.
  refine (proj1 (handleBackgroundBackupStart_fresh_id archivingWorld "/data/world" "b1"
                   serverRunning _)).
  vm_compute. reflexivity.
Defined.

(** X6.  Starting a backup is idempotent in the id: once a start request
    for an id has been handled, any later start request with that id, for
    whatever directory and at whatever time, leaves the server as it is
    (no second job, no second archive process, nothing counted) and
    answers 200 with the fields of the job already there. *)
Theorem handleBackgroundBackupStart_idempotent (w w' : World) (pathname pathname' id : string)
    (s : Server) :
  let s1 := fst (handleBackgroundBackupStart w pathname id s) in
  exists job,
    lookupBackupJob id s1 = Some job
    /\ handleBackgroundBackupStart w' pathname' id s1
       = (s1, Ok (mkResponse 200
                    (BackupExistingPayload (BackupJob.id job) (BackupJob.directory job)
                       (BackupJob.status job) (BackupJob.startedAt job)
                       (BackupJob.completedAt job)))).
Proof.
  intros s1.
  assert (exists job, lookupBackupJob id s1 = Some job) as [job Hjob].
  { subst s1. destruct (lookupBackupJob id s) as [job|] eqn:E.
    - exists job. unfold handleBackgroundBackupStart. run. rewrite E. exact E.
    - eexists. apply lookupBackupJob_fresh_start, E. }
  exists job. split; [exact Hjob|].
  unfold handleBackgroundBackupStart at 1. run. rewrite Hjob. reflexivity.
Qed.

Lemma follows_forward_backup (final : BackupJob.Status) :
  BackupJob.isTerminal final = true ->
  follows BackupJob.forward BackupJob.pending [BackupJob.running; final].
Proof.
  intros Hfinal. constructor; [constructor|]. constructor; [|constructor].
  destruct final; try discriminate; constructor.
Qed.

Lemma backupStatusesOf_app (ref : nat) (l1 l2 : list Effect) :
  backupStatusesOf ref (l1 ++ l2) = backupStatusesOf ref l1 ++ backupStatusesOf ref l2.
Proof. apply omap_app. Qed.

Lemma resumeBackup_run (w : World) (ref : nat) (backupFilename tempFile : string)
    (argv : list string) (s : Server) (job : BackupJob.t) :
  backupHeap s !! ref = Some job ->
  resumeBackup w ref backupFilename tempFile argv s
  = executeBackupJobResume w ref (BackupJob.id job) backupFilename tempFile argv s.
Proof. intros Hjob. unfold resumeBackup. run. rewrite Hjob. reflexivity. Qed.

Lemma executeBackupJobResume_terminal (w : World) (ref : nat) (id : string)
    (backupFilename tempFile : string) (argv : list string) (s : Server)
    (job : BackupJob.t) :
  backupHeap s !! ref = Some job ->
  let out := executeBackupJobResume w ref id backupFilename tempFile argv s in
  snd out = Ok tt
  /\ exists final added,
       BackupJob.status <$> lookupBackupJob id (fst out) = Some final
       /\ trace (fst out) = trace s ++ added
       /\ backupStatusesOf ref added = [final]
       /\ BackupJob.isTerminal final = true.
Proof.
  intros Hjob out. subst out. unfold lookupBackupJob. runBackup. proj.
  destruct (procExit w argv =? 0); cbn [negb]; proj;
    [destruct (archiveOf tempFile _) as [archive|]; proj;
     [destruct (putObject w backupFilename archive) as [[]|m]; proj|]|];
    (split; [reflexivity|]); eexists _, _;
    rewrite lookup_insert_eq; cbn [mbind option_bind];
    rewrite !list_lookup_alter_eq, Hjob; cbn;
    rewrite <- ?app_assoc;
    (split; [reflexivity|]; split; [reflexivity|]);
    cbn; rewrite Nat.eqb_refl; split; reflexivity.
Qed.

(** X7.  The life of a background backup.  From the start request for a
    fresh id to the end of the work it leaves behind, the job's status is
    assigned exactly twice: [running], then a terminal status, [success]
    or [failed]; so the job goes through the state machine
    pending -> running -> success | failed and no other way, the work in
    the background never rejects, and the status a poll then reads is the
    terminal one. *)
Theorem backup_job_lifecycle (w w' : World) (pathname id : string) (s : Server) :
  lookupBackupJob id s = None ->
  let ref := length (backupHeap s) in
  let s1 := fst (handleBackgroundBackupStart w pathname id s) in
  let out := runBackupTasks w' (drop (length (detached s)) (detached s1)) s1 in
  snd out = Ok tt
  /\ exists final,
       backupStatusesOf ref (drop (length (trace s)) (trace (fst out)))
       = [BackupJob.running; final]
       /\ BackupJob.isTerminal final = true
       /\ BackupJob.status <$> lookupBackupJob id (fst out) = Some final
       /\ follows BackupJob.forward BackupJob.pending [BackupJob.running; final].
Proof.
  intros Hnone ref s1 out.
  cut (snd out = Ok tt
       /\ exists final,
            backupStatusesOf ref (drop (length (trace s)) (trace (fst out)))
            = [BackupJob.running; final]
            /\ BackupJob.isTerminal final = true
            /\ BackupJob.status <$> lookupBackupJob id (fst out) = Some final).
  { intros (H1 & final & H2 & H3 & H4). split; [exact H1|]. exists final.
    repeat split; trivial. apply follows_forward_backup, H3. }
  subst out s1. rewrite (handleBackgroundBackupStart_fresh_run w pathname id s Hnone).
  destruct (credentialsSet s); cbn [fst]; proj.
  - rewrite drop_app_length. cbn [runBackupTasks]. run.
    set (job := BackupJob.mk id (normalizeDirectory pathname) BackupJob.running (now w)
                  None None None).
    match goal with |- context [resumeBackup w' ?r ?b ?t ?a ?st] =>
      set (s1 := st);
      assert (backupHeap s1 !! r = Some job) as Hjob
        by (subst s1; unfold backupAccepted; proj; apply lookup_new_object);
      rewrite (resumeBackup_run w' r b t a s1 job Hjob);
      destruct (executeBackupJobResume_terminal w' r (BackupJob.id job) b t a s1 job Hjob)
        as (Hok & final & added & Hstatus & Htrace & Hstatuses & Hfinal);
      destruct (executeBackupJobResume w' r (BackupJob.id job) b t a s1) as [s2 r2]
    end.
    cbn [fst snd] in Hok, Hstatus, Htrace. subst r2. cbn [fst snd].
    split; [reflexivity|]. exists final. split; [|split; assumption].
    rewrite Htrace. subst s1. proj. rewrite <- app_assoc, drop_app_length.
    unfold ref. rewrite backupStatusesOf_app, Hstatuses. cbn.
    rewrite Nat.eqb_refl. reflexivity.
  - rewrite drop_all. cbn [runBackupTasks]. run.
    split; [reflexivity|]. exists BackupJob.failed. cbn [fst]. proj.
    rewrite drop_app_length. cbn. unfold ref. rewrite Nat.eqb_refl.
    split; [reflexivity|]. split; [reflexivity|].
    unfold lookupBackupJob, backupAccepted. proj. rewrite lookup_insert_eq. cbn.
    rewrite lookup_new_object. reflexivity.
Qed.

Lemma backup_job_lifecycle_witness :
  let s1 := fst (handleBackgroundBackupStart archivingWorld "/data/world" "b1" serverRunning) in
  snd (runBackupTasks archivingWorld (drop (length (detached serverRunning)) (detached s1)) s1)
  = Ok tt.
Proof.
  refine (proj1 (backup_job_lifecycle archivingWorld archivingWorld "/data/world" "b1"
                   serverRunning _)).
  vm_compute. reflexivity.
Defined.

(* ===================================================================== *)
(** ** Integrity hashes                                                   *)
(* ===================================================================== *)

Example bufferToHex_example : bufferToHex [x00; x0f; xa5; xff] = "000fa5ff".
Proof. reflexivity. Qed.

Lemma joinWith_empty_cons (piece : string) (pieces : list string) :
  joinWith "" (piece :: pieces) = piece +:+ joinWith "" pieces.
Proof.
  destruct pieces as [|q qs]; [now rewrite append_nil_r|].
  cbn [joinWith]. now rewrite append_nil_l.
Qed.

Lemma bufferToHex_cons (b : byte) (buffer : list byte) :
  bufferToHex (b :: buffer) = padStart 2 "0"%char (byteToString16 b) +:+ bufferToHex buffer.
Proof. unfold bufferToHex. rewrite fmap_cons. apply joinWith_empty_cons. Qed.

Lemma byteHex_shape (b : byte) :
  exists hi lo,
    padStart 2 "0"%char (byteToString16 b) = String hi (String lo "")
    /\ Byte.of_N (16 * hexValue hi + hexValue lo) = Some b
    /\ lowerChar hi = hi /\ lowerChar lo = lo.
Proof. destruct b; do 2 eexists; repeat split. Qed.

Lemma hexToBuffer_bufferToHex (buffer : list byte) :
  hexToBuffer (bufferToHex buffer) = buffer.
Proof.
  induction buffer as [|b buffer IH]; [reflexivity|].
  rewrite bufferToHex_cons.
  destruct (byteHex_shape b) as (hi & lo & -> & Hb & _).
  rewrite !append_cons, append_nil_l. cbn [hexToBuffer]. now rewrite Hb, IH.
Qed.

(** X8.  [bufferToHex] writes every byte as two lower-case hexadecimal
    digits, so that the text has twice the length of the buffer, is left
    alone by [toLowerCase], and determines the buffer: two buffers with
    the same text are the same. *)
Theorem bufferToHex_faithful (a b : list byte) :
  String.length (bufferToHex a) = (2 * length a)%nat
  /\ toLowerCase (bufferToHex a) = bufferToHex a
  /\ hexToBuffer (bufferToHex a) = a
  /\ (bufferToHex a = bufferToHex b <-> a = b).
Proof.
  split; [|split; [|split]].
  - induction a as [|x a IH]; [reflexivity|].
    rewrite bufferToHex_cons.
    destruct (byteHex_shape x) as (hi & lo & -> & _).
    rewrite !append_cons, append_nil_l. cbn [String.length length]. lia.
  - induction a as [|x a IH]; [reflexivity|].
    rewrite bufferToHex_cons.
    destruct (byteHex_shape x) as (hi & lo & -> & _ & Hhi & Hlo).
    rewrite !append_cons, append_nil_l. cbn [toLowerCase]. now rewrite Hhi, Hlo, IH.
  - apply hexToBuffer_bufferToHex.
  - split; [|now intros ->].
    intros E. rewrite <- (hexToBuffer_bufferToHex a), <- (hexToBuffer_bufferToHex b).
    now rewrite E.
Qed.

Lemma checkHash_Ok (w : World) (buffer : list byte) (hashes : gmap string string)
    (key algorithm label : string) :
  checkHash w buffer hashes key algorithm label = Ok tt
  <-> (forall expected,
         hashes !! key = Some expected -> expected <> "" ->
         bufferToHex (digest w algorithm buffer) = toLowerCase expected).
Proof.
  unfold checkHash. destruct (hashes !! key) as [expected|]; [|split; [congruence|trivial]].
  destruct (String.eqb expected "") eqn:E.
  - apply String.eqb_eq in E. split; [|trivial]. intros _ e [= <-]. congruence.
  - destruct (String.eqb _ (toLowerCase expected)) eqn:Eh.
    + apply String.eqb_eq in Eh. split; [|trivial]. now intros _ e [= <-].
    + apply String.eqb_neq in Eh, E. split; [discriminate|].
      intros H. now specialize (H expected eq_refl E).
Qed.

(** X9.  What [verifyHash] accepts.  A downloaded buffer passes exactly
    when, for each of the two algorithms SHA-1 and SHA-512, the hash the
    manifest gives under [sha1] or [sha512] is absent or the empty string,
    or is, up to the case of its letters, the hex text of the buffer's
    digest.  No hashes at all always pass, and a buffer that does not
    pass is refused with "<algorithm> mismatch for <label>". *)
Theorem verifyHash_accepts (w : World) (buffer : list byte)
    (hashes : option (gmap string string)) (label : string) :
  (verifyHash w buffer hashes label = Ok tt
   <-> forall table key algorithm expected,
         hashes = Some table -> (key, algorithm) ∈ checkedAlgorithms ->
         table !! key = Some expected -> expected <> "" ->
         bufferToHex (digest w algorithm buffer) = toLowerCase expected)
  /\ (forall message,
        verifyHash w buffer hashes label = Throw message ->
        message = "SHA-1 mismatch for " +:+ label
        \/ message = "SHA-512 mismatch for " +:+ label).
Proof.
  split.
  - destruct hashes as [table|]; cbn [verifyHash]; [|split; [congruence|trivial]].
    pose proof (checkHash_Ok w buffer table "sha1" "SHA-1" label) as H1.
    pose proof (checkHash_Ok w buffer table "sha512" "SHA-512" label) as H2.
    split.
    + intros H t key algorithm expected [= <-] Hin.
      destruct (checkHash w buffer table "sha1" "SHA-1" label) as [[]|] eqn:E1;
        [|discriminate].
      unfold checkedAlgorithms in Hin. rewrite !elem_of_cons, elem_of_nil in Hin.
      destruct Hin as [[= -> ->]|[[= -> ->]|[]]].
      * now apply H1.
      * now apply H2.
    + intros H.
      assert (checkHash w buffer table "sha1" "SHA-1" label = Ok tt) as ->.
      { apply H1. intros e. apply (H table); [reflexivity|]. unfold checkedAlgorithms.
        rewrite elem_of_cons. now left. }
      apply H2. intros e. apply (H table); [reflexivity|]. unfold checkedAlgorithms.
      rewrite !elem_of_cons. right. now left.
  - intros message. destruct hashes as [table|]; cbn [verifyHash]; [|discriminate].
    unfold checkHash.
    destruct (table !! "sha1") as [e1|];
      [destruct (String.eqb e1 ""); [|destruct (String.eqb _ (toLowerCase e1))]|];
      try (intros [= <-]; now left);
      (destruct (table !! "sha512") as [e2|];
       [destruct (String.eqb e2 ""); [|destruct (String.eqb _ (toLowerCase e2))]|]);
      try discriminate; intros [= <-]; now right.
Qed.

(** X10.  [verifyHash] looks at no other algorithm: a hash the manifest
    gives under any name but [sha1] and [sha512] (say [md5] or
    [sha256]) changes nothing, whatever its value; with only such hashes
    every buffer passes. *)
Theorem verifyHash_ignores_other_algorithms (w : World) (buffer : list byte)
    (table : gmap string string) (key value label : string) :
  key <> "sha1" -> key <> "sha512" ->
  verifyHash w buffer (Some (<[key := value]> table)) label
  = verifyHash w buffer (Some table) label.
Proof.
  intros H1 H2. cbn [verifyHash]. unfold checkHash.
  now rewrite !lookup_insert_ne by congruence.
Qed.

Lemma verifyHash_ignores_other_algorithms_witness :
  verifyHash quietWorld tenBytes (Some (<["sha256" := "00"]> ∅)) "mods/a.jar"
  = verifyHash quietWorld tenBytes (Some ∅) "mods/a.jar".
Proof.
  apply (verifyHash_ignores_other_algorithms quietWorld tenBytes ∅ "sha256" "00" "mods/a.jar");
    discriminate.
Defined.

(* ===================================================================== *)
(** ** Paths of a manifest                                                *)
(* ===================================================================== *)

Example sanitizeRelativePath_examples :
  sanitizeRelativePath "mods/a.jar" = Ok "mods/a.jar"
  /\ sanitizeRelativePath "/etc//passwd" = Ok "etc/passwd"
  /\ sanitizeRelativePath "mods/../../x" = Throw "Unsafe path in manifest: mods/../../x"
  /\ sanitizeRelativePath "" = Ok "."
  /\ sanitizeRelativePath "..config/a" = Throw "Unsafe path in manifest: ..config/a"
  /\ posixJoin "/data" "." = "/data".
Proof. repeat split; reflexivity. Qed.

Lemma normalizeStep_aboveRoot (stack : list string) (seg : string) :
  hasSlash seg = false -> aboveRootStack stack ->
  aboveRootStack (normalizeStep true stack seg).
Proof.
  intros Hs (props & k & -> & Hprops). unfold normalizeStep.
  destruct (String.eqb seg "") eqn:E1; [now exists props, k|].
  destruct (String.eqb seg ".") eqn:E2; [now exists props, k|].
  cbn [orb].
  destruct (String.eqb seg "..") eqn:E3.
  - destruct props as [|p props].
    + destruct k as [|k]; cbn [app replicate].
      * exists [], 1%nat. split; [reflexivity | constructor].
      * cbn [String.eqb Ascii.eqb Bool.eqb]. exists [], (S (S k)).
        split; [reflexivity | constructor].
    + cbn [app]. inversion Hprops as [|? ? (_ & _ & Hp & _) Hrest]; subst.
      apply String.eqb_neq in Hp. rewrite Hp. now exists props, k.
  - exists (seg :: props), k. split; [reflexivity|].
    constructor; [|exact Hprops].
    apply String.eqb_neq in E1, E2, E3. now repeat split.
Qed.

Lemma foldl_normalizeStep_aboveRoot (segs : list string) :
  forall stack,
    Forall (fun p => hasSlash p = false) segs -> aboveRootStack stack ->
    aboveRootStack (foldl (normalizeStep true) stack segs).
Proof.
  induction segs as [|s segs IH]; intros stack Hs Hstack; [exact Hstack|].
  inversion Hs; subst. cbn [foldl]. apply IH; [assumption|].
  now apply normalizeStep_aboveRoot.
Qed.

Lemma normalizeSegments_aboveRoot (path : string) :
  exists (props : list string) (k : nat),
    normalizeSegments true (splitOn slash path) = replicate k ".." ++ props
    /\ Forall properSegment props.
Proof.
  destruct (foldl_normalizeStep_aboveRoot (splitOn slash path) []
              (splitOn_hasSlash path)) as (props & k & E & Hprops).
  { exists [], 0%nat. split; [reflexivity | constructor]. }
  exists (rev props), k. unfold normalizeSegments. rewrite E, rev_app_distr.
  split; [|now apply Forall_rev].
  f_equal. clear. induction k as [|k IH]; [reflexivity|].
  cbn [replicate rev]. rewrite IH. clear IH.
  induction k as [|k IH]; [reflexivity|]. cbn [replicate app]. now rewrite IH.
Qed.

Lemma stripLeadingSlashes_join (segs : list string) (tail : string) :
  Forall properSegment segs -> segs <> [] ->
  stripLeadingSlashes (joinWith "/" segs +:+ tail) = joinWith "/" segs +:+ tail.
Proof.
  intros H Hne. destruct segs as [|s segs]; [congruence|].
  inversion H as [|? ? (Hs & _ & _ & Hslash) _]; subst.
  destruct s as [|c s]; [congruence|].
  cbn [hasSlash] in Hslash. apply orb_false_iff in Hslash as [Hc _].
  destruct segs; cbn [joinWith]; rewrite !append_cons; cbn [stripLeadingSlashes];
    now rewrite Hc.
Qed.

(** What [sanitizeRelativePath] returns: ["."], ["./"], or proper
    segments joined by slashes, with or without a slash at the end. *)
Lemma sanitizeRelativePath_shape (relPath p : string) :
  sanitizeRelativePath relPath = Ok p ->
  p = "." \/ p = "./"
  \/ exists segs (trailing : bool),
       Forall properSegment segs /\ segs <> []
       /\ p = joinWith "/" segs +:+ (if trailing then "/" else "").
Proof.
  unfold sanitizeRelativePath.
  destruct (String.eqb _ "" || startsWith _ "..") eqn:Hcheck; [discriminate|].
  intros [= <-]. apply orb_false_iff in Hcheck as [Hne Hdots].
  destruct relPath as [|c x]; [now left|].
  destruct (Ascii.eqb c slash) eqn:Ec.
  - apply Ascii.eqb_eq in Ec. subst c.
    rewrite posixNormalize_absolute in *. cbv zeta in *.
    pose proof (pathSegments_proper (String slash x)) as Hp.
    unfold pathSegments in Hp.
    set (segs := normalizeSegments false (splitOn slash (String slash x))) in *.
    destruct (String.eqb (joinWith "/" segs) "") eqn:Ej; [discriminate|].
    assert (segs <> []) as Hsegs by (intros E; rewrite E in Ej; discriminate).
    right. right. exists segs, (endsWithSlash (String slash x)).
    split; [exact Hp|]. split; [exact Hsegs|].
    cbn [stripLeadingSlashes]. change (Ascii.eqb slash slash) with true. cbv iota.
    now apply stripLeadingSlashes_join.
  - assert (posixNormalize (String c x)
            = let p0 := normalizeString (String c x) true in
              if String.eqb p0 "" then
                (if endsWithSlash (String c x) then "./" else ".")
              else if endsWithSlash (String c x) then p0 +:+ "/" else p0) as E.
    { unfold posixNormalize. change (String.eqb (String c x) "") with false. cbv iota.
      cbn [startsWith]. change "/"%char with slash. rewrite Ec. reflexivity. }
    rewrite E in *. clear E. cbv zeta in *. unfold normalizeString in *.
    destruct (normalizeSegments_aboveRoot (String c x)) as (props & k & Enorm & Hprops).
    rewrite Enorm in *. clear Enorm.
    destruct (String.eqb (joinWith "/" (replicate k ".." ++ props)) "") eqn:Ej.
    + destruct (endsWithSlash (String c x)); auto.
    + destruct k as [|k].
      * cbn [replicate app] in *. right. right.
        exists props, (endsWithSlash (String c x)).
        split; [exact Hprops|].
        assert (props <> []) as Hne' by (intros E; rewrite E in Ej; discriminate).
        split; [exact Hne'|].
        destruct (endsWithSlash (String c x)).
        -- now apply stripLeadingSlashes_join.
        -- rewrite <- (append_nil_r (joinWith "/" props)) at 1.
           rewrite stripLeadingSlashes_join by assumption. reflexivity.
      * exfalso. cbn [replicate app] in Hdots.
        destruct (replicate k ".." ++ props) as [|q qs];
          destruct (endsWithSlash (String c x)); cbn in Hdots; discriminate.
Qed.

(** X11.  Every path [sanitizeRelativePath] lets through stays inside
    [/data] once [installModrinthFiles] joins it to that directory: the
    destination is [/data] followed by proper segments (none empty, ["."]
    or [".."]), with or without a slash at the end.  With no segment the
    destination is [/data] itself, which the paths [""] and ["."]
    lead to. *)
Theorem sanitizeRelativePath_confined (relPath p : string) :
  sanitizeRelativePath relPath = Ok p ->
  exists segs (trailing : bool),
    Forall properSegment segs
    /\ posixJoin "/data" p
       = renderPath ("data" :: segs) +:+ (if trailing then "/" else "").
Proof.
  intros H. apply sanitizeRelativePath_shape in H
    as [->|[->|(segs & trailing & Hsegs & Hne & ->)]].
  - exists [], false. split; [constructor | reflexivity].
  - exists [], true. split; [constructor | reflexivity].
  - set (p := joinWith "/" segs +:+ (if trailing then "/" else "")).
    assert (posixJoin "/data" p = posixNormalize (String slash ("data" +:+ String slash p)))
      as ->.
    { unfold posixJoin. change (String.eqb "/data" "") with false. cbv iota.
      destruct (String.eqb p "") eqn:Ep; [|reflexivity].
      exfalso. apply String.eqb_eq in Ep. subst p.
      destruct segs as [|s segs]; [congruence|].
      inversion Hsegs as [|? ? (Hs & _) _]; subst.
      destruct s; [congruence|]. destruct segs; discriminate. }
    rewrite posixNormalize_absolute. cbv zeta.
    assert (normalizeSegments false
              (splitOn slash (String slash ("data" +:+ String slash p)))
            = "data" :: segs) as ->.
    { rewrite splitOn_cons_sep, splitOn_app. subst p.
      change (splitOn slash "data") with ["data"].
      destruct trailing.
      - change "/" with (String slash "") at 2.
        rewrite splitOn_app, splitOn_joinWith by (auto using proper_hasSlash).
        change (normalizeSegments false
                  (replicate 1 "" ++ ("data" :: segs) ++ replicate 1 "")
                = "data" :: segs).
        apply normalizeSegments_padded.
        constructor; [apply properSegment_data | exact Hsegs].
      - rewrite append_nil_r, splitOn_joinWith by (auto using proper_hasSlash).
        replace ("" :: ["data"] ++ segs)
          with (replicate 1 "" ++ ("data" :: segs) ++ replicate 0 "")
          by (cbn; now rewrite app_nil_r).
        apply normalizeSegments_padded.
        constructor; [apply properSegment_data | exact Hsegs]. }
    destruct segs as [|s segs]; [congruence|].
    change (String.eqb (joinWith "/" ("data" :: s :: segs)) "") with false. cbv iota.
    exists (s :: segs), (endsWithSlash (String slash ("data" +:+ String slash p))).
    split; [exact Hsegs | reflexivity].
Qed.

Lemma sanitizeRelativePath_confined_witness :
  exists segs (trailing : bool),
    Forall properSegment segs
    /\ posixJoin "/data" "etc/passwd"
       = renderPath ("data" :: segs) +:+ (if trailing then "/" else "").
Proof.
  apply (sanitizeRelativePath_confined "/etc//passwd" "etc/passwd"). reflexivity.
Defined.

(* ===================================================================== *)
(** ** The install pipelines                                              *)
(* ===================================================================== *)

(** *** Following a job through a computation *)

Lemma modpackStatusesOf_app (ref : nat) (l1 l2 : list Effect) :
  modpackStatusesOf ref (l1 ++ l2) = modpackStatusesOf ref l1 ++ modpackStatusesOf ref l2.
Proof. apply omap_app. Qed.

Lemma advances_refl (ref : nat) (s : Server) : advances ref s s [].
Proof.
  exists []. rewrite app_nil_r. repeat split.
  unfold modpackStatus. now destruct (modpackHeap s !! ref).
Qed.

Lemma advances_trans (ref : nat) (s1 s2 s3 : Server) (c1 c2 : list ModpackJob.Status) :
  advances ref s1 s2 c1 -> advances ref s2 s3 c2 -> advances ref s1 s3 (c1 ++ c2).
Proof.
  intros (a1 & T1 & C1 & S1) (a2 & T2 & C2 & S2). exists (a1 ++ a2).
  rewrite T2, T1, <- app_assoc, modpackStatusesOf_app, C1, C2.
  repeat split. rewrite S2, S1, last_app.
  destruct (modpackStatus ref s1); [|reflexivity]. cbn.
  now destruct (last c2).
Qed.

Lemma yields_weaken {A} (ref : nat) (m : M A)
    (post post' : Result A -> list ModpackJob.Status -> Prop) :
  yields ref m post -> (forall r chain, post r chain -> post' r chain) -> yields ref m post'.
Proof.
  intros H Himp s. destruct (H s) as (chain & Hadv & Hpost). eauto.
Qed.

Lemma yields_bind {A B} (ref : nat) (m : M A) (f : A -> M B)
    (pre : Result A -> list ModpackJob.Status -> Prop)
    (post : Result B -> list ModpackJob.Status -> Prop) :
  yields ref m pre ->
  (forall a c1, pre (Ok a) c1 -> yields ref (f a) (fun r c2 => post r (c1 ++ c2))) ->
  (forall message c1, pre (Throw message) c1 -> post (Throw message) c1) ->
  yields ref (m ≫= f) post.
Proof.
  intros Hm Hf Hthrow s. unfold mbind, M_bind.
  destruct (Hm s) as (c1 & Hadv1 & Hpre).
  destruct (m s) as [s1 [a|message]]; cbn [fst snd] in *.
  - destruct (Hf a c1 Hpre s1) as (c2 & Hadv2 & Hpost).
    exists (c1 ++ c2). split; [|exact Hpost].
    eapply advances_trans; eassumption.
  - exists c1. split; [exact Hadv1 | now apply Hthrow].
Qed.

Lemma quiet_bind_yields {A B} (ref : nat) (m : M A) (f : A -> M B)
    (post : Result B -> list ModpackJob.Status -> Prop) :
  quiet ref m ->
  (forall a, yields ref (f a) post) ->
  (forall message, post (Throw message) []) ->
  yields ref (m ≫= f) post.
Proof.
  intros Hm Hf Hthrow. eapply yields_bind; [exact Hm|..].
  - intros a c1 ->. apply Hf.
  - intros message c1 ->. apply Hthrow.
Qed.

Lemma quiet_bind {A B} (ref : nat) (m : M A) (f : A -> M B) :
  quiet ref m -> (forall a, quiet ref (f a)) -> quiet ref (m ≫= f).
Proof. intros Hm Hf. apply quiet_bind_yields; [exact Hm | exact Hf | reflexivity]. Qed.

Lemma quiet_ret {A} (ref : nat) (a : A) : quiet ref (mret a).
Proof. intros s. exists []. split; [apply advances_refl | reflexivity]. Qed.

Lemma quiet_throw {A} (ref : nat) (message : string) : quiet ref (throw (A := A) message).
Proof. intros s. exists []. split; [apply advances_refl | reflexivity]. Qed.

Lemma quiet_get (ref : nat) : quiet ref get.
Proof. intros s. exists []. split; [apply advances_refl | reflexivity]. Qed.

Lemma quiet_liftResult {A} (ref : nat) (r : Result A) : quiet ref (liftResult r).
Proof. intros s. exists []. split; [apply advances_refl | reflexivity]. Qed.

Lemma quiet_setFiles (ref : nat) (f : FileSystem -> FileSystem) :
  quiet ref (modify (fun s => setFiles (f (files s)) s)).
Proof.
  intros s. exists []. split; [|reflexivity].
  exists []. cbn. rewrite app_nil_r. repeat split.
  unfold modpackStatus. cbn. now destruct (modpackHeap s !! ref).
Qed.

Lemma quiet_fsOp (ref : nat) (op : FileSystem -> Result FileSystem) : quiet ref (fsOp op).
Proof.
  intros s. exists []. split; [|reflexivity]. unfold fsOp.
  destruct (op (files s)); cbn [fst]; [|apply advances_refl].
  exists []. cbn. rewrite app_nil_r. repeat split.
  unfold modpackStatus. cbn. now destruct (modpackHeap s !! ref).
Qed.

Lemma quiet_emit (ref : nat) (ev : Effect) :
  modpackStatusesOf ref [ev] = [] -> quiet ref (emit ev).
Proof.
  intros Hev s. exists []. split; [|reflexivity].
  exists [ev]. cbn [emit modify fst trace setTrace]. repeat split; [exact Hev|].
  unfold modpackStatus. cbn. now destruct (modpackHeap s !! ref).
Qed.

Lemma modpackStatus_update (ref ref' : nat) (f : ModpackJob.t -> ModpackJob.t) (s : Server) :
  keepsStatus f ->
  modpackStatus ref (setModpackHeap (alter f ref' (modpackHeap s)) s) = modpackStatus ref s.
Proof.
  intros Hf. unfold modpackStatus. cbn [modpackHeap setModpackHeap].
  destruct (decide (ref' = ref)) as [->|Hne].
  - rewrite list_lookup_alter_eq. destruct (modpackHeap s !! ref); [|reflexivity].
    cbn. now rewrite Hf.
  - now rewrite list_lookup_alter_ne.
Qed.

Lemma quiet_update (ref ref' : nat) (f : ModpackJob.t -> ModpackJob.t) :
  keepsStatus f -> quiet ref (updateModpackJob ref' f).
Proof.
  intros Hf s. exists []. split; [|reflexivity].
  exists []. cbn [updateModpackJob modify fst trace setModpackHeap]. rewrite app_nil_r.
  repeat split. rewrite modpackStatus_update by exact Hf.
  unfold modpackStatus. now destruct (modpackHeap s !! ref).
Qed.

Lemma keepsStatus_fields :
  (forall v, keepsStatus (ModpackJob.withUpdatedAt v))
  /\ (forall v, keepsStatus (ModpackJob.withProgress v))
  /\ (forall v, keepsStatus (ModpackJob.withError v))
  /\ (forall v, keepsStatus (ModpackJob.withResult v)).
Proof. repeat split. Qed.

Lemma yields_setModpackStatus (ref : nat) (status : ModpackJob.Status) :
  yields ref (setModpackStatus ref status) (fun r chain => r = Ok tt /\ chain = [status]).
Proof.
  intros s. exists [status]. split; [|split; reflexivity].
  exists [ModpackStatusSet ref status].
  cbn. rewrite Nat.eqb_refl. repeat split.
  unfold modpackStatus, setModpackStatus, updateModpackJob, emit, modify, mbind, M_bind.
  cbn. rewrite list_lookup_alter_eq.
  now destruct (modpackHeap s !! ref).
Qed.

Lemma status_bind {B} (ref : nat) (status : ModpackJob.Status) (f : unit -> M B)
    (post : Result B -> list ModpackJob.Status -> Prop) :
  yields ref (f tt) (fun r chain => post r (status :: chain)) ->
  yields ref (setModpackStatus ref status ≫= f) post.
Proof.
  intros Hf. eapply yields_bind; [apply yields_setModpackStatus|..].
  - intros [] c1 [_ ->]. exact Hf.
  - intros message c1 [[=] _].
Qed.

Lemma yields_tryFinally {A} (ref : nat) (m : M A) (cleanup : M unit)
    (post : Result A -> list ModpackJob.Status -> Prop) :
  yields ref m post -> quiet ref cleanup ->
  yields ref (tryFinally m (fun s => (cleanup s).1)) post.
Proof.
  intros Hm Hc s. unfold tryFinally.
  destruct (Hm s) as (c1 & Hadv1 & Hpost).
  destruct (m s) as [s1 r]; cbn [fst snd] in *.
  destruct (Hc s1) as (c2 & Hadv2 & ->).
  exists c1. split; [|exact Hpost].
  rewrite <- (app_nil_r c1). eapply advances_trans; eassumption.
Qed.

Lemma yields_tryCatch {A} (ref : nat) (m : M A) (handler : string -> M A)
    (pre post : Result A -> list ModpackJob.Status -> Prop) :
  yields ref m pre ->
  (forall a c1, pre (Ok a) c1 -> post (Ok a) c1) ->
  (forall message c1, pre (Throw message) c1 ->
     yields ref (handler message) (fun r c2 => post r (c1 ++ c2))) ->
  yields ref (tryCatch m handler) post.
Proof.
  intros Hm Hok Hh s. unfold tryCatch.
  destruct (Hm s) as (c1 & Hadv1 & Hpre).
  destruct (m s) as [s1 [a|message]]; cbn [fst snd] in *.
  - exists c1. split; [exact Hadv1 | now apply Hok].
  - destruct (Hh message c1 Hpre s1) as (c2 & Hadv2 & Hpost).
    exists (c1 ++ c2). split; [|exact Hpost].
    eapply advances_trans; eassumption.
Qed.

(** *** The helpers assign no status *)

Ltac quiet_step :=
  lazymatch goal with
  | |- quiet _ (_ ≫= _) => apply quiet_bind; [|intros ?]
  | |- quiet _ (mret _) => apply quiet_ret
  | |- quiet _ (throw _) => apply quiet_throw
  | |- quiet _ get => apply quiet_get
  | |- quiet _ (liftResult _) => apply quiet_liftResult
  | |- quiet _ (fsOp _) => apply quiet_fsOp
  | |- quiet _ (emit _) => apply quiet_emit; reflexivity
  | |- quiet _ (modify (fun s => setFiles _ s)) => apply quiet_setFiles
  | |- quiet _ (updateModpackJob _ _) => apply quiet_update; now intros []
  | |- quiet _ (if ?b then _ else _) => destruct b
  | |- quiet _ (match ?x with _ => _ end) => destruct x
  end.

Ltac quiet_tac := repeat quiet_step.

Lemma quiet_spawn (ref : nat) (w : World) (argv : list string) : quiet ref (spawn w argv).
Proof.
  unfold spawn. quiet_step; [quiet_tac|]. quiet_step; [|quiet_tac].
  apply (quiet_setFiles ref (procEffect w argv)).
Qed.

Lemma quiet_awaitExit (ref : nat) (w : World) (argv : list string) :
  quiet ref (awaitExit w argv).
Proof.
  unfold awaitExit. quiet_step; [|quiet_tac].
  apply (quiet_setFiles ref (procEffect w argv)).
Qed.

Lemma quiet_ensureDirectory (ref : nat) (w : World) (path : string) :
  quiet ref (ensureDirectory w path).
Proof. unfold ensureDirectory. quiet_step; [apply quiet_spawn | quiet_tac]. Qed.

Lemma quiet_removePath (ref : nat) (w : World) (targetPath : string) :
  quiet ref (removePath w targetPath).
Proof.
  unfold removePath. quiet_step; [quiet_tac|].
  quiet_step; [apply quiet_spawn | quiet_tac].
Qed.

Lemma quiet_pathExists (ref : nat) (w : World) (targetPath : string) :
  quiet ref (pathExists w targetPath).
Proof. unfold pathExists. quiet_step; [apply quiet_spawn | quiet_tac]. Qed.

Lemma quiet_setProgress (ref ref' : nat) (w : World) (progress : ModpackJob.Progress) :
  quiet ref (setProgress w ref' progress).
Proof. unfold setProgress. quiet_tac. Qed.

Lemma quiet_downloadFileToPath (ref : nat) (w : World) (address destination : string)
    (job : option nat) :
  quiet ref (downloadFileToPath w address destination job).
Proof.
  unfold downloadFileToPath. quiet_step; [quiet_tac|].
  destruct (httpGet w address) as [message|status statusText body]; [quiet_tac|].
  destruct (negb (responseOk status)); [quiet_tac|].
  destruct body as [buffer|message]; [|quiet_tac].
  quiet_step; [apply quiet_ensureDirectory|]. quiet_tac.
Qed.

Lemma quiet_extractArchive (ref : nat) (w : World) (archivePath destination : string) :
  quiet ref (extractArchive w archivePath destination).
Proof. unfold extractArchive. cbv zeta. quiet_step; [apply quiet_spawn | quiet_tac]. Qed.

Lemma quiet_loadModrinthManifest (ref : nat) (up : Upstream) (manifestPath : string) :
  quiet ref (loadModrinthManifest up manifestPath).
Proof.
  intros s. exists []. split; [|reflexivity]. unfold loadModrinthManifest.
  destruct (files s !! manifestPath) as [[]|]; apply advances_refl.
Qed.

Lemma quiet_loadCurseforgeManifest (ref : nat) (up : Upstream) (filePath : string) :
  quiet ref (loadCurseforgeManifest up filePath).
Proof.
  intros s. exists []. split; [|reflexivity]. unfold loadCurseforgeManifest.
  destruct (files s !! filePath) as [[]|]; apply advances_refl.
Qed.

Lemma quiet_resetModsDirectory (ref : nat) (w : World) : quiet ref (resetModsDirectory w).
Proof.
  unfold resetModsDirectory. cbv zeta.
  quiet_step; [apply quiet_ensureDirectory|].
  quiet_step; [apply quiet_spawn|]. apply quiet_ensureDirectory.
Qed.

Lemma quiet_applyOverrides (ref : nat) (w : World) (overridesPath : string) :
  quiet ref (applyOverrides w overridesPath).
Proof.
  unfold applyOverrides. quiet_step; [apply quiet_pathExists|].
  quiet_step; [quiet_tac|]. cbv zeta. quiet_step; [apply quiet_spawn | quiet_tac].
Qed.

Lemma quiet_installModrinthLoop (ref ref' : nat) (w : World) (total : Z)
    (entries : list Modrinth.FileEntry) :
  forall index installed, quiet ref (installModrinthLoop w ref' total index installed entries).
Proof.
  induction entries as [|fileEntry rest IH]; intros index installed;
    cbn [installModrinthLoop]; [quiet_tac|].
  destruct (match Modrinth.serverEnv fileEntry with Some _ => _ | None => _ end);
    [apply IH|].
  cbv zeta. quiet_step; [quiet_tac|].
  destruct (negb (truthy (head (Modrinth.downloads fileEntry)))); [quiet_tac|].
  quiet_step; [apply quiet_setProgress|].
  quiet_step; [apply quiet_downloadFileToPath|].
  quiet_step; [quiet_tac|]. apply IH.
Qed.

Lemma quiet_installModrinthFiles (ref ref' : nat) (w : World) (manifest : Modrinth.Manifest) :
  quiet ref (installModrinthFiles w ref' manifest).
Proof.
  unfold installModrinthFiles. cbv zeta.
  quiet_step; [apply quiet_installModrinthLoop | quiet_tac].
Qed.

Lemma quiet_curseforgeFileRequest (ref : nat) (up : Upstream) (project file : Z) :
  quiet ref (curseforgeFileRequest up project file).
Proof. unfold curseforgeFileRequest. quiet_tac. Qed.

Lemma quiet_fetchCurseforgePack (ref : nat) (up : Upstream) (project file : Z) :
  quiet ref (fetchCurseforgePack up project file).
Proof.
  unfold fetchCurseforgePack. quiet_step; [apply quiet_curseforgeFileRequest|].
  quiet_tac.
Qed.

Lemma quiet_installCurseforgeLoop (ref ref' : nat) (w : World) (up : Upstream) (total : Z)
    (entries : list Curseforge.FileRef) :
  forall index installed,
    quiet ref (installCurseforgeLoop w up ref' total index installed entries).
Proof.
  induction entries as [|entry rest IH]; intros index installed;
    cbn [installCurseforgeLoop]; [quiet_tac|].
  destruct (match Curseforge.required entry with Some false => true | _ => false end);
    [apply IH|].
  cbv zeta. quiet_step; [apply quiet_setProgress|].
  apply quiet_bind; [apply quiet_curseforgeFileRequest | intros fileData].
  destruct fileData as [data|]; [|quiet_tac].
  destruct (truthy (Curseforge.downloadUrl data)); [|quiet_tac].
  quiet_step; [apply quiet_downloadFileToPath|]. apply IH.
Qed.

Lemma quiet_installCurseforgeFiles (ref ref' : nat) (w : World) (up : Upstream)
    (manifest : Curseforge.Manifest) :
  quiet ref (installCurseforgeFiles w up ref' manifest).
Proof.
  unfold installCurseforgeFiles. cbv zeta.
  quiet_step; [apply quiet_installCurseforgeLoop | quiet_tac].
Qed.

(** *** The pipelines *)

Lemma update_bind {B} (ref ref' : nat) (f : ModpackJob.t -> ModpackJob.t) (g : unit -> M B)
    (post : Result B -> list ModpackJob.Status -> Prop) :
  keepsStatus f ->
  yields ref (g tt) post ->
  yields ref (updateModpackJob ref' f ≫= g) post.
Proof.
  intros Hf Hg.
  apply (yields_bind ref _ _ (fun r chain => r = Ok tt /\ chain = [])).
  - intros s. destruct (quiet_update ref ref' f Hf s) as (chain & Hadv & ->).
    exists []. split; [exact Hadv | split; reflexivity].
  - intros [] c1 [_ ->]. exact Hg.
  - intros message c1 [[=] _].
Qed.

Lemma yields_update (ref ref' : nat) (f : ModpackJob.t -> ModpackJob.t) :
  keepsStatus f ->
  yields ref (updateModpackJob ref' f) (fun r chain => r = Ok tt /\ chain = []).
Proof.
  intros Hf s. destruct (quiet_update ref ref' f Hf s) as (chain & Hadv & ->).
  exists []. split; [exact Hadv | split; reflexivity].
Qed.

Lemma progress_bind {B} (ref ref' : nat) (w : World) (progress : ModpackJob.Progress)
    (g : unit -> M B) (post : Result B -> list ModpackJob.Status -> Prop) :
  yields ref (g tt) post ->
  yields ref (setProgress w ref' progress ≫= g) post.
Proof.
  intros Hg.
  apply (yields_bind ref _ _ (fun r chain => r = Ok tt /\ chain = [])).
  - unfold setProgress. apply update_bind; [now intros []|].
    apply yields_update. now intros [].
  - intros [] c1 [_ ->]. exact Hg.
  - intros message c1 [[=] _].
Qed.

Lemma yields_throw {A} (ref : nat) (message : string) :
  yields ref (throw (A := A) message) (fun r chain => r = Throw message /\ chain = []).
Proof. intros s. exists []. split; [apply advances_refl | split; reflexivity]. Qed.

Create HintDb quiet.

#[local] Hint Resolve quiet_spawn quiet_awaitExit quiet_ensureDirectory quiet_removePath
  quiet_pathExists quiet_setProgress quiet_downloadFileToPath quiet_extractArchive
  quiet_loadModrinthManifest quiet_loadCurseforgeManifest quiet_resetModsDirectory
  quiet_applyOverrides quiet_installModrinthFiles quiet_fetchCurseforgePack
  quiet_installCurseforgeFiles quiet_liftResult : quiet.

Ltac throws_early :=
  intros; unfold packInstalled; right; split; [eauto | auto].

Ltac pipeline_step :=
  lazymatch goal with
  | |- yields _ (setModpackStatus _ _ ≫= _) _ => apply status_bind
  | |- yields _ (updateModpackJob _ _ ≫= _) _ => apply update_bind; [now intros []|]
  | |- yields _ (setProgress _ _ _ ≫= _) _ => apply progress_bind
  | |- yields _ (_ ≫= _) _ =>
      apply quiet_bind_yields; [solve [auto with quiet] | intros ? | throws_early]
  end.

Lemma yields_installModrinthPack (w : World) (up : Upstream) (ref : nat)
    (tempDir address : string) (version : option string) :
  yields ref (installModrinthPack w up ref tempDir address version) packInstalled.
Proof.
  unfold installModrinthPack. cbv zeta. repeat pipeline_step.
  eapply yields_weaken; [apply yields_update; now intros []|].
  intros r chain [-> ->]. now left.
Qed.

Lemma yields_installCurseforgePack (w : World) (up : Upstream) (ref : nat)
    (tempDir : string) (project file : Z) :
  yields ref (installCurseforgePack w up ref tempDir project file) packInstalled.
Proof.
  unfold installCurseforgePack. cbv zeta. do 3 pipeline_step.
  destruct (Curseforge.packFileName _) as [fileName|].
  - repeat pipeline_step.
    eapply yields_weaken; [apply yields_update; now intros []|].
    intros r chain [-> ->]. now left.
  - eapply yields_weaken; [apply yields_throw|].
    intros r chain [-> ->]. throws_early.
Qed.

Lemma yields_processModrinthJob (w : World) (up : Upstream) (ref : nat)
    (jobId address : string) (version : option string) :
  yields ref (processModrinthJob w up ref jobId address version) pipelineEnded.
Proof.
  unfold processModrinthJob. cbv zeta.
  apply quiet_bind_yields; [apply quiet_awaitExit | intros exitCode | right; eauto].
  destruct (negb (exitCode =? 0)).
  - eapply yields_weaken; [apply yields_throw|]. intros r chain [-> ->]. right. eauto.
  - apply (yields_tryFinally ref _ (removePath w _)); [|apply quiet_removePath].
    eapply yields_weaken; [apply yields_installModrinthPack|]. now left.
Qed.

Lemma yields_processCurseforgeJob (w : World) (up : Upstream) (ref : nat)
    (jobId : string) (project file : Z) :
  yields ref (processCurseforgeJob w up ref jobId project file) pipelineEnded.
Proof.
  unfold processCurseforgeJob. cbv zeta.
  apply quiet_bind_yields; [apply quiet_awaitExit | intros exitCode | right; eauto].
  destruct (negb (exitCode =? 0)).
  - eapply yields_weaken; [apply yields_throw|]. intros r chain [-> ->]. right. eauto.
  - apply (yields_tryFinally ref _ (removePath w _)); [|apply quiet_removePath].
    eapply yields_weaken; [apply yields_installCurseforgePack|]. now left.
Qed.

Lemma yields_failModpackJob (w : World) (ref : nat) (error : string) :
  yields ref (failModpackJob w ref error)
         (fun r chain => r = Ok tt /\ chain = [ModpackJob.failed]).
Proof.
  unfold failModpackJob. apply status_bind. do 2 (apply update_bind; [now intros []|]).
  eapply yields_weaken; [apply yields_update; now intros []|].
  intros r chain [-> ->]. split; reflexivity.
Qed.

Lemma yields_caught (w : World) (ref : nat) (m : M unit) :
  yields ref m pipelineEnded ->
  yields ref (tryCatch m (failModpackJob w ref))
         (fun r chain => r = Ok tt /\ chain ∈ installChains).
Proof.
  intros Hm. eapply yields_tryCatch; [exact Hm|..].
  - intros [] c1 [[[_ ->]|[[message [=]] _]]|[[message [=]] _]].
    split; [reflexivity|]. unfold installChains. rewrite elem_of_cons. now left.
  - intros message c1 Hc1.
    eapply yields_weaken; [apply yields_failModpackJob|].
    intros r chain [-> ->]. split; [reflexivity|]. unfold installChains.
    destruct Hc1 as [[[[=] _]|[_ [->| ->]]]|[_ ->]]; cbn [app];
      rewrite !elem_of_cons; auto.
Qed.

Lemma resumeInstall_chain (w : World) (up : Upstream) (task : Detached) (ref : nat)
    (s : Server) :
  installJobOf task = Some ref -> is_Some (modpackHeap s !! ref) ->
  exists chain,
    advances ref s (resumeInstall w up task s).1 chain
    /\ (resumeInstall w up task s).2 = Ok tt
    /\ chain ∈ installChains.
Proof.
  intros Htask [job Hjob].
  destruct task as [| r address version | r project file]; [discriminate|..];
    injection Htask as ->; unfold resumeInstall, mbind, M_bind, get; rewrite Hjob.
  - destruct (yields_caught w ref _
                (yields_processModrinthJob w up ref (ModpackJob.id job) address version) s)
      as (chain & Hadv & Hr & Hin).
    eauto.
  - destruct (yields_caught w ref _
                (yields_processCurseforgeJob w up ref (ModpackJob.id job) project file) s)
      as (chain & Hadv & Hr & Hin).
    eauto.
Qed.

Lemma installChains_forward (chain : list ModpackJob.Status) :
  chain ∈ installChains ->
  follows ModpackJob.forward ModpackJob.pending chain
  /\ exists final, last chain = Some final /\ ModpackJob.isTerminal final = true.
Proof.
  unfold installChains. rewrite !elem_of_cons, elem_of_nil.
  intros [->|[->|[->|[->|[]]]]]; (split; [repeat constructor | eexists; split; reflexivity]).
Qed.

(** X14.  The life of an install job.  Whatever the hosts answer and the
    processes do, the pipeline a Modrinth or CurseForge install request
    left behind, run to its end with the [.catch] the handler put on it,
    never rejects and takes the job through
    pending -> downloading -> installing -> completed, or from one of the
    first three to failed, and no other way: the statuses assigned to the
    job object are, in order, one of the four chains of [installChains];
    each follows the one before by a step of the state machine; the last
    is terminal and is the status a poll then reads. *)
Theorem install_job_lifecycle (w : World) (up : Upstream) (task : Detached) (ref : nat)
    (s : Server) :
  installJobOf task = Some ref -> is_Some (modpackHeap s !! ref) ->
  let out := resumeInstall w up task s in
  out.2 = Ok tt
  /\ exists chain final,
       modpackStatusesOf ref (drop (length (trace s)) (trace out.1)) = chain
       /\ chain ∈ installChains
       /\ follows ModpackJob.forward ModpackJob.pending chain
       /\ last chain = Some final
       /\ ModpackJob.isTerminal final = true
       /\ modpackStatus ref out.1 = Some final.
Proof.
  intros Htask Hjob out.
  destruct (resumeInstall_chain w up task ref s Htask Hjob)
    as (chain & (added & Htrace & Hchain & Hstatus) & Hr & Hin).
  fold out in Htrace, Hstatus, Hr. split; [exact Hr|].
  destruct (installChains_forward chain Hin) as (Hforward & final & Hlast & Hfinal).
  exists chain, final. rewrite Htrace, drop_app_length.
  repeat split; try assumption.
  rewrite Hstatus, Hlast. unfold modpackStatus. destruct Hjob as [job ->]. reflexivity.
Qed.

Example resumeInstall_completed :
  let out := resumeInstall unpackingWorld someUpstream (ModrinthTask 0 packUrl None)
               serverInstalling in
  detached serverInstalling = [ModrinthTask 0 packUrl None]
  /\ out.2 = Ok tt
  /\ modpackHeap out.1
     = [ModpackJob.mk "modrinth-mhg8cqrf-k3x9qa" ModpackJob.modrinth ModpackJob.completed
          1761998400123 1761998400123
          (Some (ModpackJob.phaseNote "completed" "Modpack installation finished")) None
          (Some (ModpackJob.mkOutcome (Some ModpackJob.FABRIC) (Some "1.21.1")
                   (Some "fabric-1-21-1") (Some "Pack") 1 true))]
  /\ files out.1 !! "/data/mods/a.jar" = Some (FsFile tenBytes)
  /\ modpackStatusesOf 0 (trace out.1)
     = [ModpackJob.downloading; ModpackJob.installing; ModpackJob.completed]
  /\ last (trace out.1) = Some (Spawn ["rm"; "-rf"; "/tmp/modpack-modrinth-mhg8cqrf-k3x9qa"]).
Proof. vm_compute. repeat split; reflexivity. Qed.

Lemma install_job_lifecycle_witness :
  (resumeInstall unpackingWorld someUpstream (ModrinthTask 0 packUrl None)
     serverInstalling).2 = Ok tt.
Proof.
  refine (proj1 (install_job_lifecycle unpackingWorld someUpstream
                   (ModrinthTask 0 packUrl None) 0 serverInstalling _ _)).
  - reflexivity.
  - vm_compute. eauto.
Defined.

(** *** The temporary directory *)

Lemma removePath_tempDir (w : World) (source : ModpackJob.Source) (jobId : string)
    (s : Server) :
  let tempDir := installTempDir source jobId in
  trace (removePath w tempDir s).1 = trace s ++ [Spawn ["rm"; "-rf"; tempDir]].
Proof. destruct source; reflexivity. Qed.

Lemma failModpackJob_trace (w : World) (ref : nat) (error : string) (s : Server) :
  trace (failModpackJob w ref error s).1
  = trace s ++ [ModpackStatusSet ref ModpackJob.failed]
  /\ files (failModpackJob w ref error s).1 = files s.
Proof. split; reflexivity. Qed.

Lemma awaitExit_run (w : World) (argv : list string) (s : Server) :
  awaitExit w argv s = (setFiles (procEffect w argv (files s)) s, Ok (procExit w argv)).
Proof. reflexivity. Qed.

(** A pipeline around any [try] block: the directory is made, the block
    runs, the directory is removed; the [.catch] marks the job failed. *)
Lemma caught_pipeline_trace (w : World) (ref : nat) (source : ModpackJob.Source)
    (jobId : string) (body : M unit) (s : Server) :
  (forall s0, exists added, trace (body s0).1 = trace s0 ++ added) ->
  let tempDir := installTempDir source jobId in
  let pipeline : M unit :=
    exitCode ← awaitExit w ["mkdir"; "-p"; tempDir];
    if negb (exitCode =? 0) then
      throw ("Failed to create directory " +:+ tempDir +:+ ": "
             +:+ procStderr w ["mkdir"; "-p"; tempDir])
    else tryFinally body (fun s => (removePath w tempDir s).1) in
  let out := tryCatch pipeline (failModpackJob w ref) s in
  if procExit w ["mkdir"; "-p"; tempDir] =? 0 then
    exists before after,
      trace out.1 = trace s ++ before ++ [Spawn ["rm"; "-rf"; tempDir]] ++ after
      /\ (after = [] \/ after = [ModpackStatusSet ref ModpackJob.failed])
  else
    trace out.1 = trace s ++ [ModpackStatusSet ref ModpackJob.failed]
    /\ files out.1 = procEffect w ["mkdir"; "-p"; tempDir] (files s).
Proof.
  intros Hbody tempDir pipeline out. subst out pipeline.
  unfold tryCatch, mbind, M_bind. rewrite awaitExit_run.
  destruct (procExit w ["mkdir"; "-p"; tempDir] =? 0); cbn [negb].
  - unfold tryFinally.
    set (s0 := setFiles _ s).
    destruct (Hbody s0) as (added & Hadded).
    destruct (body s0) as [s1 [[]|message]]; cbn [fst] in Hadded.
    + exists added, []. cbn [fst]. subst tempDir. rewrite removePath_tempDir, Hadded.
      rewrite <- app_assoc. split; [reflexivity | now left].
    + exists added, [ModpackStatusSet ref ModpackJob.failed].
      destruct (failModpackJob_trace w ref message (removePath w tempDir s1).1) as [-> _].
      subst tempDir. rewrite removePath_tempDir, Hadded, <- !app_assoc.
      split; [reflexivity | now right].
  - unfold throw. split; reflexivity.
Qed.

Lemma yields_trace {A} (ref : nat) (m : M A)
    (post : Result A -> list ModpackJob.Status -> Prop) :
  yields ref m post -> forall s0, exists added, trace (m s0).1 = trace s0 ++ added.
Proof.
  intros Hm s0. destruct (Hm s0) as (chain & (added & Htrace & _) & _). eauto.
Qed.

Lemma resumeInstall_modrinth (w : World) (up : Upstream) (ref : nat) (address : string)
    (version : option string) (job : ModpackJob.t) (s : Server) :
  modpackHeap s !! ref = Some job ->
  resumeInstall w up (ModrinthTask ref address version) s
  = tryCatch (processModrinthJob w up ref (ModpackJob.id job) address version)
             (failModpackJob w ref) s.
Proof. intros Hjob. unfold resumeInstall, mbind, M_bind, get. now rewrite Hjob. Qed.

Lemma resumeInstall_curseforge (w : World) (up : Upstream) (ref : nat) (project file : Z)
    (job : ModpackJob.t) (s : Server) :
  modpackHeap s !! ref = Some job ->
  resumeInstall w up (CurseforgeTask ref project file) s
  = tryCatch (processCurseforgeJob w up ref (ModpackJob.id job) project file)
             (failModpackJob w ref) s.
Proof. intros Hjob. unfold resumeInstall, mbind, M_bind, get. now rewrite Hjob. Qed.

(** X15.  The temporary directory of an install.  When the [mkdir] of
    the pipeline's temporary directory has succeeded, the pipeline ends
    by removing that directory with [rm -rf], whether the install went
    through or failed at any point; after it comes at most the [.catch]
    that marks the job failed.  The guard of [removePath] (the empty
    path, [/] and [/data] are never removed) does not stand in the way,
    whatever the job's id.  When the [mkdir] has failed, the job is
    marked failed and nothing else is done: nothing is downloaded,
    nothing removed. *)
Theorem install_temp_directory_removed (w : World) (up : Upstream) (task : Detached)
    (ref : nat) (job : ModpackJob.t) (s : Server) :
  installJobOf task = Some ref -> modpackHeap s !! ref = Some job ->
  let tempDir := installTempDir (taskSource task) (ModpackJob.id job) in
  let out := resumeInstall w up task s in
  if procExit w ["mkdir"; "-p"; tempDir] =? 0 then
    exists before after,
      trace out.1 = trace s ++ before ++ [Spawn ["rm"; "-rf"; tempDir]] ++ after
      /\ (after = [] \/ after = [ModpackStatusSet ref ModpackJob.failed])
  else
    trace out.1 = trace s ++ [ModpackStatusSet ref ModpackJob.failed]
    /\ files out.1 = procEffect w ["mkdir"; "-p"; tempDir] (files s).
Proof.
  intros Htask Hjob.
  destruct task as [| r address version | r project file]; [discriminate|..];
    injection Htask as ->; cbn [taskSource].
  - rewrite (resumeInstall_modrinth w up ref address version job s Hjob).
    apply (caught_pipeline_trace w ref ModpackJob.modrinth (ModpackJob.id job)
             (installModrinthPack w up ref _ address version) s).
    eapply yields_trace, yields_installModrinthPack.
  - rewrite (resumeInstall_curseforge w up ref project file job s Hjob).
    apply (caught_pipeline_trace w ref ModpackJob.curseforge (ModpackJob.id job)
             (installCurseforgePack w up ref _ project file) s).
    eapply yields_trace, yields_installCurseforgePack.
Qed.

Lemma install_temp_directory_removed_witness :
  exists before after,
    trace (resumeInstall unpackingWorld someUpstream (ModrinthTask 0 packUrl None)
             serverInstalling).1
    = trace serverInstalling ++ before
      ++ [Spawn ["rm"; "-rf"; "/tmp/modpack-modrinth-mhg8cqrf-k3x9qa"]] ++ after
    /\ (after = [] \/ after = [ModpackStatusSet 0 ModpackJob.failed]).
Proof.
  refine (install_temp_directory_removed unpackingWorld someUpstream
            (ModrinthTask 0 packUrl None) 0
            (newModpackJob unpackingWorld ModpackJob.modrinth) serverInstalling _ _).
  - reflexivity.
  - vm_compute. reflexivity.
Defined.

(** *** The files of a Modrinth pack *)

Lemma bind_Ok_inv {A B} (m : M A) (f : A -> M B) (s s' : Server) (b : B) :
  (m ≫= f) s = (s', Ok b) -> exists s1 a, m s = (s1, Ok a) /\ f a s1 = (s', Ok b).
Proof.
  unfold mbind, M_bind. destruct (m s) as [s1 [a|message]]; [eauto | discriminate].
Qed.

Lemma ensureDirectory_files (w : World) (path : string) (s s' : Server) (r : Result unit) :
  ensureDirectory w path s = (s', r) ->
  files s' = procEffect w ["mkdir"; "-p"; path] (files s)
  /\ (r = Ok tt <-> procExit w ["mkdir"; "-p"; path] = 0).
Proof.
  unfold ensureDirectory, spawn, emit, modify, mbind, M_bind, mret, M_ret, throw.
  cbn [fst snd]. destruct (procExit w _ =? 0) eqn:E; cbn [negb]; intros [= <- <-].
  - apply Z.eqb_eq in E. now split.
  - apply Z.eqb_neq in E. split; [reflexivity|]. split; [discriminate | congruence].
Qed.

(** What a successful [downloadFileToPath] has done: the address
    answered 2xx with the buffer returned, and the buffer is in the file
    at the destination. *)
Lemma downloadFileToPath_Ok (w : World) (address destination : string) (job : option nat)
    (s s' : Server) (buffer : list byte) :
  downloadFileToPath w address destination job s = (s', Ok buffer) ->
  (exists status statusText,
     httpGet w address = FetchResponse status statusText (BodyBytes buffer)
     /\ responseOk status = true)
  /\ files s' !! destination = Some (FsFile buffer).
Proof.
  unfold downloadFileToPath. intros H.
  apply bind_Ok_inv in H as (s1 & [] & _ & H).
  destruct (httpGet w address) as [message|status statusText body]; [discriminate|].
  destruct (responseOk status) eqn:Eok; cbn [negb] in H; [|discriminate].
  destruct body as [data|message]; [|discriminate].
  apply bind_Ok_inv in H as (s2 & [] & _ & H).
  apply bind_Ok_inv in H as (s3 & [] & Hwrite & H).
  apply bind_Ok_inv in H as (s4 & [] & Hjob & H).
  injection H as <- <-. split; [eauto|].
  assert (files s4 = files s3) as ->.
  { destruct job; injection Hjob as <-; reflexivity. }
  unfold fsOp, fsWriteFile in Hwrite.
  destruct (files s2 !! destination) as [[]|]; try discriminate;
    injection Hwrite as <-; apply lookup_insert_eq.
Qed.

Lemma installModrinthLoop_Ok (w : World) (ref : nat) (total : Z)
    (entries : list Modrinth.FileEntry) :
  forall index installed s s' n,
    installModrinthLoop w ref total index installed entries s = (s', Ok n) ->
    n = installed
        + Z.of_nat (length (List.filter (fun e => negb (unsupportedOnServer e)) entries))
    /\ forall (i : nat) e,
         entries !! i = Some e -> unsupportedOnServer e = false ->
         exists relPath address buffer,
           sanitizeRelativePath (entryPath (index + Z.of_nat i) e) = Ok relPath
           /\ head (Modrinth.downloads e) = Some address /\ address <> ""
           /\ (exists status statusText,
                 httpGet w address = FetchResponse status statusText (BodyBytes buffer)
                 /\ responseOk status = true)
           /\ verifyHash w buffer (Modrinth.hashes e) relPath = Ok tt.
Proof.
  induction entries as [|fileEntry rest IH]; intros index installed s s' n H.
  - injection H as <- <-. split; [cbn; lia|]. intros i e Hi. discriminate.
  - cbn [installModrinthLoop] in H. fold (unsupportedOnServer fileEntry) in H.
    cbn [List.filter].
    destruct (unsupportedOnServer fileEntry) eqn:Eskip; cbn [negb].
    + apply IH in H as [-> Hrest]. split; [reflexivity|].
      intros [|i] e Hi He; cbn in Hi.
      * injection Hi as <-. congruence.
      * destruct (Hrest i e Hi He) as (relPath & address & buffer & Hsan & Hrest').
        exists relPath, address, buffer.
        replace (index + Z.of_nat (S i)) with (index + 1 + Z.of_nat i) by lia.
        now split.
    + cbv zeta in H. fold (entryPath index fileEntry) in H.
      apply bind_Ok_inv in H as (s1 & relPath & Hsan & H).
      unfold liftResult in Hsan. injection Hsan as <- Hsan.
      destruct (head (Modrinth.downloads fileEntry)) as [address|] eqn:Ehead;
        cbn [truthy negb] in H; [|discriminate].
      destruct (String.eqb address "") eqn:Eaddr; cbn [negb] in H; [discriminate|].
      apply String.eqb_neq in Eaddr.
      apply bind_Ok_inv in H as (s2 & [] & _ & H).
      apply bind_Ok_inv in H as (s3 & buffer & Hdl & H).
      apply bind_Ok_inv in H as (s4 & [] & Hhash & H).
      unfold liftResult in Hhash. injection Hhash as <- Hhash.
      apply downloadFileToPath_Ok in Hdl as [Hget _].
      apply IH in H as [-> Hrest]. split; [cbn [length]; lia|].
      intros [|i] e Hi He; cbn in Hi.
      * injection Hi as <-. exists relPath, address, buffer.
        replace (index + Z.of_nat 0) with index by lia. auto.
      * destruct (Hrest i e Hi He) as (relPath' & address' & buffer' & Hsan' & Hrest').
        exists relPath', address', buffer'.
        replace (index + Z.of_nat (S i)) with (index + 1 + Z.of_nat i) by lia.
        now split.
Qed.

(** X12.  What a successful [installModrinthFiles] has checked.  When
    the loop over the pack's files returns, the count it reports is the
    number of entries not marked unsupported on the server, and for each
    of them: its path passed [sanitizeRelativePath], its first download
    address answered 2xx, and the bytes received passed [verifyHash]
    against the entry's hashes.  One entry failing any of these makes the
    whole call throw, so no failing entry is ever counted. *)
Theorem installModrinthFiles_verified (w : World) (ref : nat) (manifest : Modrinth.Manifest)
    (s s' : Server) (info : InstallInfo) :
  installModrinthFiles w ref manifest s = (s', Ok info) ->
  installedCount info
  = Z.of_nat (length (List.filter (fun e => negb (unsupportedOnServer e))
                        (Modrinth.files manifest)))
  /\ forall (i : nat) e,
       Modrinth.files manifest !! i = Some e -> unsupportedOnServer e = false ->
       exists relPath address buffer,
         sanitizeRelativePath (entryPath (Z.of_nat i) e) = Ok relPath
         /\ head (Modrinth.downloads e) = Some address /\ address <> ""
         /\ (exists status statusText,
               httpGet w address = FetchResponse status statusText (BodyBytes buffer)
               /\ responseOk status = true)
         /\ verifyHash w buffer (Modrinth.hashes e) relPath = Ok tt.
Proof.
  unfold installModrinthFiles. cbv zeta. intros H.
  apply bind_Ok_inv in H as (s1 & n & Hloop & H). injection H as <- <-.
  apply installModrinthLoop_Ok in Hloop as [-> Hall]. split; [cbn; lia|].
  intros i e Hi He. destruct (Hall i e Hi He) as (relPath & address & buffer & H).
  exists relPath, address, buffer. exact H.
Qed.

Lemma installModrinthFiles_verified_witness :
  installedCount (mkInstallInfo 1 (Some ModpackJob.FABRIC) (Some "1.21.1"))
  = Z.of_nat (length (List.filter (fun e => negb (unsupportedOnServer e))
                        (Modrinth.files packManifest))).
Proof.
  refine (proj1 (installModrinthFiles_verified unpackingWorld 0 packManifest
                   serverInstalling
                   (installModrinthFiles unpackingWorld 0 packManifest serverInstalling).1
                   (mkInstallInfo 1 (Some ModpackJob.FABRIC) (Some "1.21.1")) _)).
  vm_compute. reflexivity.
Defined.



(* ===================================================================== *)
(** ** The key scheme, the restore validation and the listing             *)
(* ===================================================================== *)

Example key_of_dotted_directory :
  generateBackupKey "world." 1761998400123 = "backups/3129364800_2025110112_world..tar.gz"
  /\ invalidBackupFilename (generateBackupKey "world." 1761998400123) = true
  /\ listedFor "world" (generateBackupKey "old_world" 1761998400123) = true.
Proof. repeat split; vm_compute; reflexivity. Qed.

Lemma hasDot_app (a b : string) : hasDot (a +:+ b) = hasDot a || hasDot b.
Proof.
  induction a as [|c a IH]; [reflexivity|].
  rewrite append_cons. cbn [hasDot]. now rewrite IH, orb_assoc.
Qed.

Lemma hasDot_strRepeat (n : nat) : hasDot (strRepeat "0" n) = false.
Proof. induction n as [|n IH]; [reflexivity | exact IH]. Qed.

Lemma hasDot_padStart (w : nat) (s : string) :
  hasDot (padStart w "0" s) = hasDot s.
Proof. unfold padStart. now rewrite hasDot_app, hasDot_strRepeat. Qed.

Lemma digitChar_noDot (d : Z) : 0 <= d < 10 -> Ascii.eqb (digitChar d) "." = false.
Proof.
  intros Hd. unfold digitChar.
  assert (Z.to_nat d < 10)%nat as Hk by lia.
  destruct (Z.to_nat d) as [|[|[|[|[|[|[|[|[|[|k]]]]]]]]]]; try reflexivity. lia.
Qed.

Lemma hasDot_decDigits (fuel : nat) :
  forall n, 0 <= n -> hasDot (decDigits fuel n) = false.
Proof.
  induction fuel as [|fuel IH]; intros n Hn; [reflexivity|].
  cbn [decDigits]. destruct (n <? 10) eqn:E.
  - apply Z.ltb_lt in E. cbn [hasDot]. rewrite digitChar_noDot by lia. reflexivity.
  - rewrite hasDot_app, IH by (apply Z.div_pos; lia).
    cbn [hasDot]. rewrite digitChar_noDot by (apply Z.mod_pos_bound; lia). reflexivity.
Qed.

Lemma hasDot_numberToString (n : Z) : hasDot (numberToString n) = false.
Proof.
  unfold numberToString. destruct (n <? 0) eqn:E.
  - apply Z.ltb_lt in E. rewrite hasDot_app, hasDot_decDigits by lia. reflexivity.
  - apply Z.ltb_ge in E. now apply hasDot_decDigits.
Qed.

Lemma hasDot_formatUTCDate (t : Date) : hasDot (formatUTCDateYYYYMMDDHH t) = false.
Proof.
  unfold formatUTCDateYYYYMMDDHH. cbv zeta.
  now rewrite !hasDot_app, !hasDot_padStart, !hasDot_numberToString.
Qed.

(** Two full stops in a row cannot begin in a part without any. *)
Lemma includes_dots_after (a b : string) :
  hasDot a = false -> includes (a +:+ b) ".." = includes b "..".
Proof.
  induction a as [|c a IH]; intros Ha; [reflexivity|].
  cbn [hasDot] in Ha. apply orb_false_iff in Ha as [Hc Ha].
  rewrite append_cons. cbn [includes startsWith]. rewrite Hc. cbn [andb orb].
  now apply IH.
Qed.

Lemma endsWith_refl (s : string) : endsWith s s = true.
Proof. destruct s; cbn [endsWith]; now rewrite String.eqb_refl. Qed.

Lemma endsWith_app (a b : string) : endsWith (a +:+ b) b = true.
Proof.
  induction a as [|c a IH]; [apply endsWith_refl|].
  rewrite append_cons. cbn [endsWith]. rewrite IH. apply orb_true_r.
Qed.

Lemma generateBackupKey_parts (d : string) (t : Date) :
  exists stamp,
    hasDot stamp = false
    /\ generateBackupKey d t = "backups/" +:+ stamp +:+ "_" +:+ d +:+ ".tar.gz".
Proof.
  exists (padStart REV_SECONDS_WIDTH "0" (numberToString (MAX_EPOCH_SECONDS - t / 1000))
          +:+ "_" +:+ formatUTCDateYYYYMMDDHH t).
  split.
  - now rewrite !hasDot_app, hasDot_padStart, hasDot_numberToString, hasDot_formatUTCDate.
  - unfold generateBackupKey. cbv zeta. now rewrite !append_assoc.
Qed.

(** X16.  The key scheme against the restore validation and the
    listing filter.  The key [generateBackupKey] makes for a directory
    name, at any time, lies in the [backups/] namespace and is listed
    for that name by [handleListBackups].  The restore validation lets
    it through exactly when the name followed by [.tar.gz] has no [..]
    in it: a backup of a directory whose name ends with a full stop, or
    has two in a row, is written under a key that [handleRestore]
    refuses.  And the listing filter looks at the end of the key only:
    the keys of every directory named [<anything>_<name>] are listed for
    [<name>] as well. *)
Theorem generateBackupKey_against_readers (dirName other : string) (t : Date) :
  startsWith (generateBackupKey dirName t) "backups/" = true
  /\ listedFor dirName (generateBackupKey dirName t) = true
  /\ invalidBackupFilename (generateBackupKey dirName t)
     = includes (dirName +:+ ".tar.gz") ".."
  /\ listedFor dirName (generateBackupKey (other +:+ "_" +:+ dirName) t) = true.
Proof.
  destruct (generateBackupKey_parts dirName t) as (stamp & Hstamp & E).
  split; [|split; [|split]].
  - rewrite E. reflexivity.
  - unfold listedFor. rewrite E.
    rewrite <- (append_assoc "backups/" stamp). apply endsWith_app.
  - unfold invalidBackupFilename.
    assert (startsWith (generateBackupKey dirName t) "backups/" = true) as ->
      by (rewrite E; reflexivity).
    cbn [negb]. rewrite orb_false_r, E.
    rewrite <- (append_assoc "backups/" stamp), <- (append_assoc _ "_").
    apply includes_dots_after.
    now rewrite !hasDot_app, Hstamp.
  - destruct (generateBackupKey_parts (other +:+ "_" +:+ dirName) t) as (stamp' & _ & E').
    unfold listedFor. rewrite E'.
    rewrite <- (append_assoc "backups/" stamp'), <- (append_assoc _ "_").
    rewrite !(append_assoc other).
    rewrite <- (append_assoc _ other). apply endsWith_app.
Qed.

(* ===================================================================== *)
(** ** Writing, deleting and reading back                                 *)
(* ===================================================================== *)

Lemma writeErrorStatus_not_200 (message : string) : writeErrorStatus message <> 200.
Proof.
  unfold writeErrorStatus.
  destruct (includes message "maintenance"); [discriminate|].
  destruct (includes message "outside"); discriminate.
Qed.

(** What a write answered with 200 has done. *)
Lemma handleWriteFile_200 (rawPath : option string) (buffer : list byte) (s s1 : Server)
    (r : Response) :
  handleWriteFile rawPath buffer s = (s1, Ok r) -> statusCode r = 200 ->
  exists target,
    resolveManagedPath (managedRoots s) rawPath false = Ok target
    /\ managedRoots s1 = managedRoots s
    /\ files s1 !! absolute target = Some (FsFile buffer).
Proof.
  unfold handleWriteFile, ensureMaintenanceModeEnabled. run.
  destruct (negb (isMaintenanceModeEnabled s)).
  { intros [= <- <-] H. now apply writeErrorStatus_not_200 in H. }
  destruct (resolveManagedPath (managedRoots s) rawPath false) as [target|m].
  2: { intros [= <- <-] H. now apply writeErrorStatus_not_200 in H. }
  destruct (fsMkdirRecursive _ (files s)) as [fs1|m]; cbn [files setFiles].
  2: { intros [= <- <-] H. now apply writeErrorStatus_not_200 in H. }
  unfold fsWriteFile.
  destruct (fs1 !! absolute target) as [[]|];
    try (intros [= <- <-] H; now apply writeErrorStatus_not_200 in H);
    intros [= <- <-] _; exists target; cbn [files managedRoots setFiles];
    (split; [reflexivity|]; split; [reflexivity|]); apply lookup_insert_eq.
Qed.

Lemma handleDeletePath_200 (rawPath : option string) (s s1 : Server) (r : Response) :
  handleDeletePath rawPath s = (s1, Ok r) -> statusCode r = 200 ->
  exists target,
    resolveManagedPath (managedRoots s) rawPath false = Ok target
    /\ managedRoots s1 = managedRoots s
    /\ files s1 !! absolute target = None.
Proof.
  unfold handleDeletePath, ensureMaintenanceModeEnabled. run.
  destruct (negb (isMaintenanceModeEnabled s)).
  { intros [= <- <-] H. now apply writeErrorStatus_not_200 in H. }
  destruct (resolveManagedPath (managedRoots s) rawPath false) as [target|m].
  2: { intros [= <- <-] H. now apply writeErrorStatus_not_200 in H. }
  intros [= <- <-] _. exists target. cbn [files managedRoots setFiles].
  split; [reflexivity|]. split; [reflexivity|].
  unfold fsRmRecursive. apply map_lookup_filter_None. right.
  intros node _. cbn. unfold inSubtree. now rewrite String.eqb_refl.
Qed.

(** X17.  Reading back what was written.  Once a write through the
    gateway has been answered 200, a read of the same path is answered
    200 with exactly the bytes written, on any server that has the same
    managed roots and files, whether maintenance mode is still on or
    not (reads are not gated), and the read changes nothing. *)
Theorem write_then_read (rawPath : option string) (buffer : list byte) (s s1 s2 : Server)
    (r : Response) :
  handleWriteFile rawPath buffer s = (s1, Ok r) -> statusCode r = 200 ->
  managedRoots s2 = managedRoots s1 -> files s2 = files s1 ->
  handleReadFile rawPath s2 = (s2, Ok (mkResponse 200 (BytesPayload buffer))).
Proof.
  intros Hwrite H200 Hroots Hfiles.
  destruct (handleWriteFile_200 _ _ _ _ _ Hwrite H200) as (target & Hres & Hr & Hfile).
  unfold handleReadFile. run. rewrite Hroots, Hr, Hres, Hfiles, Hfile. reflexivity.
Qed.

(** X18.  Reading after a delete.  Once a delete through the gateway
    has been answered 200, a read of the same path finds nothing and is
    answered 404 "File not found", on any server with the same managed
    roots and files. *)
Theorem delete_then_read (rawPath : option string) (s s1 s2 : Server) (r : Response) :
  handleDeletePath rawPath s = (s1, Ok r) -> statusCode r = 200 ->
  managedRoots s2 = managedRoots s1 -> files s2 = files s1 ->
  handleReadFile rawPath s2 = (s2, Ok (mkResponse 404 (TextPayload "File not found"))).
Proof.
  intros Hdelete H200 Hroots Hfiles.
  destruct (handleDeletePath_200 _ _ _ _ Hdelete H200) as (target & Hres & Hr & Hfile).
  unfold handleReadFile. run. rewrite Hroots, Hr, Hres, Hfiles, Hfile. reflexivity.
Qed.

Lemma write_then_read_witness :
  handleReadFile (Some "/data/server.properties")
    (setFiles (files (handleWriteFile (Some "/data/server.properties") tenBytes
                        serverInMaintenance).1)
       serverRunning)
  = (setFiles (files (handleWriteFile (Some "/data/server.properties") tenBytes
                        serverInMaintenance).1)
       serverRunning,
     Ok (mkResponse 200 (BytesPayload tenBytes))).
Proof.
  refine (write_then_read (Some "/data/server.properties") tenBytes serverInMaintenance
            (handleWriteFile (Some "/data/server.properties") tenBytes serverInMaintenance).1
            _ (mkResponse 200 (PathPayload "/data/server.properties")) _ _ _ _);
    vm_compute; reflexivity.
Defined.

Lemma delete_then_read_witness :
  handleReadFile (Some "/data/world")
    (handleDeletePath (Some "/data/world") serverInMaintenance).1
  = ((handleDeletePath (Some "/data/world") serverInMaintenance).1,
     Ok (mkResponse 404 (TextPayload "File not found"))).
Proof.
  refine (delete_then_read (Some "/data/world") serverInMaintenance
            (handleDeletePath (Some "/data/world") serverInMaintenance).1
            _ (mkResponse 200 (PathPayload "/data/world")) _ _ _ _);
    vm_compute; reflexivity.
Defined.

(* ===================================================================== *)
(** ** The parent of a managed path                                       *)
(* ===================================================================== *)

Example computeParent_examples :
  computeParent "/data" "/data/world/region" = Some "/data/world"
  /\ computeParent "/data" "/data/world" = Some "/data"
  /\ computeParent "/data" "/data" = None
  /\ computeParent "/" "/etc" = Some "/".
Proof. repeat split; reflexivity. Qed.

Lemma append_inv_head (a x y : string) : a +:+ x = a +:+ y -> x = y.
Proof.
  induction a as [|c a IH]; [trivial|].
  rewrite !append_cons. intros [= E]. now apply IH.
Qed.

Lemma posixDirname_render (segs : list string) :
  Forall properSegment segs ->
  posixDirname (renderPath segs) = renderPath (removelast segs).
Proof.
  intros H. unfold posixDirname, renderPath at 2. do 3 f_equal.
  destruct segs as [|s segs]; [reflexivity|].
  unfold renderPath. change ("/" +:+ ?x) with (String slash x).
  rewrite splitOn_cons_sep, splitOn_joinWith by (auto using proper_hasSlash; discriminate).
  replace ("" :: s :: segs) with (replicate 1 "" ++ (s :: segs) ++ replicate 0 "")
    by (cbn; now rewrite app_nil_r).
  now apply normalizeSegments_padded.
Qed.

Lemma removelast_snoc {A} (l : list A) (x : A) : removelast (l ++ [x]) = l.
Proof. apply removelast_last. Qed.

(** The directory of a rendered path is under every root the path is
    strictly under, as soon as it begins like the root. *)
Lemma dirname_underRoot (rt : string) (segs : list string) :
  Forall properSegment segs ->
  underRoot rt (renderPath segs) = true -> renderPath segs <> rt ->
  startsWith (renderPath (removelast segs)) rt = true ->
  underRoot rt (renderPath (removelast segs)) = true.
Proof.
  intros Hsegs Hunder Hne Hstarts. unfold underRoot in *.
  destruct (String.eqb rt "/") eqn:Eroot; [reflexivity|]. cbn [orb] in *.
  apply orb_true_iff in Hunder as [Heq|Hunder].
  { apply String.eqb_eq in Heq. contradiction. }
  apply orb_true_iff.
  apply startsWith_spec in Hunder as (t & Ht).
  apply startsWith_spec in Hstarts as (u & Hu).
  destruct (decide (segs = [])) as [->|Hnil].
  - right. cbn in Ht, Hu |- *. destruct rt as [|c rt]; [reflexivity|].
    rewrite !append_cons in Ht. injection Ht as <- Ht. destruct rt; discriminate.
  - destruct (exists_last Hnil) as (init & l & ->).
    rewrite removelast_snoc in *.
    destruct init as [|i init].
    + right. cbn in Hu |- *. destruct rt as [|c rt]; [reflexivity|].
      rewrite append_cons in Hu. injection Hu as <- Hu.
      destruct rt; [discriminate Eroot | discriminate Hu].
    + rewrite (renderPath_flatPath ((i :: init) ++ [l])) in Ht by discriminate.
      rewrite flatPath_app, <- renderPath_flatPath in Ht by discriminate.
      rewrite Hu, !append_assoc in Ht. apply append_inv_head in Ht.
      destruct u as [|c u].
      * left. rewrite append_nil_r in Hu. rewrite Hu. apply String.eqb_refl.
      * right. cbn [flatPath] in Ht. rewrite !append_cons in Ht. injection Ht as -> _.
        apply startsWith_spec. exists u. rewrite Hu, append_assoc. reflexivity.
Qed.

(** X19.  The parent [resolveManagedPath] reports never leaves the root.
    For a path that has been accepted, the parent is absent exactly when
    the path is its managed root; otherwise it is the root again or the
    directory of the path, and in both cases itself a path under that
    root: going up from an accepted path, a client stays inside the
    managed root. *)
Theorem resolveManagedPath_parent (roots : list string) (rawPath : option string)
    (allowRootFallback : bool) (r : ResolvedPath) :
  resolveManagedPath roots rawPath allowRootFallback = Ok r ->
  match parent r with
  | None => absolute r = root r
  | Some p =>
      absolute r <> root r
      /\ (p = root r \/ p = posixDirname (absolute r))
      /\ underRoot (root r) p = true
  end.
Proof.
  unfold resolveManagedPath.
  destruct (pathCandidate roots rawPath allowRootFallback) as [candidate|]; [|discriminate].
  cbv zeta. destruct (List.find _ roots) as [rt|] eqn:Efind; [|discriminate].
  intros [= <-]. cbn [parent absolute root].
  apply List.find_some in Efind as [_ Hunder].
  rewrite absolutePathOf_render in *.
  pose proof (pathSegments_proper candidate) as Hsegs.
  set (segs := pathSegments candidate) in *.
  assert (underRoot rt rt = true) as Hself.
  { unfold underRoot. rewrite String.eqb_refl. apply orb_true_iff. left.
    apply orb_true_r. }
  unfold computeParent. cbv zeta.
  destruct (String.eqb (renderPath segs) rt) eqn:Eeq; cbv iota.
  { now apply String.eqb_eq in Eeq. }
  apply String.eqb_neq in Eeq.
  destruct (_ <? _)%nat; cbv iota;
    [split; [exact Eeq|]; split; [now left | exact Hself]|].
  destruct (startsWith (posixDirname (renderPath segs)) rt) eqn:Estarts; cbn [negb];
    cbv iota; [|split; [exact Eeq|]; split; [now left | exact Hself]].
  split; [exact Eeq|]. split; [now right|].
  rewrite posixDirname_render in * by exact Hsegs.
  now apply dirname_underRoot.
Qed.

Lemma resolveManagedPath_parent_witness :
  "/data/world/region" <> "/data"
  /\ ("/data/world" = "/data" \/ "/data/world" = posixDirname "/data/world/region")
  /\ underRoot "/data" "/data/world" = true.
Proof.
  exact (resolveManagedPath_parent ["/data"] (Some "/data/world/region") false
           (mkResolved "/data/world/region" "/data" (Some "/data/world")) eq_refl).
Defined.

(* ===================================================================== *)
(** ** The backup made while the request waits                            *)
(* ===================================================================== *)

Example handleBackup_example :
  handleBackup archivingWorld "data/world" serverRunning
  = (setFiles ∅
       (setTrace [Spawn (archiveArgv "/tmp/backup_2025110112.tar.gz" "/data/world");
                  ObjectPut someKey]
          (setBackupCount 1 serverRunning)),
     Ok (mkResponse 200 (BackupPayload someKey 3 "complete backup"))).
Proof. vm_compute. reflexivity. Qed.


(* ===================================================================== *)
(** ** The managed roots of a new server                                  *)
(* ===================================================================== *)

Example configuredRoots_examples :
  configuredRoots ∅ = ["/data"]
  /\ configuredRoots {[ "FILE_MANAGER_ROOTS" := " data/ , /srv//,, " ]} = ["/data"; "/srv"]
  /\ configuredRoots {[ "FILE_MANAGER_ROOTS" := " , " ]} = ["/data"]
  /\ configuredRoots {[ "FILE_MANAGER_ROOTS" := "/" ]} = ["/"]
  /\ configuredRoots {[ "FILE_MANAGER_ROOTS" := "//" ]} = [""].
Proof. repeat split; vm_compute; reflexivity. Qed.

Lemma stripTrailingSlashes_spec (s : string) :
  endsWithSlash (stripTrailingSlashes s) = false
  /\ (stripTrailingSlashes s = ""
      \/ exists c rest, s = String c rest /\ stripTrailingSlashes s = String c
                                              (stripTrailingSlashes rest)).
Proof.
  induction s as [|c s [IH1 IH2]]; [split; [reflexivity | now left]|].
  cbn [stripTrailingSlashes].
  destruct (Ascii.eqb c slash && String.eqb (stripTrailingSlashes s) "") eqn:E.
  - split; [reflexivity | now left].
  - split; [|right; eauto].
    cbn [endsWithSlash]. destruct (stripTrailingSlashes s) as [|d r] eqn:Es.
    + rewrite andb_true_r in E. exact E.
    + exact IH1.
Qed.

(** The empty root is under no discipline: every absolute path is under
    it. *)
Lemma underRoot_empty (x : string) : underRoot "" (String slash x) = true.
Proof. reflexivity. Qed.

(** X21.  The managed roots a new server computes from
    [FILE_MANAGER_ROOTS].  There is always at least one root, [/data]
    when the variable is unset, empty or names nothing.  Every root is
    [/], or begins with a slash and does not end with one, or is the
    empty string; the last comes from an entry made of two or more
    slashes only, and every absolute path is under it, as under [/]. *)
Theorem configuredRoots_shape (environment : gmap string string) :
  managedRoots (newServer environment) <> []
  /\ Forall (fun rt =>
               rt = "/" \/ rt = ""
               \/ (startsWith rt "/" = true /\ endsWithSlash rt = false))
            (managedRoots (newServer environment))
  /\ (forall x, underRoot "" (String slash x) = true).
Proof.
  change (managedRoots (newServer environment)) with (configuredRoots environment).
  split; [|split; [|apply underRoot_empty]].
  - unfold configuredRoots. cbv zeta. set (roots := _ <$> (_ <$> _)). now destruct roots.
  - unfold configuredRoots. cbv zeta.
    set (named := List.filter _ _).
    assert (Forall (fun rt =>
                      rt = "/" \/ rt = ""
                      \/ (startsWith rt "/" = true /\ endsWithSlash rt = false))
              ((fun rt => if String.eqb rt "/" then "/" else stripTrailingSlashes rt)
                 <$> ((fun rt => if startsWith rt "/" then rt else "/" +:+ rt) <$> named)))
      as H.
    { rewrite <- list_fmap_compose. apply Forall_fmap, Forall_forall. intros x _.
      unfold compose. cbv beta. set (rooted := if startsWith x "/" then x else "/" +:+ x).
      assert (startsWith rooted "/" = true) as Hrooted.
      { subst rooted. destruct (startsWith x "/") eqn:E; [exact E | reflexivity]. }
      destruct (String.eqb rooted "/"); [now left|]. right.
      destruct (stripTrailingSlashes_spec rooted) as [Hend [Hnil|(c & rest & E1 & E2)]];
        [now left|].
      right. split; [|exact Hend]. rewrite E2. rewrite E1 in Hrooted.
      cbn [startsWith] in Hrooted |- *. exact Hrooted. }
    set (roots := _ <$> (_ <$> named)) in *.
    destruct roots; [|exact H].
    constructor; [|constructor]. right. right. split; reflexivity.
Qed.
